(** * go-otel-exporter-files: the span spool writer and its replayer

    A shallow embedding of [trace/exporter.go] (naming scheme, binary
    framing, rotation state machine, retention purge) and of the importer
    ([ImportTraceFile], [ImportTraceFolder]), with the properties of the
    specification stated over it.

    Conventions of the embedding:
    - Go integers are [Z] with their wrap-around written out; the width of
      Go's [int] depends on the target and is the parameter [arch];
    - bytes are [Byte.byte], byte slices are [list byte], Go strings are
      [String.string];
    - the operating system is an event log ([fs_event]) together with a
      record that tells, for each call site of one export call, whether the
      system call fails and what the clock reads ([os_outcome]);
    - [time.Time] is the number of seconds since the epoch;
    - calls are taken one at a time: the mutex [lckOutput] is not modelled. *)

From Stdlib Require Import ZArith List Bool Lia String Ascii.
From coqutil Require Import Byte Word.LittleEndianList.
Import ListNotations.
Local Open Scope Z_scope.
Local Open Scope list_scope.

(** ** Go integer conversions *)

(** The target platform: Go's [int] is 32 or 64 bits wide. *)
Inductive arch : Type := Arch32 | Arch64.

Definition intBits (a : arch) : Z :=
  match a with Arch32 => 32 | Arch64 => 64 end.

(** Two's complement reading of the low [w] bits. *)
Definition wrapSigned (w x : Z) : Z := (x + 2 ^ (w - 1)) mod 2 ^ w - 2 ^ (w - 1).

Definition toInt (a : arch) (x : Z) : Z := wrapSigned (intBits a) x.
Definition toInt32 (x : Z) : Z := wrapSigned 32 x.
Definition toUint32 (x : Z) : Z := x mod 2 ^ 32.
Definition toUint16 (x : Z) : Z := x mod 2 ^ 16.

(** [len] of a slice, as a Go [int]. *)
Definition len {A : Type} (l : list A) : Z := Z.of_nat (List.length l).

(** The size of a pointer, and the runtime's [maxAlloc]: the address space
    less one byte on a 32-bit target (386, arm), 48 bits of it on a 64-bit
    one. *)
Definition ptrSize (a : arch) : Z :=
  match a with Arch32 => 4 | Arch64 => 8 end.

Definition maxAlloc (a : arch) : Z :=
  match a with Arch32 => 2 ^ 32 - 1 | Arch64 => 2 ^ 48 end.

(** The test of the runtime's [makeslice] on the capacity: [make] panics
    when the capacity is negative or the elements do not fit [maxAlloc]. *)
Definition makeslicePanics (a : arch) (elemSize cap : Z) : bool :=
  (cap <? 0) || (maxAlloc a <? elemSize * cap).

(** ** encoding/binary *)

Module LittleEndian.
Definition PutUint32 (v : Z) : list byte := le_split 4 v.
Definition Uint32 (b : list byte) : Z := le_combine (firstn 4 b).
End LittleEndian.

Module BigEndian.
Definition PutUint32 (v : Z) : list byte := rev (le_split 4 v).
Definition PutUint16 (v : Z) : list byte := rev (le_split 2 v).
End BigEndian.

(** ** encoding/base32, without padding *)

Definition b32Alphabet : list ascii :=
  list_ascii_of_string "0123456789abcdefghijklmnopqrstuv".

(** The eight bits of a byte, most significant first. *)
Definition bits_of_byte (b : byte) : list bool :=
  let '(b0, (b1, (b2, (b3, (b4, (b5, (b6, b7))))))) := Byte.to_bits b in
  [b7; b6; b5; b4; b3; b2; b1; b0].

(** Cut a bit string into groups of five; the last group is filled with
    zero bits on the right. *)
Fixpoint quintets (bits : list bool) : list (list bool) :=
  match bits with
  | [] => []
  | b1 :: b2 :: b3 :: b4 :: b5 :: rest => [b1; b2; b3; b4; b5] :: quintets rest
  | [b1; b2; b3; b4] => [[b1; b2; b3; b4; false]]
  | [b1; b2; b3] => [[b1; b2; b3; false; false]]
  | [b1; b2] => [[b1; b2; false; false; false]]
  | [b1] => [[b1; false; false; false; false]]
  end.

Definition quintet_value (q : list bool) : nat :=
  fold_left (fun acc (b : bool) => (2 * acc + (if b then 1 else 0))%nat) q 0%nat.

Definition b32Char (q : list bool) : ascii :=
  nth (quintet_value q) b32Alphabet "0"%char.

(** [b32Enc.EncodeToString]. *)
Definition b32EncodeToString (src : list byte) : string :=
  string_of_list_ascii (map b32Char (quintets (flat_map bits_of_byte src))).

(** ** Naming scheme *)

Definition outputHourMask : Z := 0xFFFFFF.
Definition outputSnBoundary : Z := 0x7FFFFFFD.

(** [makeOutputFileName]: [outputSn] is an int32. *)
Definition makeOutputFileName (outputSn : Z) : string :=
  if outputSn >? 0xFFFF
  then b32EncodeToString (BigEndian.PutUint32 (toUint32 outputSn))
  else b32EncodeToString (BigEndian.PutUint16 (toUint16 outputSn)).

(** [filepath.Join] of a folder and one more element.  The clean-up of
    redundant separators that [filepath.Join] also does is left out. *)
Definition pathJoin (dir name : string) : string := (dir ++ "/" ++ name)%string.

(** [makeOutputFolderPath]: the low three bytes of the big-endian hour. *)
Definition makeOutputFolderPath (baseFolderPath : string) (outputHour : Z) : string :=
  pathJoin baseFolderPath
    (b32EncodeToString (skipn 1 (BigEndian.PutUint32 (toUint32 outputHour)))).

(** ** Binary framing: the writer side *)

Inductive os_error : Type :=
| ErrCloseFp | ErrOpenIndex | ErrAppendIndex | ErrWriteFile | ErrMkdirAll
| ErrRemoveAll | ErrCreateFile | ErrWriteFp | ErrMarshalAppend.

(** Go errors: a leaf, [fmt.Errorf("...: %w", err)] (the message is cut down
    to its constant text) and [errors.Join]. *)
#[local] Unset Elimination Schemes.
Inductive error : Type :=
| Os (e : os_error)
| Wrap (msg : string) (inner : error)
| Join (errs : list error).
#[local] Set Elimination Schemes.

(** [binary.LittleEndian.PutUint32(buf[off:], v)]: four bytes overwritten in
    place. *)
Definition putUint32At (off : nat) (v : Z) (buf : list byte) : list byte :=
  firstn off buf ++ LittleEndian.PutUint32 v ++ skipn (off + 4) buf.

Section Framing.
Context {Msg : Type}.
(** [proto.MarshalOptions.MarshalAppend] without its buffer argument:
    [None] when marshalling fails. *)
Variable marshal : Msg -> option (list byte).

(** The body of the [range protoSpans] loop of [marshalSpans]. *)
Fixpoint marshalLoop (pbIdx : Z) (protoSpans : list Msg) (buf : list byte)
  : error + list byte :=
  match protoSpans with
  | [] => inr buf
  | pbSpan :: rest =>
      let pbSizeOffset := List.length buf in
      let buf1 := buf ++ [Byte.x00; Byte.x00; Byte.x00; Byte.x00] in
      match marshal pbSpan with
      | None => inl (Wrap "cannot marshal span" (Os ErrMarshalAppend))
      | Some bs =>
          let buf2 := buf1 ++ bs in
          let pbSize := len buf2 - Z.of_nat pbSizeOffset - 4 in
          marshalLoop (pbIdx + 1) rest
            (putUint32At pbSizeOffset (toUint32 pbSize) buf2)
      end
  end.

(** [marshalSpans], from the converted spans on ([tracetransform.Spans] is
    an external collaborator).  No span gives the nil buffer. *)
Definition marshalSpans (protoSpans : list Msg) : error + list byte :=
  let spanCount := len protoSpans in
  if spanCount =? 0 then inr []
  else marshalLoop 0 protoSpans (LittleEndian.PutUint32 (toUint32 spanCount)).
End Framing.

(** ** The importer *)

Inductive io_error : Type := EOF | ErrUnexpectedEOF.

(** [io.ReadFull] on an in-memory file: the bytes read and the rest of the
    file, [EOF] when nothing was left, [ErrUnexpectedEOF] when the file ends
    before [n] bytes. *)
Definition ReadFull (n : nat) (fp : list byte) : io_error + (list byte * list byte) :=
  if (n <=? List.length fp)%nat then inr (firstn n fp, skipn n fp)
  else match fp with
       | [] => inl EOF
       | _ :: _ => inl ErrUnexpectedEOF
       end.

Inductive import_error : Type :=
| ErrOpenTraceFile
| ErrSpanCount (e : io_error)     (* cannot have span count *)
| ErrSpanSize (e : io_error)      (* cannot have span size *)
| ErrInvalidSpanSize              (* invalid span size *)
| ErrSpanData (e : io_error)      (* cannot read span data *)
| ErrUnmarshal                    (* cannot unmarshal span data *)
| ErrReadDir                      (* cannot read trace folder *)
| PanicMakeSlice.                 (* make: cap out of range *)

(** The outcome of a loop run with fuel; [Stuck] is fuel exhaustion and is
    shown not to happen with the fuel the entry points give. *)
Inductive outcome (A : Type) : Type :=
| Done (x : A)
| Failed (e : import_error)
| Stuck.
Arguments Done {A} x.
Arguments Failed {A} e.
Arguments Stuck {A}.

Record DirEntry : Type := { Name : string; IsDir : bool }.

Section Importer.
Context {Msg : Type}.
Variable a : arch.
(** [proto.Unmarshal] into a fresh [ResourceSpans]. *)
Variable unmarshal : list byte -> option Msg.
(** [client.UploadTraces]: [true] when the upload succeeds. *)
Variable UploadTraces : list Msg -> bool.

(** The inner loop [for remainSpanCount > 0]. *)
Fixpoint readSpans (fuel : nat) (remainSpanCount : Z) (fp : list byte)
    (traceRecords : list Msg) : outcome (list Msg * list byte) :=
  if remainSpanCount >? 0 then
    match fuel with
    | O => Stuck
    | S fuel' =>
        match ReadFull 4 fp with
        | inl e => Failed (ErrSpanSize e)
        | inr (i32buf, fp1) =>
            let spanSize := toInt a (LittleEndian.Uint32 i32buf) in
            if spanSize <? 0 then Failed ErrInvalidSpanSize
            else if spanSize =? 0 then
              readSpans fuel' remainSpanCount fp1 traceRecords
            else
              match ReadFull (Z.to_nat spanSize) fp1 with
              | inl e => Failed (ErrSpanData e)
              | inr (spanBuf, fp2) =>
                  match unmarshal spanBuf with
                  | None => Failed ErrUnmarshal
                  | Some traceSpan =>
                      readSpans fuel' (remainSpanCount - 1) fp2
                        (traceRecords ++ [traceSpan])
                  end
              end
        end
    end
  else Done (traceRecords, fp).

(** The outer [for] loop of [ImportTraceFile]; [uploaded] is the log of
    the batches handed to [UploadTraces].  The error of a failed upload is
    assigned to [err] and overwritten by the next read.
    [make([]*tracepb.ResourceSpans, 0, remainSpanCount)] panics when the
    count is negative or the slice of pointers does not fit [maxAlloc]:
    on a 32-bit target that is every count field from [2 ^ 30] on, on a
    64-bit target none.  [make([]byte, spanSize)] in the inner loop is
    reached with [0 < spanSize] below [2 ^ 31] (32-bit) or [2 ^ 32]
    (64-bit) only and never fails that test.  Running out of memory on a
    large count or size is not modelled. *)
Fixpoint importBatches (fuel : nat) (fp : list byte) (uploaded : list (list Msg))
  : outcome unit * list (list Msg) :=
  match fuel with
  | O => (Stuck, uploaded)
  | S fuel' =>
      match ReadFull 4 fp with
      | inl EOF => (Done tt, uploaded)
      | inl e => (Failed (ErrSpanCount e), uploaded)
      | inr (i32buf, fp1) =>
          let remainSpanCount := toInt a (LittleEndian.Uint32 i32buf) in
          if makeslicePanics a (ptrSize a) remainSpanCount
          then (Failed PanicMakeSlice, uploaded)
          else
            match readSpans (S (List.length fp1)) remainSpanCount fp1 [] with
            | Stuck => (Stuck, uploaded)
            | Failed e => (Failed e, uploaded)
            | Done (traceRecords, fp2) =>
                if len traceRecords >? 0 then
                  let _err := UploadTraces traceRecords in
                  importBatches fuel' fp2 (uploaded ++ [traceRecords])
                else importBatches fuel' fp2 uploaded
            end
      end
  end.

(** The file system seen by the importer: the content of a path that can
    be opened. *)
Variable fs : string -> option (list byte).

Definition ImportTraceFile (traceFilePath : string) (uploaded : list (list Msg))
  : outcome unit * list (list Msg) :=
  match fs traceFilePath with
  | None => (Failed ErrOpenTraceFile, uploaded)
  | Some fp => importBatches (S (List.length fp)) fp uploaded
  end.

(** The test on the first byte of a file name in [ImportTraceFolder]. *)
Definition hiddenName (fileName : string) : bool :=
  (1 <? String.length fileName)%nat &&
  match fileName with
  | String c _ => Ascii.eqb c "_" || Ascii.eqb c "."
  | EmptyString => false
  end.

(** The [range entries] loop of [ImportTraceFolder]. *)
Fixpoint importEntries (folderPath : string) (entries : list DirEntry)
    (uploaded : list (list Msg)) : outcome unit * list (list Msg) :=
  match entries with
  | [] => (Done tt, uploaded)
  | entry :: rest =>
      if IsDir entry then importEntries folderPath rest uploaded
      else
        let fileName := Name entry in
        if hiddenName fileName then importEntries folderPath rest uploaded
        else
          match ImportTraceFile (pathJoin folderPath fileName) uploaded with
          | (Done _, uploaded') => importEntries folderPath rest uploaded'
          | (err, uploaded') => (err, uploaded')
          end
  end.

(** [ImportTraceFolder]; [readDir] is the result of [os.ReadDir]. *)
Definition ImportTraceFolder (readDir : string -> option (list DirEntry))
    (folderPath : string) (uploaded : list (list Msg))
  : outcome unit * list (list Msg) :=
  match readDir folderPath with
  | None => (Failed ErrReadDir, uploaded)
  | Some entries => importEntries folderPath entries uploaded
  end.
End Importer.

(** ** The exporter *)

Definition MaxRetainHours : Z := 24 * 365.
Definition DefaultRetainHours : Z := 8.
Definition DefaultFileSizeLimit : Z := 16 * 1024 * 1024.
Definition purgeRangeCount : Z := 2.

Record Config : Type := {
  baseFolderPath : string;
  retainHours : Z;       (* int32 *)
  fileSizeLimit : Z      (* int *)
}.

(** [outputFp] is the path the open handle was created on; [None] is nil. *)
Record FilesTraceExporter : Type := {
  cfg : Config;
  outputFolderPath : string;
  indexFilePath : string;
  outputHour : Z;        (* int32 *)
  outputSn : Z;          (* int32 *)
  outputFileName : string;
  outputFp : option string;
  outputStartAt : Z;
  outputLastWriteAt : Z;
  currentSize : Z        (* int *)
}.

(** The zero value built by [NewFilesTraceExporter]. *)
Definition newExporter (c : Config) : FilesTraceExporter :=
  {| cfg := c; outputFolderPath := ""; indexFilePath := ""; outputHour := 0;
     outputSn := 0; outputFileName := ""; outputFp := None; outputStartAt := 0;
     outputLastWriteAt := 0; currentSize := 0 |}.

(** The options of the unnamed options file. *)
Definition WithRetainHours (retainHours' : Z) (c : Config) : Config :=
  let r := if retainHours' <? 0 then 0
           else if retainHours' >? MaxRetainHours then MaxRetainHours
           else retainHours' in
  {| baseFolderPath := baseFolderPath c; retainHours := r;
     fileSizeLimit := fileSizeLimit c |}.

Definition WithFileSizeLimit (fileSizeLimit' : Z) (c : Config) : Config :=
  let l := if fileSizeLimit' <? 1024 then 1024 else fileSizeLimit' in
  {| baseFolderPath := baseFolderPath c; retainHours := retainHours c;
     fileSizeLimit := l |}.

(** Every attempted system call, with whether it succeeded. *)
Inductive fs_event : Type :=
| EvClose (path : string) (ok : bool)
| EvOpenIndex (path : string) (ok : bool)
| EvIndexWrite (path fileName : string) (startAt lastWriteAt : Z) (ok : bool)
| EvWriteFile (path : string) (t : Z) (ok : bool)
| EvMkdirAll (path : string) (ok : bool)
| EvRemoveAll (path : string) (ok : bool)
| EvCreate (path : string) (ok : bool)
| EvWrite (path : string) (written : list byte) (ok : bool).

(** What the operating system answers during one call of [ExportSpans] or
    [Shutdown], one field per call site. *)
Record os_outcome : Type := {
  now_prepare : Z;            (* time.Now() in prepareOutputFp *)
  close_ok : bool;            (* outputFp.Close *)
  index_open_ok : bool;       (* os.OpenFile of the index *)
  index_write_ok : bool;      (* fp.WriteString on the index *)
  now_timestamp : Z;          (* time.Now() in writeTimestampFile *)
  timestamp_ok : bool;        (* os.WriteFile of _t *)
  mkdir_ok : bool;            (* os.MkdirAll *)
  now_purge : Z;              (* time.Now() in the purge *)
  remove_ok : Z -> bool;      (* os.RemoveAll, by purgeHourOffset *)
  create_ok : bool;           (* os.OpenFile of the segment file *)
  now_open : Z;               (* time.Now() after the file is created *)
  write_short : option nat;   (* outputFp.Write: None, or fails after n bytes *)
  now_write : Z               (* time.Now() after the write *)
}.

Definition set_folder (x : FilesTraceExporter) (p idx : string) (h sn : Z)
  : FilesTraceExporter :=
  {| cfg := cfg x; outputFolderPath := p; indexFilePath := idx; outputHour := h;
     outputSn := sn; outputFileName := outputFileName x; outputFp := outputFp x;
     outputStartAt := outputStartAt x; outputLastWriteAt := outputLastWriteAt x;
     currentSize := currentSize x |}.

Definition set_closed (x : FilesTraceExporter) : FilesTraceExporter :=
  {| cfg := cfg x; outputFolderPath := outputFolderPath x;
     indexFilePath := indexFilePath x; outputHour := outputHour x;
     outputSn := outputSn x; outputFileName := outputFileName x; outputFp := None;
     outputStartAt := outputStartAt x; outputLastWriteAt := outputLastWriteAt x;
     currentSize := 0 |}.

Definition set_outputSn (x : FilesTraceExporter) (sn : Z) : FilesTraceExporter :=
  {| cfg := cfg x; outputFolderPath := outputFolderPath x;
     indexFilePath := indexFilePath x; outputHour := outputHour x;
     outputSn := sn; outputFileName := outputFileName x; outputFp := outputFp x;
     outputStartAt := outputStartAt x; outputLastWriteAt := outputLastWriteAt x;
     currentSize := currentSize x |}.

Definition set_opened (x : FilesTraceExporter) (name fp : string) (t : Z)
  : FilesTraceExporter :=
  {| cfg := cfg x; outputFolderPath := outputFolderPath x;
     indexFilePath := indexFilePath x; outputHour := outputHour x;
     outputSn := outputSn x; outputFileName := name; outputFp := Some fp;
     outputStartAt := t; outputLastWriteAt := t; currentSize := currentSize x |}.

Definition set_written (x : FilesTraceExporter) (t size : Z) : FilesTraceExporter :=
  {| cfg := cfg x; outputFolderPath := outputFolderPath x;
     indexFilePath := indexFilePath x; outputHour := outputHour x;
     outputSn := outputSn x; outputFileName := outputFileName x;
     outputFp := outputFp x; outputStartAt := outputStartAt x;
     outputLastWriteAt := t; currentSize := size |}.

(** The result of a method: [err], the receiver afterwards, the system calls
    made. *)
Definition result : Type := option error * FilesTraceExporter * list fs_event.

(** [if len(errS) > 0 { err = fmt.Errorf(msg, errors.Join(errS...)) }]. *)
Definition joinErrors (msg : string) (errS : list error) : option error :=
  if len errS >? 0 then Some (Wrap msg (Join errS)) else None.

Definition errList (err : option error) : list error :=
  match err with Some e => [e] | None => [] end.

Definition wrapErr (msg : string) (err : option error) : option error :=
  match err with Some e => Some (Wrap msg e) | None => None end.

Definition writeTimestampFile (o : os_outcome) (x : FilesTraceExporter)
  : option error * list fs_event :=
  let p := pathJoin (outputFolderPath x) "_t" in
  if timestamp_ok o then (None, [EvWriteFile p (now_timestamp o) true])
  else (Some (Wrap "cannot write timestamp file" (Os ErrWriteFile)),
        [EvWriteFile p (now_timestamp o) false]).

Definition appendIndexRecord (o : os_outcome) (x : FilesTraceExporter)
  : option error * list fs_event :=
  let p := indexFilePath x in
  if index_open_ok o then
    let w := EvIndexWrite p (outputFileName x) (outputStartAt x)
               (outputLastWriteAt x) in
    if index_write_ok o then (None, [EvOpenIndex p true; w true])
    else (Some (Wrap "cannot append content to index file" (Os ErrAppendIndex)),
          [EvOpenIndex p true; w false])
  else (Some (Wrap "cannot open index file" (Os ErrOpenIndex)),
        [EvOpenIndex p false]).

Definition closeOutputFolder (o : os_outcome) (x : FilesTraceExporter)
  : option error * list fs_event :=
  if (outputFolderPath x =? "")%string then (None, [])
  else writeTimestampFile o x.

Definition closeOutputFile (o : os_outcome) (x : FilesTraceExporter) : result :=
  match outputFp x with
  | None => (None, x, [])
  | Some fp =>
      let errS0 := if close_ok o then [] else [Os ErrCloseFp] in
      let x1 := set_closed x in
      let '(err1, ev1) := appendIndexRecord o x1 in
      let errS := errS0 ++ errList err1 in
      let x2 := set_outputSn x1 (toInt32 (outputSn x1 + 1)) in
      (joinErrors "caught error on closing output file" errS, x2,
       EvClose fp (close_ok o) :: ev1)
  end.

(** The body of the [range purgeRangeCount] loop, over the offsets still to
    do; [break] ends the recursion. *)
Fixpoint purgeLoop (o : os_outcome) (base : string) (expiredHourBase : Z)
    (offsets : list Z) : list error * list fs_event :=
  match offsets with
  | [] => ([], [])
  | purgeHourOffset :: rest =>
      let expiredHour := toInt32 (expiredHourBase - toInt32 purgeHourOffset) in
      if expiredHour <? 0 then ([], [])
      else
        let p := makeOutputFolderPath base (Z.land expiredHour outputHourMask) in
        let ok := remove_ok o purgeHourOffset in
        let '(errS, evs) := purgeLoop o base expiredHourBase rest in
        ((if ok then [] else [Wrap "cannot remove expired output folder" (Os ErrRemoveAll)])
           ++ errS,
         EvRemoveAll p ok :: evs)
  end.

Definition expiredHourBaseOf (now retainHours' : Z) : Z :=
  let currentHour := toInt32 (Z.quot now 3600) in
  toInt32 (toInt32 (currentHour - retainHours') - 1).

Definition purgeRecentExpiredOutputFolders (o : os_outcome) (x : FilesTraceExporter)
  : option error * list fs_event :=
  if retainHours (cfg x) <? 1 then (None, [])
  else
    let expiredHourBase := expiredHourBaseOf (now_purge o) (retainHours (cfg x)) in
    let '(errS, evs) :=
      purgeLoop o (baseFolderPath (cfg x)) expiredHourBase
        (map Z.of_nat (seq 0 (Z.to_nat purgeRangeCount))) in
    (joinErrors "cannot purge recent expired output folders" errS, evs).

Definition prepareOutputFolder (o : os_outcome) (x : FilesTraceExporter)
    (outputHour' : Z) : result :=
  let p := makeOutputFolderPath (baseFolderPath (cfg x)) outputHour' in
  if mkdir_ok o then
    (None, set_folder x p (pathJoin p "_index") outputHour' 0, [EvMkdirAll p true])
  else (Some (Wrap "cannot create output folder" (Os ErrMkdirAll)), x,
        [EvMkdirAll p false]).

(** The hour bucket of a clock reading. *)
Definition hourBucket (now : Z) : Z :=
  toInt32 (Z.land (Z.quot now 3600) outputHourMask).

(** The first half of [prepareOutputFp], up to the test on the serial number:
    [inl] is a [return], [inr] falls through to the opening of a file. *)
Definition rotateOutput (a : arch) (o : os_outcome) (x : FilesTraceExporter)
    (recordSize : Z) : result + (FilesTraceExporter * list fs_event) :=
  let outputHour' := hourBucket (now_prepare o) in
  if outputHour' =? outputHour x then
    if negb (currentSize x =? 0)
       && (toInt a (currentSize x + recordSize) <=? fileSizeLimit (cfg x))
    then inl (None, x, [])
    else
      let '(err, x1, ev1) := closeOutputFile o x in
      match err with
      | Some e => inl (Some (Wrap "cannot close output file" e), x1, ev1)
      | None =>
          if (outputFolderPath x1 =? "")%string then
            let '(err2, x2, ev2) := prepareOutputFolder o x1 outputHour' in
            match err2 with
            | Some e =>
                inl (Some (Wrap "cannot prepare output folder for same hour" e),
                     x2, ev1 ++ ev2)
            | None => inr (x2, ev1 ++ ev2)
            end
          else inr (x1, ev1)
      end
  else
    let '(err0, x1, ev1) := closeOutputFile o x in
    let '(err1, ev2) := closeOutputFolder o x1 in
    let errS := errList (wrapErr "cannot close output file" err0)
                ++ errList (wrapErr "cannot close output folder" err1) in
    match joinErrors "cannot switch to new hour" errS with
    | Some e => inl (Some e, x1, ev1 ++ ev2)
    | None =>
        let '(err2, x2, ev3) := prepareOutputFolder o x1 outputHour' in
        match err2 with
        | Some e =>
            inl (Some (Wrap "cannot prepare output folder for next hour" e),
                 x2, ev1 ++ ev2 ++ ev3)
        | None =>
            let '(_, ev4) := purgeRecentExpiredOutputFolders o x2 in
            inr (x2, ev1 ++ ev2 ++ ev3 ++ ev4)
        end
    end.

(** The second half of [prepareOutputFp]. *)
Definition openOutputFile (o : os_outcome) (x : FilesTraceExporter) : result :=
  if outputSn x >? outputSnBoundary then (None, x, [])
  else
    let outputFileName' := makeOutputFileName (outputSn x) in
    let outputFilePath := pathJoin (outputFolderPath x) outputFileName' in
    if create_ok o then
      (None, set_opened x outputFileName' outputFilePath (now_open o),
       [EvCreate outputFilePath true])
    else (Some (Wrap "cannot create output file" (Os ErrCreateFile)), x,
          [EvCreate outputFilePath false]).

Definition prepareOutputFp (a : arch) (o : os_outcome) (x : FilesTraceExporter)
    (recordSize : Z) : result :=
  match rotateOutput a o x recordSize with
  | inl r => r
  | inr (x1, ev1) =>
      let '(err, x2, ev2) := openOutputFile o x1 in
      (err, x2, ev1 ++ ev2)
  end.

Section Exporter.
Context {Msg : Type}.
Variable marshal : Msg -> option (list byte).
Variable a : arch.

(** [ExportSpans], from the converted spans on. *)
Definition ExportSpans (o : os_outcome) (x : FilesTraceExporter)
    (protoSpans : list Msg) : result :=
  let spanCount := len protoSpans in
  if spanCount =? 0 then (None, x, [])
  else
    match marshalSpans marshal protoSpans with
    | inl e => (Some e, x, [])
    | inr buf =>
        let '(err, x1, ev1) := prepareOutputFp a o x (len buf) in
        match err with
        | Some e => (Some e, x1, ev1)
        | None =>
            match outputFp x1 with
            | None => (None, x1, ev1)
            | Some fp =>
                let '(err', w) :=
                  match write_short o with
                  | None => (None, EvWrite fp buf true)
                  | Some n =>
                      (Some (Wrap "cannot write spans to output file" (Os ErrWriteFp)),
                       EvWrite fp (firstn n buf) false)
                  end in
                (err',
                 set_written x1 (now_write o) (toInt a (currentSize x1 + len buf)),
                 ev1 ++ [w])
            end
        end
    end.
End Exporter.

Definition Shutdown (o : os_outcome) (x : FilesTraceExporter) : result :=
  let '(err0, x1, ev1) := closeOutputFile o x in
  let '(err1, ev2) := closeOutputFolder o x1 in
  (joinErrors "caught failure on shutdown exporter" (errList err0 ++ errList err1),
   x1, ev1 ++ ev2).

(** ** Shapes of segment files *)

(** The largest length or count field, exclusive, that Go's [int] holds as
    a positive number after [int(binary.LittleEndian.Uint32(...))]. *)
Definition frameLimit (a : arch) : Z :=
  match a with Arch32 => 2 ^ 31 | Arch64 => 2 ^ 32 end.

(** The largest count field, exclusive, for which [make] gives the slice of
    records: [frameLimit] on a 64-bit target, [2 ^ 30] on a 32-bit one.  No
    slice of records of a 32-bit program is longer. *)
Definition countLimit (a : arch) : Z :=
  match a with Arch32 => 2 ^ 30 | Arch64 => 2 ^ 32 end.

(** One record as it lies in a segment file. *)
Definition frame (payload : list byte) : list byte :=
  LittleEndian.PutUint32 (toUint32 (len payload)) ++ payload.

(** A field of a batch after its count: a length field of zero, or a
    length field with its payload. *)
Inductive field : Type :=
| Padding
| Framed (payload : list byte).

Definition fieldBytes (f : field) : list byte :=
  match f with
  | Padding => LittleEndian.PutUint32 0
  | Framed payload => frame payload
  end.

Section Shapes.
Context {Msg : Type}.
Variable a : arch.
Variable unmarshal : list byte -> option Msg.

(** [decodes fields recs]: the payloads among [fields] are not empty, fit
    the length field and unmarshal, in order, to [recs]; the length fields
    of zero between them stand for no record. *)
Inductive decodes : list field -> list Msg -> Prop :=
| decodes_nil : decodes [] []
| decodes_padding fields recs :
    decodes fields recs -> decodes (Padding :: fields) recs
| decodes_framed payload m fields recs :
    0 < len payload < frameLimit a -> unmarshal payload = Some m ->
    decodes fields recs -> decodes (Framed payload :: fields) (m :: recs).

(** [completeRecords n fp recs]: [fp] is exactly the length-prefixed part
    of a batch that announces [n] records: padding fields of length zero
    and [n] payloads, which unmarshal to [recs]. *)
Inductive completeRecords : Z -> list byte -> list Msg -> Prop :=
| complete_none : completeRecords 0 [] []
| complete_padding n fp recs :
    0 < n -> completeRecords n fp recs ->
    completeRecords n (LittleEndian.PutUint32 0 ++ fp) recs
| complete_record n payload m fp recs :
    0 < n -> 0 < len payload < frameLimit a -> unmarshal payload = Some m ->
    completeRecords (n - 1) fp recs ->
    completeRecords n (frame payload ++ fp) (m :: recs).

(** [completeBatches fp uploads]: [fp] is a sequence of whole batches and
    ends where a count field would start; [uploads] are the batches that
    hold at least one record. *)
Inductive completeBatches : list byte -> list (list Msg) -> Prop :=
| batches_none : completeBatches [] []
| batches_cons n body recs fp uploads :
    0 <= n < countLimit a -> completeRecords n body recs ->
    completeBatches fp uploads ->
    completeBatches (LittleEndian.PutUint32 n ++ body ++ fp)
      (match recs with [] => uploads | _ :: _ => recs :: uploads end).

(** [truncatedRecords n fp]: [fp] ends while [n] records are still
    announced: in (or right before) a length field, or inside a payload,
    possibly after padding fields and whole records. *)
Inductive truncatedRecords : Z -> list byte -> Prop :=
| truncated_length n fp :
    0 < n -> (List.length fp < 4)%nat -> truncatedRecords n fp
| truncated_payload n size part :
    0 < n -> 0 < size < frameLimit a -> len part < size ->
    truncatedRecords n (LittleEndian.PutUint32 size ++ part)
| truncated_after_padding n fp :
    0 < n -> truncatedRecords n fp ->
    truncatedRecords n (LittleEndian.PutUint32 0 ++ fp)
| truncated_after_record n payload m fp :
    0 < n -> 0 < len payload < frameLimit a -> unmarshal payload = Some m ->
    truncatedRecords (n - 1) fp ->
    truncatedRecords n (frame payload ++ fp).

(** [truncatedBatch fp]: [fp] starts at a count field and ends inside that
    count field or inside the batch it announces. *)
Inductive truncatedBatch : list byte -> Prop :=
| truncated_count fp :
    (0 < List.length fp < 4)%nat -> truncatedBatch fp
| truncated_body n fp :
    0 <= n < countLimit a -> truncatedRecords n fp ->
    truncatedBatch (LittleEndian.PutUint32 n ++ fp).
End Shapes.

(** A record the reader gives back: it marshals to a payload that is not
    empty, fits a length field and unmarshals to the record. *)
Definition framable {Msg : Type} (a : arch) (marshal : Msg -> option (list byte))
    (unmarshal : list byte -> option Msg) (m : Msg) (payload : list byte) : Prop :=
  marshal m = Some payload /\ unmarshal payload = Some m
  /\ 0 < len payload < frameLimit a.

(** The errors that report an input that ends too early. *)
Definition isTruncation (e : import_error) : Prop :=
  e = ErrSpanCount ErrUnexpectedEOF
  \/ (exists io, e = ErrSpanSize io)
  \/ (exists io, e = ErrSpanData io).

(** ** Folder replay, as the specification words it *)

(** A name that the folder replay leaves out: more than one character, the
    first of which is an underscore or a dot. *)
Definition skippedName (fileName : string) : Prop :=
  exists c rest, fileName = String c rest /\ rest <> EmptyString
                 /\ (c = "_"%char \/ c = "."%char).

(** The entries that are replayed: not a directory, not a skipped name. *)
Definition replayedEntry (e : DirEntry) : bool :=
  negb (IsDir e) && negb (hiddenName (Name e)).

Section FolderShapes.
Context {Msg : Type}.
Variable a : arch.
Variable unmarshal : list byte -> option Msg.
Variable UploadTraces : list Msg -> bool.
Variable fs : string -> option (list byte).

(** Replay of files one after the other, up to the first that fails. *)
Fixpoint replayFiles (paths : list string) (uploaded : list (list Msg))
  : outcome unit * list (list Msg) :=
  match paths with
  | [] => (Done tt, uploaded)
  | p :: rest =>
      match ImportTraceFile a unmarshal UploadTraces fs p uploaded with
      | (Done _, uploaded') => replayFiles rest uploaded'
      | r => r
      end
  end.
End FolderShapes.

(** ** Observations on the system calls of one export *)

Definition isRemoveAll (ev : fs_event) : bool :=
  match ev with EvRemoveAll _ _ => true | _ => false end.

(** Creation of, or a write to, a segment file. *)
Definition isSegmentIO (ev : fs_event) : bool :=
  match ev with EvCreate _ _ | EvWrite _ _ _ => true | _ => false end.

(** The same answers of the operating system, but for the removals. *)
Definition with_remove_ok (o : os_outcome) (f : Z -> bool) : os_outcome :=
  {| now_prepare := now_prepare o; close_ok := close_ok o;
     index_open_ok := index_open_ok o; index_write_ok := index_write_ok o;
     now_timestamp := now_timestamp o; timestamp_ok := timestamp_ok o;
     mkdir_ok := mkdir_ok o; now_purge := now_purge o; remove_ok := f;
     create_ok := create_ok o; now_open := now_open o;
     write_short := write_short o; now_write := now_write o |}.

(** What [outputFp.Write] leaves behind: the error and the event. *)
Definition writeError (w : option nat) : option error :=
  match w with
  | None => None
  | Some _ => Some (Wrap "cannot write spans to output file" (Os ErrWriteFp))
  end.

Definition writeEvent (fp : string) (buf : list byte) (w : option nat) : fs_event :=
  match w with
  | None => EvWrite fp buf true
  | Some n => EvWrite fp (firstn n buf) false
  end.

(** The removal of the folder of hour [h]. *)
Definition removal (o : os_outcome) (base : string) (h offset : Z) : fs_event :=
  EvRemoveAll (makeOutputFolderPath base (Z.land h outputHourMask)) (remove_ok o offset).

(** The same answers of the operating system, but for the segment write. *)
Definition with_write_short (o : os_outcome) (w : option nat) : os_outcome :=
  {| now_prepare := now_prepare o; close_ok := close_ok o;
     index_open_ok := index_open_ok o; index_write_ok := index_write_ok o;
     now_timestamp := now_timestamp o; timestamp_ok := timestamp_ok o;
     mkdir_ok := mkdir_ok o; now_purge := now_purge o; remove_ok := remove_ok o;
     create_ok := create_ok o; now_open := now_open o;
     write_short := w; now_write := now_write o |}.

(** ** Sample inputs *)

(** An operating system on which every call succeeds, all within the
    second [now]. *)
Definition calm (now : Z) : os_outcome :=
  {| now_prepare := now; close_ok := true; index_open_ok := true;
     index_write_ok := true; now_timestamp := now; timestamp_ok := true;
     mkdir_ok := true; now_purge := now; remove_ok := fun _ => true;
     create_ok := true; now_open := now; write_short := None; now_write := now |}.

Definition sampleConfig : Config :=
  {| baseFolderPath := "spool"; retainHours := DefaultRetainHours;
     fileSizeLimit := 1024 |}.

(** 2024-01-01T00:00:00Z, hour bucket 473352. *)
Definition sampleNow : Z := 1704067200.

(** An exporter with the segment file of serial [sn] open in the hour of
    [sampleNow], [size] bytes written. *)
Definition sampleOpen (sn size : Z) : FilesTraceExporter :=
  {| cfg := sampleConfig; outputFolderPath := "spool/0ssgg";
     indexFilePath := "spool/0ssgg/_index"; outputHour := 473352;
     outputSn := sn; outputFileName := makeOutputFileName sn;
     outputFp := Some (pathJoin "spool/0ssgg" (makeOutputFileName sn));
     outputStartAt := sampleNow - 60; outputLastWriteAt := sampleNow - 30;
     currentSize := size |}.

(** The same folder with no file open. *)
Definition sampleIdle (sn : Z) : FilesTraceExporter :=
  {| cfg := sampleConfig; outputFolderPath := "spool/0ssgg";
     indexFilePath := "spool/0ssgg/_index"; outputHour := 473352;
     outputSn := sn; outputFileName := ""; outputFp := None;
     outputStartAt := sampleNow - 60; outputLastWriteAt := sampleNow - 30;
     currentSize := 0 |}.

(** One span whose payload is the single byte 0x2a. *)
Definition sampleSpans : list (list byte) := [[Byte.x2a]].

(** ** The size counter and the open file *)

(** Between two calls the size counter is zero exactly when no file is
    open. *)
Definition sizeInvariant (x : FilesTraceExporter) : Prop :=
  match outputFp x with
  | None => currentSize x = 0
  | Some _ => 0 < currentSize x
  end.

(** ** Construction *)

(** The [Option] interface: what [applyExporterOption] does to a
    configuration. *)
Definition Option : Type := Config -> Config.

Definition WithBaseFolderPath (baseFolderPath' : string) : Option :=
  fun c => {| baseFolderPath := baseFolderPath'; retainHours := retainHours c;
              fileSizeLimit := fileSizeLimit c |}.

(** [WithProtoBufMarshalOptions] sets [marshalOpts] only; the marshaller is
    the parameter [marshal] of the embedding, so the fields kept here are
    unchanged. *)
Definition WithProtoBufMarshalOptions : Option := fun c => c.

Inductive new_result : Type :=
| ErrNeedBaseFolderPath
| NewExporter (exporter : FilesTraceExporter).

(** [NewFilesTraceExporter]. *)
Definition NewFilesTraceExporter (options : list Option) : new_result :=
  let cfg0 := {| baseFolderPath := ""; retainHours := DefaultRetainHours;
                 fileSizeLimit := DefaultFileSizeLimit |} in
  let cfg' := fold_left (fun c (opt : Option) => opt c) options cfg0 in
  if (baseFolderPath cfg' =? "")%string then ErrNeedBaseFolderPath
  else NewExporter (newExporter cfg').

(** The options a caller can build: the four constructors of the options
    file. *)
Inductive publicOption : Option -> Prop :=
| public_base p : publicOption (WithBaseFolderPath p)
| public_retain r : publicOption (WithRetainHours r)
| public_limit l : publicOption (WithFileSizeLimit l)
| public_marshal : publicOption WithProtoBufMarshalOptions.

(** A write to a segment file. *)
Definition isWrite (ev : fs_event) : bool :=
  match ev with EvWrite _ _ _ => true | _ => false end.

(** ** Runs of calls *)

(** One call on the exporter, with what the operating system answers. *)
Inductive call (Msg : Type) : Type :=
| CallExport (o : os_outcome) (protoSpans : list Msg)
| CallShutdown (o : os_outcome).
Arguments CallExport {Msg} o protoSpans.
Arguments CallShutdown {Msg} o.

Section Runs.
Context {Msg : Type}.
Variable marshal : Msg -> option (list byte).
Variable a : arch.

Definition step (x : FilesTraceExporter) (c : call Msg) : result :=
  match c with
  | CallExport o protoSpans => ExportSpans marshal a o x protoSpans
  | CallShutdown o => Shutdown o x
  end.

(** The calls one after the other, whatever error each returns: the exporter
    at the end and all the system calls made. *)
Fixpoint run (x : FilesTraceExporter) (calls : list (call Msg))
  : FilesTraceExporter * list fs_event :=
  match calls with
  | [] => (x, [])
  | c :: rest =>
      let '(_, x1, ev1) := step x c in
      let '(x2, ev2) := run x1 rest in
      (x2, ev1 ++ ev2)
  end.

(** The batches that the calls of a run hand to [outputFp.Write], each with
    the file it goes to. *)
Fixpoint exports (x : FilesTraceExporter) (calls : list (call Msg))
  : list (string * list Msg) :=
  match calls with
  | [] => []
  | c :: rest =>
      let '(_, x1, ev1) := step x c in
      match c, filter isWrite ev1 with
      | CallExport _ protoSpans, EvWrite fp _ _ :: _ => [(fp, protoSpans)]
      | _, _ => []
      end ++ exports x1 rest
  end.
End Runs.

(** The batches of a log that went to the file [p]. *)
Definition exportedTo {Msg : Type} (p : string) (log : list (string * list Msg))
  : list (list Msg) :=
  map snd (filter (fun e => (fst e =? p)%string) log).

(** The bytes that the writes of [evs] put into the file [p], in order. *)
Definition written (p : string) (evs : list fs_event) : list byte :=
  flat_map (fun ev => match ev with
                      | EvWrite p' w _ => if (p' =? p)%string then w else []
                      | _ => []
                      end) evs.

(** A call of a run in which no write is cut short, every span can be
    framed and read back, and the batch is no longer than the reader's
    [make] allows. *)
Definition wholeCall {Msg : Type} (a : arch) (marshal : Msg -> option (list byte))
    (unmarshal : list byte -> option Msg) (c : call Msg) : Prop :=
  match c with
  | CallExport o protoSpans =>
      write_short o = None
      /\ len protoSpans < countLimit a
      /\ (forall m, In m protoSpans ->
            exists payload, framable a marshal unmarshal m payload)
  | CallShutdown _ => True
  end.

(** The hour buckets that the export calls of a run read never go back;
    [lo] is a bucket not after the first. *)
Fixpoint clockMonotone {Msg : Type} (lo : Z) (calls : list (call Msg)) : Prop :=
  match calls with
  | [] => True
  | CallExport o _ :: rest =>
      lo <= hourBucket (now_prepare o)
      /\ clockMonotone (hourBucket (now_prepare o)) rest
  | CallShutdown _ :: rest => clockMonotone lo rest
  end.

(** The segment files created, in order. *)
Definition created (evs : list fs_event) : list string :=
  flat_map (fun ev => match ev with EvCreate p true => [p] | _ => [] end) evs.

(** The path of the segment file of serial number [sn] in the folder of hour
    [h]. *)
Definition segmentPath (base : string) (h sn : Z) : string :=
  pathJoin (makeOutputFolderPath base h) (makeOutputFileName sn).

(** The fields of the exporter agree with each other: the hour is within its
    mask, the folder (once there is one) is that of the hour and the index
    lies in it, an open file is the one of the serial number in that folder,
    and the serial number is within its bound (one above it at most, when no
    file is open). *)
Definition wellFormed (x : FilesTraceExporter) : Prop :=
  0 <= outputHour x <= outputHourMask
  /\ (outputFolderPath x = ""%string
      \/ (outputFolderPath x
          = makeOutputFolderPath (baseFolderPath (cfg x)) (outputHour x)
          /\ indexFilePath x = pathJoin (outputFolderPath x) "_index"))
  /\ match outputFp x with
     | Some fp =>
         outputFolderPath x <> ""%string
         /\ 0 <= outputSn x <= outputSnBoundary
         /\ outputFileName x = makeOutputFileName (outputSn x)
         /\ fp = pathJoin (outputFolderPath x) (outputFileName x)
     | None => 0 <= outputSn x <= outputSnBoundary + 1
     end.

(** The serial numbers below [limitSn x] are used up in the current
    folder. *)
Definition limitSn (x : FilesTraceExporter) : Z :=
  match outputFp x with Some _ => outputSn x + 1 | None => outputSn x end.

(** [older x p]: [p] is the segment file of an hour before the current one,
    or of the current hour with a serial number that is used up. *)
Definition older (x : FilesTraceExporter) (p : string) : Prop :=
  exists h sn,
    p = segmentPath (baseFolderPath (cfg x)) h sn
    /\ 0 <= h <= outputHourMask /\ 0 <= sn <= outputSnBoundary
    /\ (h < outputHour x \/ (h = outputHour x /\ sn < limitSn x)).

(** The files created so far are distinct, lie behind the exporter, and
    there is none before a folder exists. *)
Definition tracks (x : FilesTraceExporter) (paths : list string) : Prop :=
  NoDup paths
  /\ (paths <> [] -> outputFolderPath x <> ""%string)
  /\ Forall (older x) paths.

(** ** The content of a segment file *)

(** The bytes of the file [p] after the system calls [evs], from [content]
    on: a creation truncates the file, a write appends what it has written.
    The removal of folders is not followed. *)
Fixpoint fileContent (p : string) (evs : list fs_event) (content : list byte)
  : list byte :=
  match evs with
  | [] => content
  | EvCreate p' true :: rest =>
      fileContent p rest (if (p' =? p)%string then [] else content)
  | EvWrite p' w _ :: rest =>
      fileContent p rest (if (p' =? p)%string then content ++ w else content)
  | _ :: rest => fileContent p rest content
  end.

(** [orderly seen evs]: no file of [seen] or created in [evs] is created
    again, and every write goes to a file of [seen] or created before. *)
Fixpoint orderly (seen : list string) (evs : list fs_event) : Prop :=
  match evs with
  | [] => True
  | EvCreate p true :: rest => ~ In p seen /\ orderly (p :: seen) rest
  | EvWrite p _ _ :: rest => In p seen /\ orderly seen rest
  | _ :: rest => orderly seen rest
  end.

(** A sample run: two exports in the hour of [sampleNow] with a shutdown in
    between, then an export one hour later. *)
Definition sampleCalls : list (call (list byte)) :=
  [CallExport (calm sampleNow) sampleSpans;
   CallShutdown (calm sampleNow);
   CallExport (calm (sampleNow + 5)) sampleSpans;
   CallExport (calm (sampleNow + 3600)) sampleSpans].

(** ** The index of a folder *)

Definition isIndexWrite (ev : fs_event) : bool :=
  match ev with EvIndexWrite _ _ _ _ _ => true | _ => false end.

(** [indexed seen evs]: every record appended to an index file names a
    segment file that lies in the folder of that index and is one of [seen]
    or has been created before in [evs]. *)
Fixpoint indexed (seen : list string) (evs : list fs_event) : Prop :=
  match evs with
  | [] => True
  | EvCreate p true :: rest => indexed (p :: seen) rest
  | EvIndexWrite idx name _ _ _ :: rest =>
      (exists folder, idx = pathJoin folder "_index"
                      /\ In (pathJoin folder name) seen)
      /\ indexed seen rest
  | _ :: rest => indexed seen rest
  end.

(** * Properties *)

(** ** Sample names *)

Example file_name_0 : makeOutputFileName 0 = "0000"%string.
Proof. reflexivity. Qed.

Example file_name_1 : makeOutputFileName 1 = "000g"%string.
Proof. reflexivity. Qed.

Example file_name_65535 : makeOutputFileName 0xFFFF = "vvvg"%string.
Proof. reflexivity. Qed.

Example file_name_65536 : makeOutputFileName 0x10000 = "000g000"%string.
Proof. reflexivity. Qed.

Example folder_name_1 :
  makeOutputFolderPath "spool" 0x0100FF = "spool/040fu"%string.
Proof. reflexivity. Qed.

(** ** Naming scheme: the file name determines the serial number *)

Lemma list_ind5 {A : Type} (P : list A -> Prop) :
  P [] -> (forall a, P [a]) -> (forall a b, P [a; b]) ->
  (forall a b c, P [a; b; c]) -> (forall a b c d, P [a; b; c; d]) ->
  (forall a b c d e l, P l -> P (a :: b :: c :: d :: e :: l)) ->
  forall l, P l.
Proof.
  intros H0 H1 H2 H3 H4 H5.
  fix IH 1.
  intros [|a [|b [|c [|d [|e l]]]]];
    [apply H0 | apply H1 | apply H2 | apply H3 | apply H4 | apply H5, IH].
Qed.

Lemma bits_of_byte_inj b1 b2 : bits_of_byte b1 = bits_of_byte b2 -> b1 = b2.
Proof.
  unfold bits_of_byte. intros H.
  rewrite <- (Byte.of_bits_to_bits b1), <- (Byte.of_bits_to_bits b2).
  destruct (Byte.to_bits b1) as (x0 & x1 & x2 & x3 & x4 & x5 & x6 & x7).
  destruct (Byte.to_bits b2) as (y0 & y1 & y2 & y3 & y4 & y5 & y6 & y7).
  injection H as -> -> -> -> -> -> -> ->. reflexivity.
Qed.

Lemma bits_of_byte_cons b : exists x7 x6 x5 x4 x3 x2 x1 x0,
  bits_of_byte b = [x7; x6; x5; x4; x3; x2; x1; x0].
Proof.
  unfold bits_of_byte.
  destruct (Byte.to_bits b) as (x0 & x1 & x2 & x3 & x4 & x5 & x6 & x7).
  repeat eexists.
Qed.

Lemma bits_of_bytes_length l :
  List.length (flat_map bits_of_byte l) = (8 * List.length l)%nat.
Proof.
  induction l as [|b l IH]; simpl; [reflexivity|].
  destruct (bits_of_byte_cons b) as (x7 & x6 & x5 & x4 & x3 & x2 & x1 & x0 & ->).
  simpl. rewrite IH. lia.
Qed.

Lemma bits_of_bytes_inj l1 : forall l2,
  flat_map bits_of_byte l1 = flat_map bits_of_byte l2 -> l1 = l2.
Proof.
  induction l1 as [|b1 l1 IH]; intros [|b2 l2] H.
  - reflexivity.
  - apply (f_equal (@List.length bool)) in H.
    rewrite !bits_of_bytes_length in H. simpl in H. lia.
  - apply (f_equal (@List.length bool)) in H.
    rewrite !bits_of_bytes_length in H. simpl in H. lia.
  - simpl in H.
    pose proof (bits_of_byte_inj b1 b2) as Hb.
    destruct (bits_of_byte_cons b1) as (x7 & x6 & x5 & x4 & x3 & x2 & x1 & x0 & E1).
    destruct (bits_of_byte_cons b2) as (y7 & y6 & y5 & y4 & y3 & y2 & y1 & y0 & E2).
    rewrite E1, E2 in H, Hb. simpl in H.
    injection H as -> -> -> -> -> -> -> -> H.
    f_equal; [apply Hb; reflexivity | apply IH, H].
Qed.

Lemma quintets_inj l1 : forall l2,
  List.length l1 = List.length l2 -> quintets l1 = quintets l2 -> l1 = l2.
Proof.
  induction l1 as [|a|a b|a b c|a b c d|a b c d e l1 IH] using list_ind5;
    intros [|a' [|b' [|c' [|d' [|e' l2]]]]] Hlen H;
    simpl in Hlen; try discriminate Hlen; try lia;
    simpl in H; try reflexivity; try (injection H; intros; subst; reflexivity).
  injection H as -> -> -> -> -> H.
  do 5 f_equal. apply IH; [simpl in Hlen; lia | exact H].
Qed.

Lemma quintets_five l : Forall (fun q => List.length q = 5%nat) (quintets l).
Proof.
  induction l using list_ind5; simpl; repeat constructor; assumption.
Qed.

Lemma quintets_length l :
  (5 * List.length (quintets l) < List.length l + 5
   /\ List.length l <= 5 * List.length (quintets l))%nat.
Proof.
  induction l using list_ind5; simpl; lia.
Qed.

Lemma b32Char_inj q1 q2 :
  List.length q1 = 5%nat -> List.length q2 = 5%nat ->
  b32Char q1 = b32Char q2 -> q1 = q2.
Proof.
  destruct q1 as [|a1 [|a2 [|a3 [|a4 [|a5 [|]]]]]]; try discriminate.
  destruct q2 as [|c1 [|c2 [|c3 [|c4 [|c5 [|]]]]]]; try discriminate.
  intros _ _.
  destruct a1, a2, a3, a4, a5, c1, c2, c3, c4, c5;
    intros H; try reflexivity; vm_compute in H; discriminate H.
Qed.

Lemma map_b32Char_inj qs1 : forall qs2,
  Forall (fun q => List.length q = 5%nat) qs1 ->
  Forall (fun q => List.length q = 5%nat) qs2 ->
  map b32Char qs1 = map b32Char qs2 -> qs1 = qs2.
Proof.
  induction qs1 as [|q1 qs1 IH]; intros [|q2 qs2] F1 F2 H; try discriminate.
  - reflexivity.
  - inversion F1; inversion F2; subst. simpl in H. injection H as Hq H.
    f_equal; [apply b32Char_inj; assumption | apply IH; assumption].
Qed.

Lemma string_of_list_ascii_inj l1 l2 :
  string_of_list_ascii l1 = string_of_list_ascii l2 -> l1 = l2.
Proof.
  intros H. apply (f_equal list_ascii_of_string) in H.
  now rewrite !list_ascii_of_string_of_list_ascii in H.
Qed.

Lemma string_of_list_ascii_length l :
  String.length (string_of_list_ascii l) = List.length l.
Proof. induction l; simpl; congruence. Qed.

Lemma b32EncodeToString_length src (n : nat) :
  n = String.length (b32EncodeToString src) ->
  (5 * n < 8 * List.length src + 5 /\ 8 * List.length src <= 5 * n)%nat.
Proof.
  intros ->. unfold b32EncodeToString.
  rewrite string_of_list_ascii_length, length_map.
  pose proof (quintets_length (flat_map bits_of_byte src)) as H.
  rewrite bits_of_bytes_length in H. exact H.
Qed.

(** Base-32 encoding is injective on inputs of one length. *)
Lemma b32EncodeToString_inj s1 s2 :
  List.length s1 = List.length s2 ->
  b32EncodeToString s1 = b32EncodeToString s2 -> s1 = s2.
Proof.
  intros Hlen H. unfold b32EncodeToString in H.
  apply string_of_list_ascii_inj, map_b32Char_inj in H; try apply quintets_five.
  apply quintets_inj in H; [apply bits_of_bytes_inj, H|].
  rewrite !bits_of_bytes_length. lia.
Qed.

Lemma le_split_inj (n : nat) v1 v2 :
  0 <= v1 < 2 ^ (Z.of_nat n * 8) -> 0 <= v2 < 2 ^ (Z.of_nat n * 8) ->
  le_split n v1 = le_split n v2 -> v1 = v2.
Proof.
  intros H1 H2 H. apply (f_equal le_combine) in H.
  rewrite !le_combine_split, !Z.mod_small in H; assumption.
Qed.

Lemma rev_inj {A : Type} (l1 l2 : list A) : rev l1 = rev l2 -> l1 = l2.
Proof.
  intros H. apply (f_equal (@rev A)) in H. now rewrite !rev_involutive in H.
Qed.

(** C10.  Over the serial numbers the exporter can use, [0 .. 0x7FFFFFFD],
    a serial number up to [0xFFFF] gets a name of 4 characters, a larger one
    a name of 7 characters, and two serial numbers with the same file name
    are equal. *)
Theorem makeOutputFileName_injective (sn1 sn2 : Z) :
  0 <= sn1 <= outputSnBoundary -> 0 <= sn2 <= outputSnBoundary ->
  String.length (makeOutputFileName sn1)
    = (if sn1 <=? 0xFFFF then 4%nat else 7%nat)
  /\ (makeOutputFileName sn1 = makeOutputFileName sn2 -> sn1 = sn2).
Proof.
  unfold outputSnBoundary. intros H1 H2.
  assert (Hlen : forall sn, 0 <= sn <= 0x7FFFFFFD ->
            String.length (makeOutputFileName sn)
              = (if sn <=? 0xFFFF then 4%nat else 7%nat)).
  { intros sn Hsn. unfold makeOutputFileName.
    destruct (Z.gtb_spec sn 0xFFFF), (Z.leb_spec sn 0xFFFF); try lia.
    - pose proof (b32EncodeToString_length (BigEndian.PutUint32 (toUint32 sn)) _ eq_refl) as L.
      unfold BigEndian.PutUint32 in *. rewrite length_rev, length_le_split in L.
      lia.
    - pose proof (b32EncodeToString_length (BigEndian.PutUint16 (toUint16 sn)) _ eq_refl) as L.
      unfold BigEndian.PutUint16 in *. rewrite length_rev, length_le_split in L.
      lia. }
  split; [apply Hlen, H1|].
  intros Heq. pose proof (Hlen sn1 H1) as L1. pose proof (Hlen sn2 H2) as L2.
  rewrite Heq in L1. rewrite L1 in L2. revert Heq. unfold makeOutputFileName.
  destruct (Z.gtb_spec sn1 0xFFFF) as [G1|G1], (Z.gtb_spec sn2 0xFFFF) as [G2|G2];
    destruct (Z.leb_spec sn1 0xFFFF) as [G3|G3], (Z.leb_spec sn2 0xFFFF) as [G4|G4];
    try lia; try discriminate L2; intros Heq.
  - apply b32EncodeToString_inj in Heq.
    + apply rev_inj, le_split_inj in Heq; unfold toUint32 in *;
        rewrite ?Z.mod_small in * by lia; simpl; lia.
    + unfold BigEndian.PutUint32. now rewrite !length_rev, !length_le_split.
  - apply b32EncodeToString_inj in Heq.
    + apply rev_inj, le_split_inj in Heq; unfold toUint16 in *;
        rewrite ?Z.mod_small in * by lia; simpl; lia.
    + unfold BigEndian.PutUint16. now rewrite !length_rev, !length_le_split.
Qed.

Lemma makeOutputFileName_injective_witness :
  String.length (makeOutputFileName 65536) = 7%nat
  /\ (makeOutputFileName 65536 = makeOutputFileName 65535 -> 65536 = 65535).
Proof.
  apply (makeOutputFileName_injective 65536 65535); unfold outputSnBoundary; lia.
Defined.

(** ** Integer conversions and reads *)

Lemma toInt_small a v : 0 <= v < frameLimit a -> toInt a v = v.
Proof.
  unfold toInt, wrapSigned, frameLimit. destruct a; simpl intBits; intros H.
  - rewrite Z.mod_small; lia.
  - rewrite Z.mod_small; lia.
Qed.

Lemma countLimit_le a : 2 ^ 30 <= countLimit a <= frameLimit a.
Proof. destruct a; simpl; lia. Qed.

(** [make] gives the slice of records for the counts below [countLimit];
    on a 32-bit target it panics for every other count. *)
Lemma makeslicePanics_small a n :
  0 <= n < countLimit a -> makeslicePanics a (ptrSize a) n = false.
Proof.
  unfold makeslicePanics, ptrSize, maxAlloc, countLimit. intros H.
  destruct (Z.ltb_spec n 0); [lia|]. cbn [orb].
  destruct a;
    [destruct (Z.ltb_spec (2 ^ 32 - 1) (4 * n))
    |destruct (Z.ltb_spec (2 ^ 48) (8 * n))]; try reflexivity; lia.
Qed.

Lemma makeslicePanics_32 n :
  makeslicePanics Arch32 (ptrSize Arch32) n = negb ((0 <=? n) && (n <? 2 ^ 30)).
Proof.
  unfold makeslicePanics, ptrSize, maxAlloc.
  destruct (Z.ltb_spec n 0), (Z.leb_spec 0 n),
    (Z.ltb_spec (2 ^ 32 - 1) (4 * n)), (Z.ltb_spec n (2 ^ 30));
    try reflexivity; lia.
Qed.

Lemma frameLimit_le a : 2 ^ 31 <= frameLimit a <= 2 ^ 32.
Proof. destruct a; simpl; lia. Qed.

Lemma Uint32_PutUint32 v :
  LittleEndian.Uint32 (LittleEndian.PutUint32 v) = v mod 2 ^ 32.
Proof.
  unfold LittleEndian.Uint32, LittleEndian.PutUint32.
  rewrite firstn_all2 by (rewrite length_le_split; lia).
  apply le_combine_split.
Qed.

Lemma length_PutUint32 v : List.length (LittleEndian.PutUint32 v) = 4%nat.
Proof. apply length_le_split. Qed.

Lemma ReadFull_app (p rest : list byte) :
  ReadFull (List.length p) (p ++ rest) = inr (p, rest).
Proof.
  unfold ReadFull. rewrite length_app.
  destruct (Nat.leb_spec (List.length p) (List.length p + List.length rest)); [|lia].
  rewrite firstn_app, Nat.sub_diag, firstn_all, firstn_O, app_nil_r.
  rewrite skipn_app, Nat.sub_diag, skipn_all, skipn_O. reflexivity.
Qed.

Lemma ReadFull_PutUint32 v rest :
  ReadFull 4 (LittleEndian.PutUint32 v ++ rest) = inr (LittleEndian.PutUint32 v, rest).
Proof. rewrite <- (length_PutUint32 v) at 1. apply ReadFull_app. Qed.

Lemma ReadFull_short n fp :
  (List.length fp < n)%nat ->
  ReadFull n fp = inl (match fp with [] => EOF | _ :: _ => ErrUnexpectedEOF end).
Proof.
  intros H. unfold ReadFull.
  destruct (Nat.leb_spec n (List.length fp)); [lia|]. now destruct fp.
Qed.

Lemma ReadFull_length n fp buf rest :
  ReadFull n fp = inr (buf, rest) ->
  List.length buf = n /\ (List.length rest + n = List.length fp)%nat /\ fp = buf ++ rest.
Proof.
  unfold ReadFull. destruct (Nat.leb_spec n (List.length fp)).
  - intros [= <- <-]. rewrite length_firstn, length_skipn, firstn_skipn.
    repeat split; lia.
  - now destruct fp.
Qed.

(** The count or length field read back from what [PutUint32] wrote. *)
Lemma field_roundtrip a v :
  0 <= v < frameLimit a ->
  toInt a (LittleEndian.Uint32 (LittleEndian.PutUint32 v)) = v.
Proof.
  intros H. pose proof (frameLimit_le a).
  rewrite Uint32_PutUint32, Z.mod_small by lia. now apply toInt_small.
Qed.

(** ** The loops do not run out of fuel *)

Section ImporterFacts.
Context {Msg : Type}.
Variable a : arch.
Variable unmarshal : list byte -> option Msg.
Variable UploadTraces : list Msg -> bool.

Lemma readSpans_fuel f1 : forall f2 n fp acc,
  (List.length fp < f1)%nat -> (List.length fp < f2)%nat ->
  readSpans a unmarshal f1 n fp acc = readSpans a unmarshal f2 n fp acc
  /\ readSpans a unmarshal f1 n fp acc <> Stuck.
Proof.
  induction f1 as [|f1 IH]; intros f2 n fp acc H1 H2; [lia|].
  destruct f2 as [|f2]; [lia|]. simpl.
  destruct (n >? 0); [|split; [reflexivity|discriminate]].
  destruct (ReadFull 4 fp) as [e|[i32buf fp1]] eqn:R1;
    [split; [reflexivity|discriminate]|].
  apply ReadFull_length in R1 as (_ & L1 & _).
  destruct (_ <? 0); [split; [reflexivity|discriminate]|].
  destruct (_ =? 0); [apply IH; lia|].
  destruct (ReadFull _ fp1) as [e|[spanBuf fp2]] eqn:R2;
    [split; [reflexivity|discriminate]|].
  apply ReadFull_length in R2 as (_ & L2 & _).
  destruct (unmarshal spanBuf); [apply IH; lia|split; [reflexivity|discriminate]].
Qed.

Lemma readSpans_rest f : forall n fp acc recs rest,
  readSpans a unmarshal f n fp acc = Done (recs, rest) ->
  (List.length rest <= List.length fp)%nat.
Proof.
  induction f as [|f IH]; intros n fp acc recs rest; simpl.
  - destruct (n >? 0); [discriminate|]. intros [= _ <-]. lia.
  - destruct (n >? 0); [|intros [= _ <-]; lia].
    destruct (ReadFull 4 fp) as [e|[i32buf fp1]] eqn:R1; [discriminate|].
    apply ReadFull_length in R1 as (_ & L1 & _).
    destruct (_ <? 0); [discriminate|].
    destruct (_ =? 0); [intros H; apply IH in H; lia|].
    destruct (ReadFull _ fp1) as [e|[spanBuf fp2]] eqn:R2; [discriminate|].
    apply ReadFull_length in R2 as (_ & L2 & _).
    destruct (unmarshal spanBuf); [|discriminate].
    intros H; apply IH in H; lia.
Qed.

Lemma importBatches_fuel f1 : forall f2 fp uploaded,
  (List.length fp < f1)%nat -> (List.length fp < f2)%nat ->
  importBatches a unmarshal UploadTraces f1 fp uploaded
    = importBatches a unmarshal UploadTraces f2 fp uploaded
  /\ fst (importBatches a unmarshal UploadTraces f1 fp uploaded) <> Stuck.
Proof.
  induction f1 as [|f1 IH]; intros f2 fp uploaded H1 H2; [lia|].
  destruct f2 as [|f2]; [lia|]. cbn [importBatches].
  destruct (ReadFull 4 fp) as [[|]|[i32buf fp1]] eqn:R1;
    try (split; [reflexivity|discriminate]).
  apply ReadFull_length in R1 as (_ & L1 & _).
  destruct (makeslicePanics _ _ _); [split; [reflexivity|discriminate]|].
  destruct (readSpans_fuel (S (List.length fp1)) (S (List.length fp1))
              (toInt a (LittleEndian.Uint32 i32buf)) fp1 [])
    as [_ NS]; try lia.
  destruct (readSpans a unmarshal (S (List.length fp1)) _ fp1 [])
    as [[recs fp2]|e|] eqn:R2; [|split; [reflexivity|discriminate]|congruence].
  apply readSpans_rest in R2.
  destruct (_ >? 0); apply IH; lia.
Qed.

(** Whatever the file holds, [ImportTraceFile] returns. *)
Lemma ImportTraceFile_returns fs path uploaded :
  fst (ImportTraceFile a unmarshal UploadTraces fs path uploaded) <> Stuck.
Proof.
  unfold ImportTraceFile. destruct (fs path) as [fp|]; [|discriminate].
  apply (importBatches_fuel (S (List.length fp)) (S (List.length fp))); lia.
Qed.
End ImporterFacts.
(** ** Reading whole and truncated batches *)

Section ReaderFacts.
Context {Msg : Type}.
Variable a : arch.
Variable unmarshal : list byte -> option Msg.
Variable UploadTraces : list Msg -> bool.

Lemma readSpans_padding f n rest acc :
  0 < n ->
  readSpans a unmarshal (S f) n (LittleEndian.PutUint32 0 ++ rest) acc
    = readSpans a unmarshal f n rest acc.
Proof.
  intros Hn. cbn [readSpans].
  destruct (Z.gtb_spec n 0); [|lia].
  rewrite ReadFull_PutUint32, field_roundtrip by (destruct a; simpl; lia).
  reflexivity.
Qed.

Lemma readSpans_record f n payload m rest acc :
  0 < n -> 0 < len payload < frameLimit a -> unmarshal payload = Some m ->
  readSpans a unmarshal (S f) n (frame payload ++ rest) acc
    = readSpans a unmarshal f (n - 1) rest (acc ++ [m]).
Proof.
  intros Hn Hp Hm. pose proof (frameLimit_le a). cbn [readSpans].
  destruct (Z.gtb_spec n 0); [|lia].
  unfold frame, toUint32. rewrite Z.mod_small by lia.
  rewrite <- app_assoc, ReadFull_PutUint32, field_roundtrip by lia.
  destruct (Z.ltb_spec (len payload) 0); [lia|].
  destruct (Z.eqb_spec (len payload) 0); [lia|].
  unfold len at 1. rewrite Nat2Z.id, ReadFull_app, Hm. reflexivity.
Qed.

Lemma readSpans_complete n body recs :
  completeRecords a unmarshal n body recs ->
  forall f rest acc, (List.length body <= f)%nat ->
    readSpans a unmarshal f n (body ++ rest) acc = Done (acc ++ recs, rest).
Proof.
  induction 1 as [|n fp recs Hn _ IH|n payload m fp recs Hn Hp Hm _ IH];
    intros f rest acc Hf.
  - rewrite app_nil_r. now destruct f.
  - rewrite length_app, length_PutUint32 in Hf.
    destruct f as [|f]; [lia|].
    rewrite <- app_assoc, readSpans_padding by assumption. apply IH. lia.
  - unfold frame in Hf. rewrite !length_app, length_PutUint32 in Hf.
    destruct f as [|f]; [lia|].
    rewrite <- app_assoc, (readSpans_record _ _ _ m) by assumption.
    rewrite IH by lia. now rewrite <- app_assoc.
Qed.

Lemma readSpans_truncated n fp :
  truncatedRecords a unmarshal n fp ->
  forall f acc, (List.length fp < f)%nat ->
    exists e, readSpans a unmarshal f n fp acc = Failed e /\ isTruncation e.
Proof.
  induction 1 as [n fp Hn Hs|n size part Hn Hsz Hp|n fp Hn _ IH
                 |n payload m fp Hn Hp Hm _ IH]; intros f acc Hf.
  - destruct f as [|f]; [lia|]. cbn [readSpans].
    destruct (Z.gtb_spec n 0); [|lia].
    rewrite ReadFull_short by assumption.
    eexists; split; [reflexivity|]. right; left. eexists; reflexivity.
  - destruct f as [|f]; [lia|]. cbn [readSpans].
    destruct (Z.gtb_spec n 0); [|lia].
    rewrite ReadFull_PutUint32, field_roundtrip by lia.
    destruct (Z.ltb_spec size 0); [lia|].
    destruct (Z.eqb_spec size 0); [lia|].
    rewrite ReadFull_short by (unfold len in Hp; lia).
    eexists; split; [reflexivity|]. right; right. eexists; reflexivity.
  - rewrite length_app, length_PutUint32 in Hf.
    destruct f as [|f]; [lia|].
    rewrite readSpans_padding by assumption. apply IH. lia.
  - unfold frame in Hf. rewrite !length_app, length_PutUint32 in Hf.
    destruct f as [|f]; [lia|].
    rewrite (readSpans_record _ _ _ m) by assumption. apply IH. lia.
Qed.

Lemma completeRecords_count n body recs :
  completeRecords a unmarshal n body recs -> len recs = n.
Proof.
  induction 1 as [| |n payload m fp recs Hn Hp Hm _ IH]; try assumption.
  - reflexivity.
  - unfold len in *. simpl List.length. lia.
Qed.

(** Whole batches at the front of a file are uploaded one by one, and the
    reader goes on with what follows them. *)
Lemma importBatches_complete pre uploads :
  completeBatches a unmarshal pre uploads ->
  forall f f' tail uploaded,
    (List.length (pre ++ tail) < f)%nat -> (List.length tail < f')%nat ->
    importBatches a unmarshal UploadTraces f (pre ++ tail) uploaded
      = importBatches a unmarshal UploadTraces f' tail (uploaded ++ uploads).
Proof.
  induction 1 as [|n body recs fp uploads Hn Hb _ IH];
    intros f f' tail uploaded Hf Hf'.
  - rewrite app_nil_r. now apply importBatches_fuel.
  - destruct f as [|f]; [lia|]. cbn [importBatches].
    rewrite <- !app_assoc in *. rewrite !length_app, length_PutUint32 in Hf.
    rewrite ReadFull_PutUint32, field_roundtrip
      by (pose proof (countLimit_le a); lia).
    rewrite makeslicePanics_small by assumption.
    rewrite (readSpans_complete _ _ _ Hb) by (rewrite !length_app; lia).
    pose proof (completeRecords_count _ _ _ Hb) as Hc. cbn [app].
    destruct recs as [|r recs].
    + change (len (@nil Msg)) with 0. cbn [Z.gtb Z.compare].
      apply IH; rewrite ?length_app; lia.
    + destruct (Z.gtb_spec (len (r :: recs)) 0);
        [|unfold len in *; simpl List.length in *; lia].
      rewrite (IH f f') by (rewrite ?length_app; lia).
      now rewrite <- app_assoc.
Qed.

Lemma importBatches_truncated tail :
  truncatedBatch a unmarshal tail ->
  forall f uploaded, (List.length tail < f)%nat ->
    exists e, importBatches a unmarshal UploadTraces f tail uploaded
                = (Failed e, uploaded) /\ isTruncation e.
Proof.
  intros [fp Hs|n fp Hn Ht] f uploaded Hf.
  - destruct f as [|f]; [lia|]. cbn [importBatches].
    rewrite ReadFull_short by lia.
    destruct fp; [simpl in Hs; lia|].
    eexists; split; [reflexivity|]. now left.
  - destruct f as [|f]; [lia|]. cbn [importBatches].
    rewrite ReadFull_PutUint32, field_roundtrip
      by (pose proof (countLimit_le a); lia).
    rewrite makeslicePanics_small by assumption.
    destruct (readSpans_truncated _ _ Ht (S (List.length fp)) [])
      as (e & -> & He); [lia|].
    now exists e.
Qed.

(** On a target with a 32-bit [int] a length field of 2^31 or more is
    read as a negative size and rejected. *)
Lemma readSpans_negative_size_32 f n size rest acc :
  a = Arch32 -> 0 < n -> 2 ^ 31 <= size < 2 ^ 32 ->
  readSpans a unmarshal (S f) n (LittleEndian.PutUint32 size ++ rest) acc
    = Failed ErrInvalidSpanSize.
Proof.
  intros -> Hn Hs. cbn [readSpans].
  destruct (Z.gtb_spec n 0); [|lia].
  rewrite ReadFull_PutUint32, Uint32_PutUint32, Z.mod_small by lia.
  unfold toInt, wrapSigned. cbn [intBits].
  replace ((size + 2 ^ (32 - 1)) mod 2 ^ 32) with (size - 2 ^ 31).
  - destruct (Z.ltb_spec (size - 2 ^ 31 - 2 ^ (32 - 1)) 0); [reflexivity|lia].
  - apply Z.mod_unique with (q := 1); lia.
Qed.

(** With a 64-bit [int] the same field is a positive size: the test
    [spanSize < 0] never holds and the payload is read. *)
Lemma readSpans_negative_size_64 f n size rest acc :
  a = Arch64 -> 0 < n -> 2 ^ 31 <= size < 2 ^ 32 ->
  readSpans a unmarshal (S f) n (LittleEndian.PutUint32 size ++ rest) acc
    = match ReadFull (Z.to_nat size) rest with
      | inl e => Failed (ErrSpanData e)
      | inr (spanBuf, fp2) =>
          match unmarshal spanBuf with
          | None => Failed ErrUnmarshal
          | Some m => readSpans a unmarshal f (n - 1) fp2 (acc ++ [m])
          end
      end.
Proof.
  intros -> Hn Hs. cbn [readSpans].
  destruct (Z.gtb_spec n 0); [|lia].
  rewrite ReadFull_PutUint32, field_roundtrip by (simpl; lia).
  destruct (Z.ltb_spec size 0); [lia|].
  destruct (Z.eqb_spec size 0); [lia|]. reflexivity.
Qed.
End ReaderFacts.
(** ** The framing codec: claims *)

Lemma putUint32At_reserved (buf bs : list byte) v :
  putUint32At (List.length buf) v
    ((buf ++ [Byte.x00; Byte.x00; Byte.x00; Byte.x00]) ++ bs)
  = buf ++ LittleEndian.PutUint32 v ++ bs.
Proof.
  unfold putUint32At. rewrite <- !app_assoc.
  rewrite firstn_app, Nat.sub_diag, firstn_all, firstn_O, app_nil_r.
  rewrite skipn_app, skipn_all2 by lia.
  replace (List.length buf + 4 - List.length buf)%nat with 4%nat by lia.
  reflexivity.
Qed.

Section RoundTrip.
Context {Msg : Type}.
Variable a : arch.
Variable marshal : Msg -> option (list byte).
Variable unmarshal : list byte -> option Msg.

Lemma marshalLoop_frames protoSpans : forall pbIdx buf,
  (forall m, In m protoSpans -> exists payload, framable a marshal unmarshal m payload) ->
  exists payloads,
    Forall2 (framable a marshal unmarshal) protoSpans payloads
    /\ marshalLoop marshal pbIdx protoSpans buf
         = inr (buf ++ List.concat (map frame payloads))
    /\ completeRecords a unmarshal (len protoSpans)
         (List.concat (map frame payloads)) protoSpans.
Proof.
  induction protoSpans as [|m rest IH]; intros pbIdx buf Hall.
  - exists []. simpl. rewrite app_nil_r. repeat split; constructor.
  - destruct (Hall m (or_introl eq_refl)) as (payload & Hm).
    pose proof Hm as (Hm1 & Hm2 & Hm3).
    cbn [marshalLoop]. rewrite Hm1.
    replace (len ((buf ++ [Byte.x00; Byte.x00; Byte.x00; Byte.x00]) ++ payload)
             - Z.of_nat (List.length buf) - 4) with (len payload)
      by (unfold len; rewrite !length_app; simpl List.length; lia).
    rewrite putUint32At_reserved.
    destruct (IH (pbIdx + 1) (buf ++ frame payload)) as (payloads & F & E & C).
    { intros m' Hin. apply Hall. now right. }
    exists (payload :: payloads). split; [now constructor|]. split.
    + change (LittleEndian.PutUint32 (toUint32 (len payload)) ++ payload)
        with (frame payload).
      rewrite E. cbn [map List.concat]. now rewrite <- app_assoc.
    + cbn [map List.concat]. apply complete_record; try assumption.
      * unfold len. simpl List.length. lia.
      * replace (len (m :: rest) - 1) with (len rest)
          by (unfold len; simpl List.length; lia).
        exact C.
Qed.
End RoundTrip.

(** C1, as amended.  A non-empty sequence of records, each of which
    marshals to a payload of at least one byte that fits the length field and
    unmarshals to itself, is written as a count field followed by one frame
    per record, and a file holding exactly these bytes is read back as one
    batch with the same records in the same order.  The one exception is a
    batch of [2 ^ 30] records or more read on a 32-bit target: there [make]
    panics on the count before any record is read. *)
Theorem framing_roundtrip {Msg : Type} (a : arch)
    (marshal : Msg -> option (list byte)) (unmarshal : list byte -> option Msg)
    (UploadTraces : list Msg -> bool) (path : string) (protoSpans : list Msg) :
  protoSpans <> [] ->
  len protoSpans < frameLimit a ->
  (forall m, In m protoSpans ->
     exists payload, framable a marshal unmarshal m payload) ->
  exists payloads buf,
    Forall2 (framable a marshal unmarshal) protoSpans payloads
    /\ buf = LittleEndian.PutUint32 (len protoSpans) ++ List.concat (map frame payloads)
    /\ marshalSpans marshal protoSpans = inr buf
    /\ ImportTraceFile a unmarshal UploadTraces (fun _ => Some buf) path []
       = if len protoSpans <? countLimit a then (Done tt, [protoSpans])
         else (Failed PanicMakeSlice, []).
Proof.
  intros Hne Hlen Hall. pose proof (frameLimit_le a).
  assert (0 < len protoSpans)
    by (destruct protoSpans; [congruence | unfold len; simpl List.length; lia]).
  destruct (marshalLoop_frames a marshal unmarshal protoSpans 0
              (LittleEndian.PutUint32 (toUint32 (len protoSpans))) Hall)
    as (payloads & F & E & C).
  unfold toUint32 in E. rewrite Z.mod_small in E by lia.
  exists payloads, (LittleEndian.PutUint32 (len protoSpans)
                    ++ List.concat (map frame payloads)).
  repeat split; try assumption.
  - unfold marshalSpans. destruct (Z.eqb_spec (len protoSpans) 0); [lia|].
    unfold toUint32. rewrite Z.mod_small by lia. exact E.
  - unfold ImportTraceFile.
    destruct (Z.ltb_spec (len protoSpans) (countLimit a)) as [Hc|Hc].
    + assert (B : completeBatches a unmarshal
                    (LittleEndian.PutUint32 (len protoSpans)
                     ++ List.concat (map frame payloads) ++ []) [protoSpans]).
      { pose proof (batches_cons a unmarshal (len protoSpans) _ protoSpans [] []
                      ltac:(lia) C (batches_none a unmarshal)) as B.
        destruct protoSpans; [congruence | exact B]. }
      rewrite app_nil_r in B.
      pose proof (importBatches_complete a unmarshal UploadTraces _ _ B
                    (S (List.length (LittleEndian.PutUint32 (len protoSpans)
                                     ++ List.concat (map frame payloads))))
                    1%nat [] []) as I.
      rewrite app_nil_r in I. rewrite I by (simpl; lia). reflexivity.
    + destruct a; [|simpl in Hc, Hlen; lia].
      cbn [importBatches].
      rewrite ReadFull_PutUint32, field_roundtrip by lia.
      rewrite makeslicePanics_32.
      destruct (Z.leb_spec 0 (len protoSpans)),
        (Z.ltb_spec (len protoSpans) (2 ^ 30));
        try reflexivity; simpl in Hc; lia.
Qed.

Lemma framing_roundtrip_witness :
  exists payloads buf,
    Forall2 (framable Arch64 Some Some) [[Byte.x0a; Byte.x01]; [Byte.x12]] payloads
    /\ buf = LittleEndian.PutUint32 (len [[Byte.x0a; Byte.x01]; [Byte.x12]])
               ++ List.concat (map frame payloads)
    /\ marshalSpans Some [[Byte.x0a; Byte.x01]; [Byte.x12]] = inr buf
    /\ ImportTraceFile Arch64 Some (fun _ => true) (fun _ => Some buf)
         "0000"%string []
       = if len [[Byte.x0a; Byte.x01]; [Byte.x12]] <? countLimit Arch64
         then (Done tt, [[[Byte.x0a; Byte.x01]; [Byte.x12]]])
         else (Failed PanicMakeSlice, []).
Proof.
  apply (framing_roundtrip Arch64 Some Some (fun _ => true)).
  - discriminate.
  - vm_compute. reflexivity.
  - intros m [<-|[<-|[]]]; eexists; (split; [reflexivity|]);
      (split; [reflexivity|]); vm_compute; split; reflexivity.
Defined.

(** C1, as stated, fails: a record of no bytes is written as a length field
    of zero, which the reader takes for padding; it then looks for the record
    in what follows and finds the end of the file. *)
Lemma framing_roundtrip_fails_on_empty_record :
  marshalSpans Some [@nil byte]
    = inr [Byte.x01; Byte.x00; Byte.x00; Byte.x00;
           Byte.x00; Byte.x00; Byte.x00; Byte.x00]
  /\ ImportTraceFile Arch64 Some (fun _ => true)
       (fun _ => Some [Byte.x01; Byte.x00; Byte.x00; Byte.x00;
                       Byte.x00; Byte.x00; Byte.x00; Byte.x00])
       "0000"%string []
     = (Failed (ErrSpanSize EOF), [])
  /\ ImportTraceFile Arch32 Some (fun _ => true)
       (fun _ => Some [Byte.x01; Byte.x00; Byte.x00; Byte.x00;
                       Byte.x00; Byte.x00; Byte.x00; Byte.x00])
       "0000"%string []
     = (Failed (ErrSpanSize EOF), []).
Proof. repeat split; vm_compute; reflexivity. Qed.

(** C3.  On a 64-bit target a length field of [0x80000000] is not rejected
    as an invalid span size: the reader takes it for a payload of 2^31 bytes
    and tries to read it.  Only a 32-bit target rejects it. *)
Theorem negative_span_size_read_as_payload :
  ImportTraceFile Arch64 Some (fun _ => true)
    (fun _ => Some [Byte.x01; Byte.x00; Byte.x00; Byte.x00;
                    Byte.x00; Byte.x00; Byte.x00; Byte.x80])
    "0000"%string []
  = (Failed (ErrSpanData EOF), [])
  /\ ImportTraceFile Arch32 Some (fun _ => true)
       (fun _ => Some [Byte.x01; Byte.x00; Byte.x00; Byte.x00;
                       Byte.x00; Byte.x00; Byte.x00; Byte.x80])
       "0000"%string []
     = (Failed ErrInvalidSpanSize, []).
Proof.
  unfold ImportTraceFile.
  change [Byte.x01; Byte.x00; Byte.x00; Byte.x00;
          Byte.x00; Byte.x00; Byte.x00; Byte.x80]
    with (LittleEndian.PutUint32 1 ++ LittleEndian.PutUint32 (2 ^ 31) ++ []).
  split.
  - cbn [importBatches]. rewrite ReadFull_PutUint32, field_roundtrip by (simpl; lia).
    cbn [Z.ltb Z.compare].
    rewrite readSpans_negative_size_64 by (try reflexivity; lia).
    rewrite ReadFull_short by (simpl List.length; lia). reflexivity.
  - cbn [importBatches]. rewrite ReadFull_PutUint32, field_roundtrip by (simpl; lia).
    cbn [Z.ltb Z.compare].
    rewrite readSpans_negative_size_32 by (try reflexivity; lia). reflexivity.
Qed.

Lemma readSpans_count {Msg : Type} a (unmarshal : list byte -> option Msg) f :
  forall n fp acc recs rest,
    0 <= n -> readSpans a unmarshal f n fp acc = Done (recs, rest) ->
    len recs = len acc + n.
Proof.
  induction f as [|f IH]; intros n fp acc recs rest Hn; cbn [readSpans];
    destruct (Z.gtb_spec n 0); try discriminate;
    try (intros [= <- _]; lia).
  destruct (ReadFull 4 fp) as [e|[i32buf fp1]]; [discriminate|].
  destruct (_ <? 0); [discriminate|].
  destruct (_ =? 0); [apply IH; lia|].
  destruct (ReadFull _ fp1) as [e|[spanBuf fp2]]; [discriminate|].
  destruct (unmarshal spanBuf); [|discriminate].
  intros E. apply IH in E; [|lia].
  rewrite E. unfold len. rewrite length_app. simpl List.length. lia.
Qed.

Lemma decodes_complete {Msg : Type} a (unmarshal : list byte -> option Msg)
    fields recs last m :
  decodes a unmarshal fields recs ->
  0 < len last < frameLimit a -> unmarshal last = Some m ->
  completeRecords a unmarshal (len recs + 1)
    (List.concat (map fieldBytes fields) ++ frame last) (recs ++ [m]).
Proof.
  intros D Hl Hm. induction D as [|fields recs _ IH|payload m0 fields recs Hp Hm0 _ IH].
  - cbn [map List.concat app]. rewrite <- (app_nil_r (frame last)).
    apply complete_record; try assumption; [reflexivity|]. apply complete_none.
  - cbn [map List.concat fieldBytes]. rewrite <- app_assoc.
    apply complete_padding; [unfold len; lia|exact IH].
  - cbn [map List.concat fieldBytes]. rewrite <- app_assoc.
    change ((m0 :: recs) ++ [m]) with (m0 :: (recs ++ [m])).
    apply complete_record; try assumption; [unfold len; lia|].
    replace (len (m0 :: recs) + 1 - 1) with (len recs + 1)
      by (unfold len; simpl List.length; lia).
    exact IH.
Qed.

Lemma decodes_short {Msg : Type} a (unmarshal : list byte -> option Msg)
    fields recs :
  decodes a unmarshal fields recs ->
  forall f n acc, len recs < n -> (List.length fields < f)%nat ->
    readSpans a unmarshal f n (List.concat (map fieldBytes fields)) acc
    = Failed (ErrSpanSize EOF).
Proof.
  induction 1 as [|fields recs _ IH|payload m0 fields recs Hp Hm0 _ IH];
    intros f n acc Hn Hf; (destruct f as [|f]; [simpl in Hf; lia|]).
  - cbn [map List.concat readSpans]. unfold len in Hn. simpl in Hn.
    destruct (Z.gtb_spec n 0); [reflexivity|lia].
  - cbn [map List.concat fieldBytes].
    rewrite readSpans_padding by (unfold len in Hn; lia).
    apply IH; [exact Hn|simpl in Hf; lia].
  - cbn [map List.concat fieldBytes].
    rewrite (readSpans_record a unmarshal f n payload m0)
      by (try assumption; unfold len in Hn; lia).
    apply IH; [unfold len in *; simpl List.length in Hn; lia|simpl in Hf; lia].
Qed.

(** C4.  A batch declares [N] records; after its count come, in any order
    and number, length fields of zero and all but the last of the [N]
    records, then the last record.  The reader reads the batch to its end
    without error: it gives back exactly the [N] records in order, a
    length field of zero producing none, and stands right after the last
    record, so each length field of zero took its four bytes and no
    payload.  The length fields of zero do not count: when the last record
    is missing the batch is not complete, however many of them it holds,
    and the reader asks for another length field. *)
Theorem zero_length_frames_are_padding {Msg : Type} (a : arch)
    (unmarshal : list byte -> option Msg) (UploadTraces : list Msg -> bool)
    (path : string) (fields : list field) (recs : list Msg)
    (last : list byte) (m : Msg) (uploaded : list (list Msg)) :
  decodes a unmarshal fields recs ->
  0 < len last < frameLimit a -> unmarshal last = Some m ->
  len recs + 1 < countLimit a ->
  let body := List.concat (map fieldBytes fields) in
  let N := len recs + 1 in
  (forall rest acc,
     readSpans a unmarshal (S (List.length (body ++ frame last ++ rest))) N
       (body ++ frame last ++ rest) acc
     = Done (acc ++ recs ++ [m], rest))
  /\ ImportTraceFile a unmarshal UploadTraces
       (fun _ => Some (LittleEndian.PutUint32 N ++ body ++ frame last))
       path uploaded
     = (Done tt, uploaded ++ [recs ++ [m]])
  /\ ImportTraceFile a unmarshal UploadTraces
       (fun _ => Some (LittleEndian.PutUint32 N ++ body)) path uploaded
     = (Failed (ErrSpanSize EOF), uploaded).
Proof.
  intros D Hl Hm Hc body N.
  pose proof (decodes_complete a unmarshal fields recs last m D Hl Hm) as C.
  fold body N in C.
  assert (HN : 0 <= N < countLimit a) by (unfold N, len in *; lia).
  split; [|split].
  - intros rest acc. rewrite app_assoc.
    rewrite (readSpans_complete a unmarshal _ _ _ C)
      by (rewrite !length_app; lia).
    reflexivity.
  - unfold ImportTraceFile.
    pose proof (batches_cons a unmarshal N _ (recs ++ [m]) [] []
                  HN C (batches_none a unmarshal)) as B.
    rewrite app_nil_r in B.
    destruct (recs ++ [m]) as [|r rs] eqn:E;
      [symmetry in E; now apply app_cons_not_nil in E|].
    pose proof (importBatches_complete a unmarshal UploadTraces _ _ B
                  (S (List.length (LittleEndian.PutUint32 N
                                   ++ body ++ frame last)))
                  1%nat [] uploaded) as I.
    rewrite app_nil_r in I. rewrite I by (simpl; lia). reflexivity.
  - unfold ImportTraceFile. cbn [importBatches].
    rewrite ReadFull_PutUint32, field_roundtrip
      by (pose proof (countLimit_le a); lia).
    rewrite makeslicePanics_small by exact HN.
    destruct (readSpans_fuel a unmarshal (S (List.length body))
                (S (List.length fields + List.length body)) N body [])
      as [-> _]; [lia|lia|].
    rewrite (decodes_short a unmarshal fields recs D)
      by (unfold N; lia).
    reflexivity.
Qed.

Lemma zero_length_frames_are_padding_witness :
  (forall rest acc,
     readSpans Arch64 Some
       (S (List.length
             (List.concat (map fieldBytes
                             [Padding; Framed [Byte.x2a]; Padding; Padding])
              ++ frame [Byte.x2b] ++ rest)))
       (len [[Byte.x2a]] + 1)
       (List.concat (map fieldBytes
                       [Padding; Framed [Byte.x2a]; Padding; Padding])
        ++ frame [Byte.x2b] ++ rest) acc
     = Done (acc ++ [[Byte.x2a]] ++ [[Byte.x2b]], rest))
  /\ ImportTraceFile Arch64 Some (fun _ => true)
       (fun _ => Some (LittleEndian.PutUint32 (len [[Byte.x2a]] + 1)
                       ++ List.concat
                            (map fieldBytes
                               [Padding; Framed [Byte.x2a]; Padding; Padding])
                       ++ frame [Byte.x2b]))
       "0000"%string []
     = (Done tt, [] ++ [[[Byte.x2a]] ++ [[Byte.x2b]]])
  /\ ImportTraceFile Arch64 Some (fun _ => true)
       (fun _ => Some (LittleEndian.PutUint32 (len [[Byte.x2a]] + 1)
                       ++ List.concat
                            (map fieldBytes
                               [Padding; Framed [Byte.x2a]; Padding; Padding])))
       "0000"%string []
     = (Failed (ErrSpanSize EOF), []).
Proof.
  apply (zero_length_frames_are_padding Arch64 Some (fun _ => true)
           "0000"%string [Padding; Framed [Byte.x2a]; Padding; Padding]
           [[Byte.x2a]] [Byte.x2b] [Byte.x2b] []).
  - apply decodes_padding. apply decodes_framed.
    + vm_compute. split; reflexivity.
    + reflexivity.
    + apply decodes_padding. apply decodes_padding. apply decodes_nil.
  - vm_compute. split; reflexivity.
  - reflexivity.
  - vm_compute. reflexivity.
Defined.



Example truncated_inside_count :
  ImportTraceFile Arch64 Some (fun _ => true)
    (fun _ => Some [Byte.x01; Byte.x00; Byte.x00; Byte.x00;
                    Byte.x01; Byte.x00; Byte.x00; Byte.x00; Byte.x2a;
                    Byte.x01; Byte.x00])
    "0000"%string []
  = (Failed (ErrSpanCount ErrUnexpectedEOF), [[[Byte.x2a]]]).
Proof. vm_compute. reflexivity. Qed.


Example truncated_before_length :
  ImportTraceFile Arch64 Some (fun _ => true)
    (fun _ => Some [Byte.x02; Byte.x00; Byte.x00; Byte.x00;
                    Byte.x01; Byte.x00; Byte.x00; Byte.x00; Byte.x2a])
    "0000"%string []
  = (Failed (ErrSpanSize EOF), []).
Proof. vm_compute. reflexivity. Qed.

Example padded_batch :
  ImportTraceFile Arch64 Some (fun _ => true)
    (fun _ => Some [Byte.x01; Byte.x00; Byte.x00; Byte.x00;
                    Byte.x00; Byte.x00; Byte.x00; Byte.x00;
                    Byte.x01; Byte.x00; Byte.x00; Byte.x00; Byte.x2a])
    "0000"%string []
  = (Done tt, [[[Byte.x2a]]]).
Proof. vm_compute. reflexivity. Qed.

(** ** Folder replay *)

Lemma hiddenName_spec fileName : hiddenName fileName = true <-> skippedName fileName.
Proof.
  unfold hiddenName, skippedName. split.
  - destruct fileName as [|c rest]; [now rewrite andb_false_r|].
    intros H. apply andb_true_iff in H as [Hl Hc].
    exists c, rest. split; [reflexivity|]. split.
    + destruct rest; [discriminate Hl | discriminate].
    + apply orb_true_iff in Hc as [Hc|Hc]; apply Ascii.eqb_eq in Hc; auto.
  - intros (c & rest & -> & Hr & Hc).
    apply andb_true_iff. split.
    + destruct rest; [congruence | reflexivity].
    + apply orb_true_iff. destruct Hc as [-> | ->]; [left|right]; apply Ascii.eqb_refl.
Qed.

Section FolderFacts.
Context {Msg : Type}.
Variable a : arch.
Variable unmarshal : list byte -> option Msg.
Variable UploadTraces : list Msg -> bool.
Variable fs : string -> option (list byte).

Lemma replayFiles_app before : forall after uploaded,
  replayFiles a unmarshal UploadTraces fs (before ++ after) uploaded
  = match replayFiles a unmarshal UploadTraces fs before uploaded with
    | (Done _, uploaded') => replayFiles a unmarshal UploadTraces fs after uploaded'
    | r => r
    end.
Proof.
  induction before as [|p before IH]; intros after uploaded; [reflexivity|].
  cbn [app replayFiles].
  destruct (ImportTraceFile a unmarshal UploadTraces fs p uploaded) as [[u|e|] up];
    [apply IH | reflexivity | reflexivity].
Qed.
End FolderFacts.

(** C8.  The loop over a directory listing replays, in the order of the
    listing, the entries that are not directories and whose name is not a
    skipped one; a name of one character is never skipped; and a file whose
    replay does not succeed ends the folder replay with that result, the
    entries after it untouched. *)
Theorem folder_replay_filtering {Msg : Type} (a : arch)
    (unmarshal : list byte -> option Msg) (UploadTraces : list Msg -> bool)
    (fs : string -> option (list byte)) (folderPath : string)
    (entries : list DirEntry) (uploaded : list (list Msg)) :
  ImportTraceFolder a unmarshal UploadTraces fs (fun _ => Some entries)
      folderPath uploaded
    = replayFiles a unmarshal UploadTraces fs
        (map (fun e => pathJoin folderPath (Name e)) (filter replayedEntry entries))
        uploaded
  /\ (forall e, replayedEntry e = true
                <-> IsDir e = false /\ ~ skippedName (Name e))
  /\ (forall c, ~ skippedName (String c EmptyString))
  /\ (forall before p after,
        replayFiles a unmarshal UploadTraces fs (before ++ p :: after) uploaded
        = match replayFiles a unmarshal UploadTraces fs before uploaded with
          | (Done _, uploaded1) =>
              match ImportTraceFile a unmarshal UploadTraces fs p uploaded1 with
              | (Done _, uploaded2) =>
                  replayFiles a unmarshal UploadTraces fs after uploaded2
              | failure => failure
              end
          | failure => failure
          end).
Proof.
  repeat split.
  - unfold ImportTraceFolder.
    revert uploaded. induction entries as [|e rest IH]; intros uploaded; [reflexivity|].
    cbn [importEntries filter]. unfold replayedEntry at 1.
    destruct (IsDir e); [apply IH|].
    destruct (hiddenName (Name e)); [apply IH|].
    cbn [negb andb map replayFiles].
    destruct (ImportTraceFile a unmarshal UploadTraces fs _ uploaded) as [[u|err|] up];
      [apply IH | reflexivity | reflexivity].
  - unfold replayedEntry in H. apply andb_true_iff in H as [H _].
    now destruct (IsDir e).
  - unfold replayedEntry in H. apply andb_true_iff in H as [_ H].
    intros S. apply hiddenName_spec in S. rewrite S in H. discriminate.
  - intros [Hd Hs]. unfold replayedEntry. rewrite Hd.
    destruct (hiddenName (Name e)) eqn:E; [|reflexivity].
    apply hiddenName_spec in E. contradiction.
  - intros c (c' & rest & [= -> <-] & Hr & _). congruence.
  - intros before p after. rewrite replayFiles_app. reflexivity.
Qed.

Example folder_replay_example :
  importEntries Arch64 Some (fun _ => true)
    (fun p => if (p =? "spool/_")%string
              then Some [Byte.x01; Byte.x00; Byte.x00; Byte.x00;
                         Byte.x01; Byte.x00; Byte.x00; Byte.x00; Byte.x2a]
              else if (p =? "spool/0000")%string
              then Some [Byte.x01; Byte.x00]
              else Some [])
    "spool"
    [ {| Name := "_index"; IsDir := false |};
      {| Name := "sub"; IsDir := true |};
      {| Name := "_"; IsDir := false |};
      {| Name := ".t"; IsDir := false |};
      {| Name := "0000"; IsDir := false |};
      {| Name := "000g"; IsDir := false |} ]
    []
  = (Failed (ErrSpanCount ErrUnexpectedEOF), [[[Byte.x2a]]]).
Proof. vm_compute. reflexivity. Qed.

(** ** The exporter *)

Lemma toInt_id a v :
  - 2 ^ (intBits a - 1) <= v < 2 ^ (intBits a - 1) -> toInt a v = v.
Proof.
  unfold toInt, wrapSigned. destruct a; cbn [intBits]; intros H.
  - change (2 ^ (32 - 1)) with (2 ^ 31) in *.
    rewrite Z.mod_small; lia.
  - change (2 ^ (64 - 1)) with (2 ^ 63) in *.
    rewrite Z.mod_small; lia.
Qed.

Lemma marshalSpans_nonempty {Msg : Type} (marshal : Msg -> option (list byte))
    (protoSpans : list Msg) :
  protoSpans <> [] -> (len protoSpans =? 0) = false.
Proof.
  intros H. destruct protoSpans; [congruence|].
  apply Z.eqb_neq. unfold len. simpl List.length. lia.
Qed.

(** After the rotation, [ExportSpans] writes the whole buffer to whatever
    file is open, without a look at its size, and books it. *)
Lemma ExportSpans_after_prepare {Msg : Type} (marshal : Msg -> option (list byte))
    a o x (protoSpans : list Msg) buf x1 ev1 fp :
  protoSpans <> [] ->
  marshalSpans marshal protoSpans = inr buf ->
  prepareOutputFp a o x (len buf) = (None, x1, ev1) ->
  outputFp x1 = Some fp ->
  ExportSpans marshal a o x protoSpans
  = (writeError (write_short o),
     set_written x1 (now_write o) (toInt a (currentSize x1 + len buf)),
     ev1 ++ [writeEvent fp buf (write_short o)]).
Proof.
  intros Hne Hm Hp Hfp. unfold ExportSpans.
  rewrite (marshalSpans_nonempty marshal) by assumption.
  rewrite Hm, Hp, Hfp. now destruct (write_short o).
Qed.

Lemma purgeLoop_write_short o w base expiredHourBase offsets :
  purgeLoop (with_write_short o w) base expiredHourBase offsets
  = purgeLoop o base expiredHourBase offsets.
Proof.
  induction offsets as [|off rest IH]; [reflexivity|].
  cbn [purgeLoop]. rewrite IH. reflexivity.
Qed.

Lemma prepareOutputFp_write_short a o w x recordSize :
  prepareOutputFp a (with_write_short o w) x recordSize
  = prepareOutputFp a o x recordSize.
Proof.
  unfold prepareOutputFp, rotateOutput.
  cbn [with_write_short now_prepare].
  change (closeOutputFile (with_write_short o w) x) with (closeOutputFile o x).
  destruct (closeOutputFile o x) as [[err0 x1] ev1].
  change (closeOutputFolder (with_write_short o w) x1) with (closeOutputFolder o x1).
  change (prepareOutputFolder (with_write_short o w) x1) with (prepareOutputFolder o x1).
  destruct (_ =? _).
  - destruct (_ && _); [reflexivity|].
    destruct err0; [reflexivity|].
    destruct (_ =? _)%string; [|reflexivity].
    destruct (prepareOutputFolder o x1 _) as [[err2 x2] ev2].
    destruct err2; reflexivity.
  - destruct (closeOutputFolder o x1) as [err1 ev2].
    destruct (joinErrors _ _); [reflexivity|].
    destruct (prepareOutputFolder o x1 _) as [[err2 x2] ev3].
    destruct err2; [reflexivity|].
    unfold purgeRecentExpiredOutputFolders.
    cbn [with_write_short now_purge]. rewrite purgeLoop_write_short.
    reflexivity.
Qed.

(** C9.  When a file is open after the rotation and the write of the
    encoded buffer fails, [ExportSpans] returns the wrapped write error, and
    the exporter is left exactly as after a successful write: the size
    counter has grown by the whole length of the buffer and the time of the
    last write is the current time. *)
Theorem failed_write_still_updates_state {Msg : Type}
    (marshal : Msg -> option (list byte)) (a : arch) (o : os_outcome)
    (x x1 : FilesTraceExporter) (protoSpans : list Msg) (buf : list byte)
    (ev1 : list fs_event) (fp : string) (n : nat) :
  protoSpans <> [] ->
  marshalSpans marshal protoSpans = inr buf ->
  prepareOutputFp a o x (len buf) = (None, x1, ev1) ->
  outputFp x1 = Some fp ->
  0 <= currentSize x1 ->
  currentSize x1 + len buf < 2 ^ (intBits a - 1) ->
  let '(err, x', evs) :=
    ExportSpans marshal a (with_write_short o (Some n)) x protoSpans in
  let '(err_ok, x_ok, _) :=
    ExportSpans marshal a (with_write_short o None) x protoSpans in
  err = Some (Wrap "cannot write spans to output file" (Os ErrWriteFp))
  /\ err_ok = None
  /\ x' = x_ok
  /\ currentSize x' = currentSize x1 + len buf
  /\ outputLastWriteAt x' = now_write o
  /\ evs = ev1 ++ [EvWrite fp (firstn n buf) false].
Proof.
  intros Hne Hm Hp Hfp H0 H1.
  rewrite (ExportSpans_after_prepare marshal a (with_write_short o (Some n))
             x protoSpans buf x1 ev1 fp)
    by (try rewrite prepareOutputFp_write_short; assumption).
  rewrite (ExportSpans_after_prepare marshal a (with_write_short o None)
             x protoSpans buf x1 ev1 fp)
    by (try rewrite prepareOutputFp_write_short; assumption).
  cbn [writeError writeEvent with_write_short write_short now_write].
  repeat split.
  cbn [set_written currentSize]. apply toInt_id.
  assert (0 <= len buf) by (unfold len; lia).
  assert (0 < 2 ^ (intBits a - 1)) by (destruct a; simpl; lia). lia.
Qed.

Lemma failed_write_still_updates_state_witness :
  let '(err, x', evs) :=
    ExportSpans Some Arch64 (with_write_short (calm sampleNow) (Some 3%nat))
      (sampleOpen 0 500) sampleSpans in
  let '(err_ok, x_ok, _) :=
    ExportSpans Some Arch64 (with_write_short (calm sampleNow) None)
      (sampleOpen 0 500) sampleSpans in
  err = Some (Wrap "cannot write spans to output file" (Os ErrWriteFp))
  /\ err_ok = None
  /\ x' = x_ok
  /\ currentSize x' = currentSize (sampleOpen 0 500)
                     + len [Byte.x01; Byte.x00; Byte.x00; Byte.x00;
                            Byte.x01; Byte.x00; Byte.x00; Byte.x00; Byte.x2a]
  /\ outputLastWriteAt x' = now_write (calm sampleNow)
  /\ evs = [] ++ [EvWrite "spool/0ssgg/0000"
                    (firstn 3 [Byte.x01; Byte.x00; Byte.x00; Byte.x00;
                               Byte.x01; Byte.x00; Byte.x00; Byte.x00; Byte.x2a])
                    false].
Proof.
  apply (failed_write_still_updates_state Some Arch64 (calm sampleNow)
           (sampleOpen 0 500) (sampleOpen 0 500) sampleSpans
           [Byte.x01; Byte.x00; Byte.x00; Byte.x00;
            Byte.x01; Byte.x00; Byte.x00; Byte.x00; Byte.x2a]
           [] "spool/0ssgg/0000" 3%nat).
  - discriminate.
  - vm_compute. reflexivity.
  - vm_compute. reflexivity.
  - vm_compute. reflexivity.
  - vm_compute. discriminate.
  - vm_compute. reflexivity.
Defined.

(** ** Rotation *)

Ltac split_if :=
  match goal with
  | |- context [if ?b then _ else _] =>
      lazymatch b with
      | context [if _ then _ else _] => fail
      | _ => destruct b eqn:?
      end
  end.

(** What [closeOutputFile] leaves: no open file, the configuration and the
    folder untouched, and no system call on a segment file or a folder. *)
Lemma closeOutputFile_post o x err x1 ev :
  closeOutputFile o x = (err, x1, ev) ->
  outputFp x1 = None /\ cfg x1 = cfg x
  /\ outputFolderPath x1 = outputFolderPath x
  /\ ((x1 = x /\ outputFp x = None) \/ currentSize x1 = 0)
  /\ filter isSegmentIO ev = [] /\ filter isRemoveAll ev = [].
Proof.
  unfold closeOutputFile, appendIndexRecord.
  destruct (outputFp x) as [fp|] eqn:Efp.
  - destruct (index_open_ok o); [destruct (index_write_ok o)|];
      intros [= <- <- <-]; cbn; auto 10.
  - intros [= <- <- <-]. auto 10.
Qed.

Lemma closeOutputFolder_post o x err ev :
  closeOutputFolder o x = (err, ev) ->
  filter isSegmentIO ev = [] /\ filter isRemoveAll ev = [].
Proof.
  unfold closeOutputFolder, writeTimestampFile.
  destruct (_ =? _)%string; [|destruct (timestamp_ok o)];
    intros [= <- <-]; auto.
Qed.

Lemma prepareOutputFolder_post o x h err x1 ev :
  prepareOutputFolder o x h = (err, x1, ev) ->
  outputFp x1 = outputFp x /\ cfg x1 = cfg x /\ currentSize x1 = currentSize x
  /\ filter isSegmentIO ev = [] /\ filter isRemoveAll ev = [].
Proof.
  unfold prepareOutputFolder. destruct (mkdir_ok o); intros [= <- <- <-]; auto.
Qed.

Lemma purgeLoop_events o base eb offsets :
  filter isSegmentIO (snd (purgeLoop o base eb offsets)) = [].
Proof.
  induction offsets as [|off rest IH]; [reflexivity|].
  cbn [purgeLoop]. destruct (_ <? 0); [reflexivity|].
  destruct (purgeLoop o base eb rest) as [errS evs]. exact IH.
Qed.

Lemma purge_events o x :
  filter isSegmentIO (snd (purgeRecentExpiredOutputFolders o x)) = [].
Proof.
  unfold purgeRecentExpiredOutputFolders.
  destruct (_ <? 1); [reflexivity|].
  pose proof (purgeLoop_events o (baseFolderPath (cfg x))
                (expiredHourBaseOf (now_purge o) (retainHours (cfg x)))
                (map Z.of_nat (seq 0 (Z.to_nat purgeRangeCount)))) as P.
  destruct (purgeLoop _ _ _ _) as [errS evs]. exact P.
Qed.

(** When the rotation falls through to the opening of a file, no file is
    open, the size counter is zero or untouched, and no segment file has
    been created or written. *)
Lemma rotateOutput_fall_through a o x recordSize x1 ev1 :
  rotateOutput a o x recordSize = inr (x1, ev1) ->
  outputFp x1 = None
  /\ ((currentSize x1 = currentSize x /\ outputFp x = None) \/ currentSize x1 = 0)
  /\ filter isSegmentIO ev1 = [].
Proof.
  unfold rotateOutput.
  destruct (closeOutputFile o x) as [[err0 x0] ev0] eqn:E0.
  apply closeOutputFile_post in E0 as (F0 & C0 & P0 & S0 & I0 & _).
  assert (S0' : (currentSize x0 = currentSize x /\ outputFp x = None)
                \/ currentSize x0 = 0)
    by (destruct S0 as [[-> ?]|]; auto).
  destruct (_ =? _).
  - destruct (_ && _); [discriminate|].
    destruct err0; [discriminate|].
    destruct (_ =? _)%string.
    + destruct (prepareOutputFolder o x0 _) as [[err2 x2] ev2] eqn:E2.
      apply prepareOutputFolder_post in E2 as (F2 & C2 & S2 & I2 & _).
      destruct err2; [discriminate|]. intros [= <- <-].
      rewrite filter_app, I0, I2, F2, S2. auto.
    + intros [= <- <-]. auto.
  - destruct (closeOutputFolder o x0) as [err1 ev1'] eqn:E1.
    apply closeOutputFolder_post in E1 as (I1 & _).
    destruct (joinErrors _ _); [discriminate|].
    destruct (prepareOutputFolder o x0 _) as [[err2 x2] ev2] eqn:E2.
    apply prepareOutputFolder_post in E2 as (F2 & C2 & S2 & I2 & _).
    destruct err2; [discriminate|].
    pose proof (purge_events o x2) as I3.
    destruct (purgeRecentExpiredOutputFolders o x2) as [err3 ev3].
    cbn [snd] in I3.
    intros [= <- <-]. rewrite !filter_app, I0, I1, I2, I3, F2, S2. auto.
Qed.

(** When the rotation returns early, either the open file is kept as it is,
    or no file is open any more. *)
Lemma rotateOutput_return a o x recordSize err x1 ev1 :
  rotateOutput a o x recordSize = inl (err, x1, ev1) ->
  (err = None /\ x1 = x /\ currentSize x <> 0)
  \/ (outputFp x1 = None
      /\ ((currentSize x1 = currentSize x /\ outputFp x = None)
          \/ currentSize x1 = 0)).
Proof.
  unfold rotateOutput.
  destruct (closeOutputFile o x) as [[err0 x0] ev0] eqn:E0.
  apply closeOutputFile_post in E0 as (F0 & C0 & P0 & S0 & I0 & _).
  assert (S0' : (currentSize x0 = currentSize x /\ outputFp x = None)
                \/ currentSize x0 = 0)
    by (destruct S0 as [[-> ?]|]; auto).
  destruct (_ =? _).
  - destruct (Z.eqb_spec (currentSize x) 0) as [Ez|Ez]; cbn [negb andb].
    + destruct err0; [intros [= <- <- <-]; auto|].
      destruct (_ =? _)%string; [|discriminate].
      destruct (prepareOutputFolder o x0 _) as [[err2 x2] ev2] eqn:E2.
      apply prepareOutputFolder_post in E2 as (F2 & C2 & S2 & I2 & _).
      destruct err2; [|discriminate]. intros [= <- <- <-].
      right. rewrite F2, S2. auto.
    + destruct (_ <=? _); [intros [= <- <- <-]; auto|].
      destruct err0; [intros [= <- <- <-]; auto|].
      destruct (_ =? _)%string; [|discriminate].
      destruct (prepareOutputFolder o x0 _) as [[err2 x2] ev2] eqn:E2.
      apply prepareOutputFolder_post in E2 as (F2 & C2 & S2 & I2 & _).
      destruct err2; [|discriminate]. intros [= <- <- <-].
      right. rewrite F2, S2. auto.
  - destruct (closeOutputFolder o x0) as [err1 ev1'] eqn:E1.
    destruct (joinErrors _ _); [intros [= <- <- <-]; auto|].
    destruct (prepareOutputFolder o x0 _) as [[err2 x2] ev2] eqn:E2.
    apply prepareOutputFolder_post in E2 as (F2 & C2 & S2 & I2 & _).
    destruct err2.
    + intros [= <- <- <-]. right. rewrite F2, S2. auto.
    + destruct (purgeRecentExpiredOutputFolders o x2); discriminate.
Qed.

(** C6.  When the rotation has gone through and the serial number that the
    next file would get is above [0x7FFFFFFD], no segment file is created,
    nothing is written to one, and [ExportSpans] returns no error: the
    batch is dropped. *)
Theorem serial_exhaustion_drops_write {Msg : Type}
    (marshal : Msg -> option (list byte)) (a : arch) (o : os_outcome)
    (x x1 : FilesTraceExporter) (protoSpans : list Msg) (buf : list byte)
    (ev1 : list fs_event) :
  protoSpans <> [] ->
  marshalSpans marshal protoSpans = inr buf ->
  rotateOutput a o x (len buf) = inr (x1, ev1) ->
  outputSn x1 > outputSnBoundary ->
  ExportSpans marshal a o x protoSpans = (None, x1, ev1)
  /\ outputFp x1 = None
  /\ filter isSegmentIO ev1 = [].
Proof.
  intros Hne Hm Hr Hsn.
  destruct (rotateOutput_fall_through _ _ _ _ _ _ Hr) as (Hfp & _ & Hev).
  repeat split; try assumption.
  unfold ExportSpans. rewrite (marshalSpans_nonempty marshal) by assumption.
  rewrite Hm. unfold prepareOutputFp. rewrite Hr. unfold openOutputFile.
  destruct (Z.gtb_spec (outputSn x1) outputSnBoundary); [|lia].
  rewrite app_nil_r, Hfp. reflexivity.
Qed.

Lemma serial_exhaustion_drops_write_witness :
  ExportSpans Some Arch64 (calm sampleNow) (sampleOpen 0x7FFFFFFD 1020) sampleSpans
  = (None, set_outputSn (set_closed (sampleOpen 0x7FFFFFFD 1020)) 0x7FFFFFFE,
     [EvClose "spool/0ssgg/fvvvvv8" true;
      EvOpenIndex "spool/0ssgg/_index" true;
      EvIndexWrite "spool/0ssgg/_index" "fvvvvv8" (sampleNow - 60) (sampleNow - 30) true])
  /\ outputFp (set_outputSn (set_closed (sampleOpen 0x7FFFFFFD 1020)) 0x7FFFFFFE)
     = None
  /\ filter isSegmentIO
       [EvClose "spool/0ssgg/fvvvvv8" true;
        EvOpenIndex "spool/0ssgg/_index" true;
        EvIndexWrite "spool/0ssgg/_index" "fvvvvv8" (sampleNow - 60) (sampleNow - 30) true]
     = [].
Proof.
  apply (serial_exhaustion_drops_write Some Arch64 (calm sampleNow)
           (sampleOpen 0x7FFFFFFD 1020)
           (set_outputSn (set_closed (sampleOpen 0x7FFFFFFD 1020)) 0x7FFFFFFE)
           sampleSpans
           [Byte.x01; Byte.x00; Byte.x00; Byte.x00;
            Byte.x01; Byte.x00; Byte.x00; Byte.x00; Byte.x2a]).
  - discriminate.
  - vm_compute. reflexivity.
  - vm_compute. reflexivity.
  - vm_compute. reflexivity.
Defined.

Example serial_exhausted_idle :
  ExportSpans Some Arch64 (calm sampleNow) (sampleIdle 0x7FFFFFFE) sampleSpans
  = (None, sampleIdle 0x7FFFFFFE, []).
Proof. vm_compute. reflexivity. Qed.

(** ** Retention purge *)

Lemma toInt32_range v : - 2 ^ 31 <= toInt32 v < 2 ^ 31.
Proof.
  unfold toInt32, wrapSigned. change (2 ^ (32 - 1)) with (2 ^ 31).
  pose proof (Z.mod_pos_bound (v + 2 ^ 31) (2 ^ 32)). lia.
Qed.

Lemma toInt32_id v : - 2 ^ 31 <= v < 2 ^ 31 -> toInt32 v = v.
Proof.
  intros H. unfold toInt32, wrapSigned. change (2 ^ (32 - 1)) with (2 ^ 31).
  rewrite Z.mod_small; lia.
Qed.

Lemma expiredHourBaseOf_nowrap now R :
  0 <= now < 2 ^ 31 * 3600 -> 0 <= R <= MaxRetainHours ->
  expiredHourBaseOf now R = now / 3600 - R - 1.
Proof.
  unfold expiredHourBaseOf, MaxRetainHours. intros Hn HR.
  rewrite Z.quot_div_nonneg by lia.
  assert (0 <= now / 3600 < 2 ^ 31)
    by (split; [apply Z.div_pos; lia | apply Z.div_lt_upper_bound; lia]).
  rewrite (toInt32_id (now / 3600)) by lia.
  rewrite (toInt32_id (now / 3600 - R)) by lia.
  apply toInt32_id. lia.
Qed.

(** The retention window of a configuration built with [WithRetainHours]
    is within the bounds the purge is stated for. *)
Lemma WithRetainHours_range r c :
  0 <= retainHours (WithRetainHours r c) <= MaxRetainHours.
Proof.
  unfold WithRetainHours, MaxRetainHours. cbn [retainHours].
  destruct (Z.ltb_spec r 0); [lia|].
  destruct (Z.gtb_spec r (24 * 365)); lia.
Qed.

(** The system calls of the purge: none, one or two removals. *)
Lemma purge_removals o x :
  let R := retainHours (cfg x) in
  let eb := expiredHourBaseOf (now_purge o) R in
  let base := baseFolderPath (cfg x) in
  snd (purgeRecentExpiredOutputFolders o x)
  = if (R <? 1) || (eb <? 0) then []
    else if eb - 1 <? 0 then [removal o base eb 0]
    else [removal o base eb 0; removal o base (eb - 1) 1].
Proof.
  cbv zeta. unfold purgeRecentExpiredOutputFolders, removal.
  destruct (Z.ltb_spec (retainHours (cfg x)) 1); [reflexivity|].
  change (map Z.of_nat (seq 0 (Z.to_nat purgeRangeCount))) with [0; 1].
  cbn [orb purgeLoop].
  set (eb := expiredHourBaseOf (now_purge o) (retainHours (cfg x))).
  assert (Hr : - 2 ^ 31 <= eb < 2 ^ 31) by apply toInt32_range.
  change (toInt32 0) with 0. change (toInt32 1) with 1.
  rewrite Z.sub_0_r, (toInt32_id eb) by assumption.
  destruct (Z.ltb_spec eb 0); [reflexivity|].
  rewrite (toInt32_id (eb - 1)) by lia.
  destruct (Z.ltb_spec (eb - 1) 0); reflexivity.
Qed.

Lemma purge_ignores_state o x x' :
  cfg x' = cfg x ->
  purgeRecentExpiredOutputFolders o x' = purgeRecentExpiredOutputFolders o x.
Proof. unfold purgeRecentExpiredOutputFolders. now intros ->. Qed.

(** On a change of folder that goes through, the removals among the system
    calls are those of the purge. *)
Lemma rotateOutput_removals a o x recordSize x2 evs :
  hourBucket (now_prepare o) <> outputHour x ->
  rotateOutput a o x recordSize = inr (x2, evs) ->
  filter isRemoveAll evs
  = filter isRemoveAll (snd (purgeRecentExpiredOutputFolders o x)).
Proof.
  intros Hh. apply Z.eqb_neq in Hh. unfold rotateOutput. rewrite Hh.
  destruct (closeOutputFile o x) as [[err0 x1] ev1] eqn:E0.
  apply closeOutputFile_post in E0 as (_ & C0 & _ & _ & _ & R0).
  destruct (closeOutputFolder o x1) as [err1 ev2] eqn:E1.
  apply closeOutputFolder_post in E1 as (_ & R1).
  destruct (joinErrors _ _); [discriminate|].
  destruct (prepareOutputFolder o x1 _) as [[err2 x2'] ev3] eqn:E2.
  apply prepareOutputFolder_post in E2 as (_ & C2 & _ & _ & R2).
  destruct err2; [discriminate|].
  rewrite (purge_ignores_state o x x2') by congruence.
  destruct (purgeRecentExpiredOutputFolders o x) as [errp ev4].
  intros [= <- <-]. rewrite !filter_app, R0, R1, R2. reflexivity.
Qed.

Lemma prepareOutputFp_remove_ok a o f x recordSize :
  fst (prepareOutputFp a (with_remove_ok o f) x recordSize)
  = fst (prepareOutputFp a o x recordSize).
Proof.
  unfold prepareOutputFp, rotateOutput.
  cbn [with_remove_ok now_prepare].
  change (closeOutputFile (with_remove_ok o f) x) with (closeOutputFile o x).
  destruct (closeOutputFile o x) as [[err0 x1] ev1].
  change (closeOutputFolder (with_remove_ok o f) x1) with (closeOutputFolder o x1).
  change (prepareOutputFolder (with_remove_ok o f) x1) with (prepareOutputFolder o x1).
  destruct (_ =? _).
  - destruct (_ && _); [reflexivity|].
    destruct err0; [reflexivity|].
    destruct (_ =? _)%string.
    + destruct (prepareOutputFolder o x1 _) as [[err2 x2] ev2].
      destruct err2; [reflexivity|].
      change (openOutputFile (with_remove_ok o f) x2) with (openOutputFile o x2).
      now destruct (openOutputFile o x2) as [[err3 x3] ev3].
    + change (openOutputFile (with_remove_ok o f) x1) with (openOutputFile o x1).
      now destruct (openOutputFile o x1) as [[err3 x3] ev3].
  - destruct (closeOutputFolder o x1) as [err1 ev2].
    destruct (joinErrors _ _); [reflexivity|].
    destruct (prepareOutputFolder o x1 _) as [[err2 x2] ev3].
    destruct err2; [reflexivity|].
    destruct (purgeRecentExpiredOutputFolders (with_remove_ok o f) x2) as [e4 ev4].
    destruct (purgeRecentExpiredOutputFolders o x2) as [e4' ev4'].
    change (openOutputFile (with_remove_ok o f) x2) with (openOutputFile o x2).
    now destruct (openOutputFile o x2) as [[err3 x3] ev5].
Qed.

(** C7.  On a change of folder that goes through, with the clock and the
    retention window in their ranges: the folders that the call tries to
    remove are those of the hours [expiredBase = currentHour - R - 1] and
    [expiredBase - 1], masked to 24 bits, in this order, up to the first of
    them that is negative; none at all when [R < 1]; at most two; and
    whether the removals fail changes neither the error nor the exporter
    that the rotation returns. *)
Theorem purge_bound (a : arch) (o : os_outcome) (x x2 : FilesTraceExporter)
    (recordSize : Z) (evs : list fs_event) :
  0 <= now_purge o < 2 ^ 31 * 3600 ->
  0 <= retainHours (cfg x) <= MaxRetainHours ->
  hourBucket (now_prepare o) <> outputHour x ->
  rotateOutput a o x recordSize = inr (x2, evs) ->
  let R := retainHours (cfg x) in
  let expiredBase := now_purge o / 3600 - R - 1 in
  let base := baseFolderPath (cfg x) in
  let removals :=
    if (R <? 1) || (expiredBase <? 0) then []
    else if expiredBase - 1 <? 0 then [removal o base expiredBase 0]
    else [removal o base expiredBase 0; removal o base (expiredBase - 1) 1] in
  filter isRemoveAll evs = removals
  /\ snd (purgeRecentExpiredOutputFolders o x) = removals
  /\ (List.length removals <= 2)%nat
  /\ (forall f, fst (prepareOutputFp a (with_remove_ok o f) x recordSize)
                = fst (prepareOutputFp a o x recordSize)).
Proof.
  intros Hn HR Hh Hr. cbv zeta.
  pose proof (purge_removals o x) as P. cbv zeta in P.
  rewrite expiredHourBaseOf_nowrap in P by assumption.
  repeat split.
  - rewrite (rotateOutput_removals a o x recordSize x2 evs) by assumption.
    rewrite P. repeat split_if; reflexivity.
  - exact P.
  - repeat split_if; simpl; lia.
  - intros f. apply prepareOutputFp_remove_ok.
Qed.

Lemma purge_bound_witness :
  let o := calm (sampleNow + 3600) in
  let x := sampleOpen 3 1020 in
  let R := retainHours (cfg x) in
  let expiredBase := now_purge o / 3600 - R - 1 in
  let base := baseFolderPath (cfg x) in
  let removals :=
    if (R <? 1) || (expiredBase <? 0) then []
    else if expiredBase - 1 <? 0 then [removal o base expiredBase 0]
    else [removal o base expiredBase 0; removal o base (expiredBase - 1) 1] in
  filter isRemoveAll
    [EvClose "spool/0ssgg/001g" true;
     EvOpenIndex "spool/0ssgg/_index" true;
     EvIndexWrite "spool/0ssgg/_index" "001g" 1704067140 1704067170 true;
     EvWriteFile "spool/0ssgg/_t" 1704070800 true;
     EvMkdirAll "spool/0ssgi" true; EvRemoveAll "spool/0ssg0" true;
     EvRemoveAll "spool/0ssfu" true] = removals
  /\ snd (purgeRecentExpiredOutputFolders o x) = removals
  /\ (List.length removals <= 2)%nat
  /\ (forall f, fst (prepareOutputFp Arch64 (with_remove_ok o f) x 9)
                = fst (prepareOutputFp Arch64 o x 9)).
Proof.
  apply (purge_bound Arch64 (calm (sampleNow + 3600)) (sampleOpen 3 1020)
           (set_folder (set_outputSn (set_closed (sampleOpen 3 1020)) 4)
              "spool/0ssgi" "spool/0ssgi/_index" 473353 0)
           9).
  - vm_compute. split; [discriminate | reflexivity].
  - vm_compute. split; discriminate.
  - vm_compute. discriminate.
  - vm_compute. reflexivity.
Defined.

Example purge_disabled :
  snd (purgeRecentExpiredOutputFolders (calm sampleNow)
         (newExporter (WithRetainHours 0 sampleConfig))) = [].
Proof. reflexivity. Qed.

Example purge_near_epoch :
  snd (purgeRecentExpiredOutputFolders (calm (9 * 3600 + 5)) (newExporter sampleConfig))
  = [EvRemoveAll "spool/00000" true].
Proof. vm_compute. reflexivity. Qed.

(** ** The stay-open rule *)

Lemma rotateOutput_stay a o x recordSize :
  hourBucket (now_prepare o) = outputHour x ->
  currentSize x <> 0 ->
  toInt a (currentSize x + recordSize) <= fileSizeLimit (cfg x) ->
  rotateOutput a o x recordSize = inl (None, x, []).
Proof.
  intros Hh Hs Hl. unfold rotateOutput. rewrite Hh, Z.eqb_refl.
  destruct (Z.eqb_spec (currentSize x) 0); [contradiction|].
  destruct (Z.leb_spec (toInt a (currentSize x + recordSize)) (fileSizeLimit (cfg x)));
    [reflexivity|lia].
Qed.

(** C2.  A write of encoded size [S] arrives in the current hour bucket,
    in a state as the calls leave it: a file that is open holds bytes, and
    the size counter is zero exactly when the file of the current serial
    number is not open yet ([sizeInvariant], which the lemmas below show to
    be kept by every call).  If [size = 0] or [size + S <= fileSizeLimit],
    the write lands in the file of the current serial number with no file
    close, no index record and no serial increment.  With a file open the
    write is the only system call.  With [size = 0] the file of the current
    serial number is created, empty, and the batch is written to it
    whatever [S] is, also when [S] alone exceeds the limit. *)
Theorem stay_open_rule {Msg : Type} (marshal : Msg -> option (list byte))
    (a : arch) (o : os_outcome) (x : FilesTraceExporter)
    (protoSpans : list Msg) (buf : list byte) :
  protoSpans <> [] ->
  marshalSpans marshal protoSpans = inr buf ->
  sizeInvariant x ->
  hourBucket (now_prepare o) = outputHour x ->
  fileSizeLimit (cfg x) < 2 ^ (intBits a - 1) ->
  len buf < 2 ^ (intBits a - 1) ->
  currentSize x = 0 \/ currentSize x + len buf <= fileSizeLimit (cfg x) ->
  (forall fp, outputFp x = Some fp ->
     ExportSpans marshal a o x protoSpans
     = (writeError (write_short o),
        set_written x (now_write o) (currentSize x + len buf),
        [writeEvent fp buf (write_short o)]))
  /\ (outputFp x = None ->
      outputFolderPath x <> ""%string -> outputSn x <= outputSnBoundary ->
      create_ok o = true ->
      let name := makeOutputFileName (outputSn x) in
      let fp' := pathJoin (outputFolderPath x) name in
      ExportSpans marshal a o x protoSpans
      = (writeError (write_short o),
         set_written (set_opened x name fp' (now_open o)) (now_write o) (len buf),
         [EvCreate fp' true; writeEvent fp' buf (write_short o)])).
Proof.
  intros Hne Hm Hinv Hh Hlim Hbuf Hguard.
  assert (Hb : 0 <= len buf) by (unfold len; lia).
  unfold sizeInvariant in Hinv. split.
  - intros fp Hfp. rewrite Hfp in Hinv.
    assert (Hfit : currentSize x + len buf <= fileSizeLimit (cfg x))
      by (destruct Hguard; [lia|assumption]).
    assert (Ht : toInt a (currentSize x + len buf) = currentSize x + len buf)
      by (apply toInt_id; lia).
    rewrite (ExportSpans_after_prepare marshal a o x protoSpans buf x [] fp);
      try assumption.
    + now rewrite Ht.
    + unfold prepareOutputFp.
      rewrite rotateOutput_stay; [reflexivity|assumption|lia|].
      now rewrite Ht.
  - intros Hfp Hfolder Hsn Hcr. cbv zeta. rewrite Hfp in Hinv.
    apply String.eqb_neq in Hfolder.
    assert (Ht : toInt a (0 + len buf) = len buf)
      by (apply toInt_id;
          assert (0 < 2 ^ (intBits a - 1)) by (destruct a; simpl; lia); lia).
    rewrite (ExportSpans_after_prepare marshal a o x protoSpans buf
               (set_opened x (makeOutputFileName (outputSn x))
                  (pathJoin (outputFolderPath x) (makeOutputFileName (outputSn x)))
                  (now_open o))
               [EvCreate (pathJoin (outputFolderPath x)
                            (makeOutputFileName (outputSn x))) true]
               (pathJoin (outputFolderPath x) (makeOutputFileName (outputSn x))));
      try assumption; try reflexivity.
    + cbn [set_opened currentSize]. now rewrite Hinv, Ht.
    + unfold prepareOutputFp, rotateOutput. rewrite Hh, Z.eqb_refl, Hinv.
      cbn [Z.eqb negb andb].
      unfold closeOutputFile. rewrite Hfp, Hfolder.
      unfold openOutputFile.
      destruct (Z.gtb_spec (outputSn x) outputSnBoundary); [lia|].
      rewrite Hcr. reflexivity.
Qed.

Lemma stay_open_rule_witness :
  ExportSpans Some Arch64 (calm sampleNow) (sampleOpen 0 500) sampleSpans
  = (None, set_written (sampleOpen 0 500) sampleNow 509,
     [EvWrite "spool/0ssgg/0000"
        [Byte.x01; Byte.x00; Byte.x00; Byte.x00;
         Byte.x01; Byte.x00; Byte.x00; Byte.x00; Byte.x2a] true])
  /\ ExportSpans Some Arch64 (calm sampleNow) (sampleIdle 3) sampleSpans
     = (None,
        set_written
          (set_opened (sampleIdle 3) "001g" "spool/0ssgg/001g" sampleNow)
          sampleNow 9,
        [EvCreate "spool/0ssgg/001g" true;
         EvWrite "spool/0ssgg/001g"
           [Byte.x01; Byte.x00; Byte.x00; Byte.x00;
            Byte.x01; Byte.x00; Byte.x00; Byte.x00; Byte.x2a] true]).
Proof.
  split.
  - apply (proj1 (stay_open_rule Some Arch64 (calm sampleNow) (sampleOpen 0 500)
                    sampleSpans
                    [Byte.x01; Byte.x00; Byte.x00; Byte.x00;
                     Byte.x01; Byte.x00; Byte.x00; Byte.x00; Byte.x2a]
                    ltac:(discriminate) eq_refl
                    ltac:(vm_compute; reflexivity) eq_refl eq_refl eq_refl
                    ltac:(right; vm_compute; discriminate))
                 "spool/0ssgg/0000"%string eq_refl).
  - apply (proj2 (stay_open_rule Some Arch64 (calm sampleNow) (sampleIdle 3)
                    sampleSpans
                    [Byte.x01; Byte.x00; Byte.x00; Byte.x00;
                     Byte.x01; Byte.x00; Byte.x00; Byte.x00; Byte.x2a]
                    ltac:(discriminate) eq_refl
                    ltac:(vm_compute; reflexivity) eq_refl eq_refl eq_refl
                    ltac:(left; reflexivity))
                 eq_refl ltac:(discriminate) ltac:(vm_compute; discriminate)
                 eq_refl).
Defined.

(** The limit does not hold back the first batch of a file: a batch larger
    than the limit goes whole to the file that is created for it. *)
Example oversized_first_batch :
  let c := {| baseFolderPath := "spool"; retainHours := 0; fileSizeLimit := 4 |} in
  snd (ExportSpans Some Arch64 (calm sampleNow) (newExporter c) sampleSpans)
  = [EvMkdirAll "spool/0ssgg" true;
     EvCreate "spool/0ssgg/0000" true;
     EvWrite "spool/0ssgg/0000"
       [Byte.x01; Byte.x00; Byte.x00; Byte.x00;
        Byte.x01; Byte.x00; Byte.x00; Byte.x00; Byte.x2a] true].
Proof. vm_compute. reflexivity. Qed.

(** ** An open file is never empty between two calls *)

Lemma marshalLoop_length {Msg : Type} (marshal : Msg -> option (list byte))
    protoSpans : forall pbIdx buf buf',
  marshalLoop marshal pbIdx protoSpans buf = inr buf' ->
  (List.length buf <= List.length buf')%nat.
Proof.
  induction protoSpans as [|m rest IH]; intros pbIdx buf buf'; cbn [marshalLoop].
  - intros [= <-]. lia.
  - destruct (marshal m) as [bs|]; [|discriminate].
    rewrite putUint32At_reserved. intros E. apply IH in E.
    rewrite !length_app in E. lia.
Qed.

Lemma marshalSpans_length {Msg : Type} (marshal : Msg -> option (list byte))
    protoSpans buf :
  protoSpans <> [] -> marshalSpans marshal protoSpans = inr buf -> 4 <= len buf.
Proof.
  intros Hne. unfold marshalSpans.
  rewrite (marshalSpans_nonempty marshal) by assumption.
  intros E. apply marshalLoop_length in E.
  rewrite length_PutUint32 in E. unfold len. lia.
Qed.

Lemma prepareOutputFp_size a o x recordSize err x1 ev1 :
  sizeInvariant x ->
  prepareOutputFp a o x recordSize = (err, x1, ev1) ->
  match outputFp x1 with
  | None => currentSize x1 = 0
  | Some _ => err = None /\ 0 <= currentSize x1 <= currentSize x
  end.
Proof.
  unfold sizeInvariant, prepareOutputFp. intros Hx.
  destruct (rotateOutput a o x recordSize) as [[[err' x'] ev']|[x' ev']] eqn:Er.
  - intros [= <- <- <-]. apply rotateOutput_return in Er.
    destruct Er as [(-> & -> & Hs)|(F & S)].
    + destruct (outputFp x); [split; [reflexivity|lia]|contradiction].
    + rewrite F. destruct S as [[S Fx]|S]; [|exact S].
      rewrite Fx in Hx. congruence.
  - apply rotateOutput_fall_through in Er as (F & S & _).
    assert (S0 : currentSize x' = 0).
    { destruct S as [[S Fx]|S]; [|exact S]. rewrite Fx in Hx. congruence. }
    unfold openOutputFile.
    destruct (_ >? _); [intros [= <- <- <-]; now rewrite F|].
    destruct (create_ok o); intros [= <- <- <-].
    + cbn [set_opened outputFp currentSize]. rewrite S0.
      split; [reflexivity|]. destruct (outputFp x); lia.
    + now rewrite F.
Qed.

(** The invariant holds at the start and is kept by every export that does
    not overflow the size counter, and by [Shutdown]. *)
Lemma sizeInvariant_newExporter c : sizeInvariant (newExporter c).
Proof. reflexivity. Qed.

Lemma sizeInvariant_ExportSpans {Msg : Type} (marshal : Msg -> option (list byte))
    a o x (protoSpans : list Msg) :
  sizeInvariant x ->
  (forall buf, marshalSpans marshal protoSpans = inr buf ->
               currentSize x + len buf < 2 ^ (intBits a - 1)) ->
  sizeInvariant (snd (fst (ExportSpans marshal a o x protoSpans))).
Proof.
  intros Hx Hfit. unfold ExportSpans.
  destruct (Z.eqb_spec (len protoSpans) 0) as [E|E]; [exact Hx|].
  assert (Hne : protoSpans <> []) by (intros ->; apply E; reflexivity).
  destruct (marshalSpans marshal protoSpans) as [e|buf] eqn:Em; [exact Hx|].
  pose proof (Hfit buf eq_refl) as Hf.
  pose proof (marshalSpans_length marshal protoSpans buf Hne Em) as Hb.
  destruct (prepareOutputFp a o x (len buf)) as [[err x1] ev1] eqn:Ep.
  pose proof (prepareOutputFp_size a o x (len buf) err x1 ev1 Hx Ep) as P.
  destruct (outputFp x1) as [fp1|] eqn:Efp1.
  - destruct P as [-> P].
    assert (0 < 2 ^ (intBits a - 1)) by (destruct a; simpl; lia).
    destruct (write_short o); unfold sizeInvariant;
      cbn [fst snd set_written outputFp currentSize]; rewrite Efp1;
      rewrite toInt_id; lia.
  - destruct err; unfold sizeInvariant; cbn [fst snd]; rewrite Efp1; exact P.
Qed.

Lemma sizeInvariant_Shutdown o x :
  sizeInvariant x -> sizeInvariant (snd (fst (Shutdown o x))).
Proof.
  unfold Shutdown. intros Hx.
  destruct (closeOutputFile o x) as [[err0 x1] ev1] eqn:E0.
  apply closeOutputFile_post in E0 as (F0 & _ & _ & S0 & _).
  destruct (closeOutputFolder o x1) as [err1 ev2]. cbn [fst snd].
  unfold sizeInvariant in *. rewrite F0.
  destruct S0 as [[-> Fx]|S0]; [|exact S0].
  now rewrite Fx in Hx.
Qed.

(** * Further properties *)

(** ** Construction *)

Lemma publicOption_keeps_bounds opt c :
  publicOption opt ->
  0 <= retainHours c <= MaxRetainHours -> 1024 <= fileSizeLimit c ->
  0 <= retainHours (opt c) <= MaxRetainHours /\ 1024 <= fileSizeLimit (opt c).
Proof.
  intros [p|r|l|] HR HL; cbn [WithBaseFolderPath WithProtoBufMarshalOptions
                              retainHours fileSizeLimit]; try (split; assumption).
  - split; [apply WithRetainHours_range | exact HL].
  - split; [exact HR|]. unfold WithFileSizeLimit. cbn [fileSizeLimit].
    destruct (Z.ltb_spec l 1024); lia.
Qed.

Lemma fold_options_bounds options : forall c,
  Forall publicOption options ->
  0 <= retainHours c <= MaxRetainHours -> 1024 <= fileSizeLimit c ->
  let c' := fold_left (fun c (opt : Option) => opt c) options c in
  0 <= retainHours c' <= MaxRetainHours /\ 1024 <= fileSizeLimit c'.
Proof.
  induction options as [|opt rest IH]; intros c F HR HL; [now split|].
  inversion F as [|? ? Ho Hrest]; subst. cbn [fold_left].
  destruct (publicOption_keeps_bounds opt c Ho HR HL). now apply IH.
Qed.

(** X1.  Whatever options from the four public constructors are given, in
    whatever order, [NewFilesTraceExporter] either refuses with
    [ErrNeedBaseFolderPath] or returns an exporter in its zero state whose
    base folder path is not empty, whose retention window is within
    [0, MaxRetainHours] and whose file size limit is at least 1024. *)
Theorem NewFilesTraceExporter_config (options : list Option) :
  Forall publicOption options ->
  let cfg0 := {| baseFolderPath := ""; retainHours := DefaultRetainHours;
                 fileSizeLimit := DefaultFileSizeLimit |} in
  let cfg' := fold_left (fun c (opt : Option) => opt c) options cfg0 in
  match NewFilesTraceExporter options with
  | ErrNeedBaseFolderPath => baseFolderPath cfg' = ""%string
  | NewExporter x =>
      x = newExporter cfg'
      /\ baseFolderPath (cfg x) <> ""%string
      /\ 0 <= retainHours (cfg x) <= MaxRetainHours
      /\ 1024 <= fileSizeLimit (cfg x)
  end.
Proof.
  intros F. cbv zeta. unfold NewFilesTraceExporter.
  set (cfg0 := {| baseFolderPath := ""; retainHours := DefaultRetainHours;
                  fileSizeLimit := DefaultFileSizeLimit |}).
  destruct (fold_options_bounds options cfg0 F) as [HR HL];
    [subst cfg0; unfold MaxRetainHours, DefaultRetainHours; cbn [retainHours]; lia
    |subst cfg0; unfold DefaultFileSizeLimit; cbn [fileSizeLimit]; lia |].
  cbv zeta in HR, HL.
  destruct (String.eqb_spec
              (baseFolderPath (fold_left (fun c (opt : Option) => opt c) options cfg0))
              ""); [assumption|].
  cbn [cfg newExporter]. repeat split; assumption || lia.
Qed.

Lemma NewFilesTraceExporter_config_witness :
  let cfg0 := {| baseFolderPath := ""; retainHours := DefaultRetainHours;
                 fileSizeLimit := DefaultFileSizeLimit |} in
  let cfg' := fold_left (fun c (opt : Option) => opt c)
                [WithRetainHours 100000; WithBaseFolderPath "spool";
                 WithFileSizeLimit 10] cfg0 in
  match NewFilesTraceExporter
          [WithRetainHours 100000; WithBaseFolderPath "spool"; WithFileSizeLimit 10] with
  | ErrNeedBaseFolderPath => baseFolderPath cfg' = ""%string
  | NewExporter x =>
      x = newExporter cfg'
      /\ baseFolderPath (cfg x) <> ""%string
      /\ 0 <= retainHours (cfg x) <= MaxRetainHours
      /\ 1024 <= fileSizeLimit (cfg x)
  end.
Proof.
  apply (NewFilesTraceExporter_config
           [WithRetainHours 100000; WithBaseFolderPath "spool"; WithFileSizeLimit 10]).
  repeat constructor.
Defined.

(** ** Folder names *)

Lemma append_inj_l (s a b : string) : (s ++ a = s ++ b)%string -> a = b.
Proof.
  induction s as [|c s IH]; cbn [String.append]; [trivial|].
  intros [= H]. now apply IH.
Qed.

Lemma pathJoin_inj dir n1 n2 : pathJoin dir n1 = pathJoin dir n2 -> n1 = n2.
Proof.
  unfold pathJoin. intros H. apply append_inj_l in H.
  cbn [String.append] in H. now injection H.
Qed.

Lemma BigEndian_low3 v :
  skipn 1 (BigEndian.PutUint32 v) = rev (le_split 3 v).
Proof.
  unfold BigEndian.PutUint32.
  change (le_split 4 v) with (le_split 3 v ++ [byte.of_Z (Z.shiftr (Z.shiftr (Z.shiftr v 8) 8) 8)]).
  rewrite rev_app_distr. reflexivity.
Qed.

Lemma hourBucket_mod now : hourBucket now = Z.quot now 3600 mod 2 ^ 24.
Proof.
  unfold hourBucket, outputHourMask.
  change 0xFFFFFF with (Z.ones 24). rewrite Z.land_ones by lia.
  apply toInt32_id.
  pose proof (Z.mod_pos_bound (Z.quot now 3600) (2 ^ 24)). lia.
Qed.

Lemma hourBucket_range now : 0 <= hourBucket now <= outputHourMask.
Proof.
  rewrite hourBucket_mod. unfold outputHourMask.
  pose proof (Z.mod_pos_bound (Z.quot now 3600) (2 ^ 24)). lia.
Qed.

Lemma folderName_inj h1 h2 :
  0 <= h1 <= outputHourMask -> 0 <= h2 <= outputHourMask ->
  b32EncodeToString (skipn 1 (BigEndian.PutUint32 (toUint32 h1)))
  = b32EncodeToString (skipn 1 (BigEndian.PutUint32 (toUint32 h2))) ->
  h1 = h2.
Proof.
  unfold outputHourMask, toUint32. intros H1 H2.
  rewrite !Z.mod_small, !BigEndian_low3 by lia. intros H.
  apply b32EncodeToString_inj in H;
    [|now rewrite !length_rev, !length_le_split].
  apply rev_inj, le_split_inj in H; simpl; lia.
Qed.

Lemma folderName_length h :
  String.length (b32EncodeToString (skipn 1 (BigEndian.PutUint32 (toUint32 h)))) = 5%nat.
Proof.
  rewrite BigEndian_low3.
  pose proof (b32EncodeToString_length (rev (le_split 3 (toUint32 h))) _ eq_refl) as L.
  rewrite length_rev, length_le_split in L. lia.
Qed.

Lemma makeOutputFolderPath_inj base h1 h2 :
  0 <= h1 <= outputHourMask -> 0 <= h2 <= outputHourMask ->
  makeOutputFolderPath base h1 = makeOutputFolderPath base h2 -> h1 = h2.
Proof.
  intros H1 H2 H. unfold makeOutputFolderPath in H.
  apply pathJoin_inj in H. now apply folderName_inj.
Qed.

(** X2.  The folder of an hour bucket is the base folder joined with a name
    of five base-32 characters, and two hour buckets within the 24-bit mask
    that get the same folder are equal; the hour bucket of any clock reading
    is within the mask. *)
Theorem makeOutputFolderPath_injective (base : string) (now1 now2 : Z) :
  let h1 := hourBucket now1 in
  let h2 := hourBucket now2 in
  0 <= h1 <= outputHourMask
  /\ (exists name, makeOutputFolderPath base h1 = pathJoin base name
                   /\ String.length name = 5%nat)
  /\ (makeOutputFolderPath base h1 = makeOutputFolderPath base h2 -> h1 = h2).
Proof.
  cbv zeta. split; [apply hourBucket_range|]. split.
  - eexists. split; [reflexivity|]. apply folderName_length.
  - apply makeOutputFolderPath_inj; apply hourBucket_range.
Qed.

(** ** The purge spares the retention window *)

Lemma land_mask_mod v : Z.land v outputHourMask = v mod 2 ^ 24.
Proof.
  unfold outputHourMask. change 0xFFFFFF with (Z.ones 24).
  apply Z.land_ones. lia.
Qed.

Lemma masked_hours_differ h h' :
  0 < h - h' < 2 ^ 24 -> Z.land h outputHourMask <> Z.land h' outputHourMask.
Proof.
  rewrite !land_mask_mod. intros Hd E.
  pose proof (Z.div_mod h (2 ^ 24) ltac:(lia)) as D1.
  pose proof (Z.div_mod h' (2 ^ 24) ltac:(lia)) as D2.
  rewrite E in D1. nia.
Qed.

Lemma masked_hour_range v : 0 <= Z.land v outputHourMask <= outputHourMask.
Proof.
  rewrite land_mask_mod. unfold outputHourMask.
  pose proof (Z.mod_pos_bound v (2 ^ 24)). lia.
Qed.

(** X3.  With the clock and the retention window in their ranges, the purge
    removes no folder of an hour within the retention window: for every hour
    [h] with [currentHour - R <= h <= currentHour], the folder of [h] is not
    among the removals, whether or not a removal fails. *)
Theorem purge_spares_retention_window (o : os_outcome) (x : FilesTraceExporter)
    (h : Z) (ok : bool) :
  0 <= now_purge o < 2 ^ 31 * 3600 ->
  0 <= retainHours (cfg x) <= MaxRetainHours ->
  now_purge o / 3600 - retainHours (cfg x) <= h <= now_purge o / 3600 ->
  ~ In (EvRemoveAll (makeOutputFolderPath (baseFolderPath (cfg x))
                       (Z.land h outputHourMask)) ok)
       (snd (purgeRecentExpiredOutputFolders o x)).
Proof.
  intros Hn HR Hh. pose proof (purge_removals o x) as P. cbv zeta in P.
  rewrite expiredHourBaseOf_nowrap in P by assumption.
  rewrite P. unfold removal, MaxRetainHours in *.
  set (eb := now_purge o / 3600 - retainHours (cfg x) - 1) in *.
  assert (D : forall e, e <= eb -> eb - 1 <= e ->
            EvRemoveAll (makeOutputFolderPath (baseFolderPath (cfg x))
                           (Z.land h outputHourMask)) ok
            <> EvRemoveAll (makeOutputFolderPath (baseFolderPath (cfg x))
                              (Z.land e outputHourMask))
                 (remove_ok o (eb - e))).
  { intros e H1 H2 [= E _].
    apply makeOutputFolderPath_inj in E; try apply masked_hour_range.
    revert E. apply masked_hours_differ. subst eb. lia. }
  destruct (_ || _); [intros []|].
  destruct (_ <? _).
  - intros [E|[]]. apply (D eb); [lia|lia|].
    now replace (eb - eb) with 0 by lia.
  - intros [E|[E|[]]].
    + apply (D eb); [lia|lia|]. now replace (eb - eb) with 0 by lia.
    + apply (D (eb - 1)); [lia|lia|]. now replace (eb - (eb - 1)) with 1 by lia.
Qed.

Lemma purge_spares_retention_window_witness :
  ~ In (EvRemoveAll (makeOutputFolderPath (baseFolderPath (cfg (sampleOpen 3 1020)))
                       (Z.land 473345 outputHourMask)) true)
       (snd (purgeRecentExpiredOutputFolders (calm (sampleNow + 3600))
               (sampleOpen 3 1020))).
Proof.
  apply (purge_spares_retention_window (calm (sampleNow + 3600))
           (sampleOpen 3 1020) 473345 true).
  - vm_compute. split; [discriminate | reflexivity].
  - vm_compute. split; discriminate.
  - vm_compute. split; discriminate.
Defined.

(** ** The encoded buffer *)

Lemma marshalLoop_layout {Msg : Type} (marshal : Msg -> option (list byte))
    protoSpans : forall payloads pbIdx buf,
  map marshal protoSpans = map Some payloads ->
  marshalLoop marshal pbIdx protoSpans buf
  = inr (buf ++ List.concat (map frame payloads)).
Proof.
  induction protoSpans as [|m rest IH]; intros [|payload payloads] pbIdx buf H;
    try discriminate H.
  - cbn. now rewrite app_nil_r.
  - cbn [map] in H. injection H as Hm Hrest. cbn [marshalLoop]. rewrite Hm.
    replace (len ((buf ++ [Byte.x00; Byte.x00; Byte.x00; Byte.x00]) ++ payload)
             - Z.of_nat (List.length buf) - 4) with (len payload)
      by (unfold len; rewrite !length_app; simpl List.length; lia).
    rewrite putUint32At_reserved.
    change (LittleEndian.PutUint32 (toUint32 (len payload)) ++ payload)
      with (frame payload).
    rewrite (IH payloads) by assumption.
    cbn [map List.concat]. now rewrite <- app_assoc.
Qed.

Lemma marshalLoop_failure {Msg : Type} (marshal : Msg -> option (list byte))
    protoSpans : forall m pbIdx buf,
  In m protoSpans -> marshal m = None ->
  marshalLoop marshal pbIdx protoSpans buf
  = inl (Wrap "cannot marshal span" (Os ErrMarshalAppend)).
Proof.
  induction protoSpans as [|m' rest IH]; intros m pbIdx buf Hin Hm; [destruct Hin|].
  cbn [marshalLoop]. destruct (marshal m') as [bs|] eqn:E; [|reflexivity].
  destruct Hin as [->|Hin]; [congruence|]. now apply (IH m).
Qed.

Lemma length_concat_frames payloads :
  len (List.concat (map frame payloads))
  = 4 * len payloads + len (List.concat payloads).
Proof.
  unfold len. induction payloads as [|p rest IH]; [reflexivity|].
  cbn [map List.concat]. unfold frame at 1.
  rewrite !length_app, length_PutUint32. cbn [List.length]. lia.
Qed.

(** X4.  When every span marshals, whatever the payloads are (empty ones
    included), the buffer of a non-empty batch is the little-endian count
    followed, span by span, by the little-endian payload length and the
    payload; its length is 4 bytes, plus 4 bytes per span, plus the
    payloads. *)
Theorem marshalSpans_layout {Msg : Type} (marshal : Msg -> option (list byte))
    (protoSpans : list Msg) (payloads : list (list byte)) :
  protoSpans <> [] ->
  map marshal protoSpans = map Some payloads ->
  exists buf,
    marshalSpans marshal protoSpans = inr buf
    /\ buf = LittleEndian.PutUint32 (toUint32 (len protoSpans))
             ++ List.concat (map frame payloads)
    /\ len buf = 4 + 4 * len protoSpans + len (List.concat payloads).
Proof.
  intros Hne Hm. eexists. split; [|split; [reflexivity|]].
  - unfold marshalSpans. rewrite (marshalSpans_nonempty marshal) by assumption.
    now apply marshalLoop_layout.
  - unfold len at 1. rewrite length_app, length_PutUint32.
    pose proof (length_concat_frames payloads) as L. unfold len in L at 1.
    assert (E : len payloads = len protoSpans).
    { unfold len. f_equal. apply (f_equal (@List.length _)) in Hm.
      now rewrite !length_map in Hm. }
    lia.
Qed.

Lemma marshalSpans_layout_witness :
  exists buf,
    marshalSpans Some [[Byte.x2a]; []] = inr buf
    /\ buf = LittleEndian.PutUint32 (toUint32 (len [[Byte.x2a]; @nil byte]))
             ++ List.concat (map frame [[Byte.x2a]; []])
    /\ len buf = 4 + 4 * len [[Byte.x2a]; @nil byte]
                 + len (List.concat [[Byte.x2a]; []]).
Proof.
  apply (marshalSpans_layout Some [[Byte.x2a]; []] [[Byte.x2a]; []]).
  - discriminate.
  - reflexivity.
Defined.

(** X5.  When one span of the batch does not marshal, [ExportSpans] returns
    the marshalling error and does nothing else: the exporter is unchanged
    and no system call is made, also for the spans that did marshal. *)
Theorem marshal_failure_leaves_exporter_untouched {Msg : Type}
    (marshal : Msg -> option (list byte)) (a : arch) (o : os_outcome)
    (x : FilesTraceExporter) (protoSpans : list Msg) (m : Msg) :
  In m protoSpans -> marshal m = None ->
  ExportSpans marshal a o x protoSpans
  = (Some (Wrap "cannot marshal span" (Os ErrMarshalAppend)), x, []).
Proof.
  intros Hin Hm. unfold ExportSpans, marshalSpans.
  rewrite (marshalSpans_nonempty marshal) by (intros ->; destruct Hin).
  now rewrite (marshalLoop_failure marshal protoSpans m).
Qed.

Lemma marshal_failure_leaves_exporter_untouched_witness :
  ExportSpans (fun m : list byte => match m with [] => None | _ => Some m end)
    Arch64 (calm sampleNow) (sampleOpen 0 500) [[Byte.x2a]; []]
  = (Some (Wrap "cannot marshal span" (Os ErrMarshalAppend)), sampleOpen 0 500, []).
Proof.
  apply (marshal_failure_leaves_exporter_untouched
           (fun m : list byte => match m with [] => None | _ => Some m end)
           Arch64 (calm sampleNow) (sampleOpen 0 500) [[Byte.x2a]; []] []).
  - right. left. reflexivity.
  - reflexivity.
Defined.

(** ** Rotation by size and by hour *)

Lemma closeOutputFile_ok o x fp :
  outputFp x = Some fp ->
  close_ok o = true -> index_open_ok o = true -> index_write_ok o = true ->
  closeOutputFile o x
  = (None, set_outputSn (set_closed x) (toInt32 (outputSn x + 1)),
     [EvClose fp true; EvOpenIndex (indexFilePath x) true;
      EvIndexWrite (indexFilePath x) (outputFileName x) (outputStartAt x)
        (outputLastWriteAt x) true]).
Proof.
  intros Hfp Hc Hio Hiw. unfold closeOutputFile, appendIndexRecord.
  rewrite Hfp, Hc, Hio, Hiw. reflexivity.
Qed.

Lemma prepareOutputFp_rotate_size a o x recordSize fp :
  outputFp x = Some fp ->
  hourBucket (now_prepare o) = outputHour x ->
  negb (currentSize x =? 0)
  && (toInt a (currentSize x + recordSize) <=? fileSizeLimit (cfg x)) = false ->
  close_ok o = true -> index_open_ok o = true -> index_write_ok o = true ->
  create_ok o = true -> outputFolderPath x <> ""%string ->
  0 <= outputSn x < outputSnBoundary ->
  prepareOutputFp a o x recordSize
  = (None,
     set_opened (set_outputSn (set_closed x) (outputSn x + 1))
       (makeOutputFileName (outputSn x + 1))
       (pathJoin (outputFolderPath x) (makeOutputFileName (outputSn x + 1)))
       (now_open o),
     [EvClose fp true; EvOpenIndex (indexFilePath x) true;
      EvIndexWrite (indexFilePath x) (outputFileName x) (outputStartAt x)
        (outputLastWriteAt x) true;
      EvCreate (pathJoin (outputFolderPath x)
                  (makeOutputFileName (outputSn x + 1))) true]).
Proof.
  intros Hfp Hh Hguard Hc Hio Hiw Hcr Hfolder Hsn.
  apply String.eqb_neq in Hfolder. unfold outputSnBoundary in Hsn.
  unfold prepareOutputFp, rotateOutput. rewrite Hh, Z.eqb_refl, Hguard.
  rewrite (closeOutputFile_ok o x fp) by assumption.
  rewrite (toInt32_id (outputSn x + 1)) by lia.
  cbn [outputFolderPath set_outputSn set_closed]. rewrite Hfolder.
  unfold openOutputFile. cbn [outputSn outputFolderPath set_outputSn set_closed].
  destruct (Z.gtb_spec (outputSn x + 1) outputSnBoundary);
    [unfold outputSnBoundary in *; lia|].
  rewrite Hcr. reflexivity.
Qed.

(** X6.  Rotation by size.  A file is open in the current hour bucket, it is
    not empty and the batch would take it over the limit.  With the system
    calls of the rotation succeeding and the serial number below its bound,
    the call closes the file, appends its index record (name, start time,
    time of last write), creates the file of the next serial number in the
    same folder and writes the batch there; the size counter restarts at the
    length of the batch. *)
Theorem rotation_by_size {Msg : Type} (marshal : Msg -> option (list byte))
    (a : arch) (o : os_outcome) (x : FilesTraceExporter)
    (protoSpans : list Msg) (buf : list byte) (fp : string) :
  protoSpans <> [] ->
  marshalSpans marshal protoSpans = inr buf ->
  outputFp x = Some fp ->
  hourBucket (now_prepare o) = outputHour x ->
  0 < currentSize x ->
  fileSizeLimit (cfg x) < currentSize x + len buf < 2 ^ (intBits a - 1) ->
  close_ok o = true -> index_open_ok o = true -> index_write_ok o = true ->
  create_ok o = true -> outputFolderPath x <> ""%string ->
  0 <= outputSn x < outputSnBoundary ->
  let name := makeOutputFileName (outputSn x + 1) in
  let fp' := pathJoin (outputFolderPath x) name in
  ExportSpans marshal a o x protoSpans
  = (writeError (write_short o),
     {| cfg := cfg x; outputFolderPath := outputFolderPath x;
        indexFilePath := indexFilePath x; outputHour := outputHour x;
        outputSn := outputSn x + 1; outputFileName := name;
        outputFp := Some fp'; outputStartAt := now_open o;
        outputLastWriteAt := now_write o; currentSize := len buf |},
     [EvClose fp true; EvOpenIndex (indexFilePath x) true;
      EvIndexWrite (indexFilePath x) (outputFileName x) (outputStartAt x)
        (outputLastWriteAt x) true;
      EvCreate fp' true;
      writeEvent fp' buf (write_short o)]).
Proof.
  intros Hne Hm Hfp Hh Hs Hover Hc Hio Hiw Hcr Hfolder Hsn. cbv zeta.
  assert (Hb : 0 <= len buf) by (unfold len; lia).
  rewrite (ExportSpans_after_prepare marshal a o x protoSpans buf _ _ _ Hne Hm
             (prepareOutputFp_rotate_size a o x (len buf) fp Hfp Hh
                ltac:(rewrite (toInt_id a (currentSize x + len buf)) by lia;
                      destruct (Z.eqb_spec (currentSize x) 0); [lia|];
                      destruct (Z.leb_spec (currentSize x + len buf)
                                  (fileSizeLimit (cfg x))); [lia|reflexivity])
                Hc Hio Hiw Hcr Hfolder Hsn)
             eq_refl).
  cbn [set_opened set_outputSn set_closed set_written cfg outputFolderPath
       indexFilePath outputHour outputSn outputFileName outputFp outputStartAt
       outputLastWriteAt currentSize app].
  rewrite (toInt_id a (0 + len buf)) by lia. reflexivity.
Qed.

Lemma rotation_by_size_witness :
  let name := makeOutputFileName (outputSn (sampleOpen 0 1020) + 1) in
  let fp' := pathJoin (outputFolderPath (sampleOpen 0 1020)) name in
  ExportSpans Some Arch64 (calm sampleNow) (sampleOpen 0 1020) sampleSpans
  = (writeError (write_short (calm sampleNow)),
     {| cfg := sampleConfig; outputFolderPath := "spool/0ssgg";
        indexFilePath := "spool/0ssgg/_index"; outputHour := 473352;
        outputSn := 0 + 1; outputFileName := name;
        outputFp := Some fp'; outputStartAt := sampleNow;
        outputLastWriteAt := sampleNow;
        currentSize := len [Byte.x01; Byte.x00; Byte.x00; Byte.x00;
                            Byte.x01; Byte.x00; Byte.x00; Byte.x00; Byte.x2a] |},
     [EvClose "spool/0ssgg/0000" true; EvOpenIndex "spool/0ssgg/_index" true;
      EvIndexWrite "spool/0ssgg/_index" "0000" (sampleNow - 60) (sampleNow - 30) true;
      EvCreate fp' true;
      writeEvent fp' [Byte.x01; Byte.x00; Byte.x00; Byte.x00;
                      Byte.x01; Byte.x00; Byte.x00; Byte.x00; Byte.x2a]
        (write_short (calm sampleNow))]).
Proof.
  apply (rotation_by_size Some Arch64 (calm sampleNow) (sampleOpen 0 1020)
           sampleSpans
           [Byte.x01; Byte.x00; Byte.x00; Byte.x00;
            Byte.x01; Byte.x00; Byte.x00; Byte.x00; Byte.x2a]
           "spool/0ssgg/0000");
    try reflexivity; try discriminate.
  - vm_compute. split; reflexivity.
  - vm_compute. split; [discriminate | reflexivity].
Defined.

Lemma prepareOutputFp_rotate_hour a o x recordSize fp :
  outputFp x = Some fp ->
  hourBucket (now_prepare o) <> outputHour x ->
  outputFolderPath x <> ""%string ->
  close_ok o = true -> index_open_ok o = true -> index_write_ok o = true ->
  timestamp_ok o = true -> mkdir_ok o = true -> create_ok o = true ->
  let h := hourBucket (now_prepare o) in
  let p := makeOutputFolderPath (baseFolderPath (cfg x)) h in
  prepareOutputFp a o x recordSize
  = (None,
     set_opened
       (set_folder (set_outputSn (set_closed x) (toInt32 (outputSn x + 1)))
          p (pathJoin p "_index") h 0)
       (makeOutputFileName 0) (pathJoin p (makeOutputFileName 0)) (now_open o),
     [EvClose fp true; EvOpenIndex (indexFilePath x) true;
      EvIndexWrite (indexFilePath x) (outputFileName x) (outputStartAt x)
        (outputLastWriteAt x) true;
      EvWriteFile (pathJoin (outputFolderPath x) "_t") (now_timestamp o) true;
      EvMkdirAll p true]
     ++ snd (purgeRecentExpiredOutputFolders o x)
     ++ [EvCreate (pathJoin p (makeOutputFileName 0)) true]).
Proof.
  intros Hfp Hh Hfolder Hc Hio Hiw Hts Hmk Hcr. cbv zeta.
  apply Z.eqb_neq in Hh. apply String.eqb_neq in Hfolder.
  unfold prepareOutputFp, rotateOutput. rewrite Hh.
  rewrite (closeOutputFile_ok o x fp) by assumption.
  unfold closeOutputFolder, writeTimestampFile.
  cbn [outputFolderPath set_outputSn set_closed]. rewrite Hfolder, Hts.
  cbn [wrapErr errList app joinErrors len List.length Z.of_nat Z.gtb Z.compare].
  unfold prepareOutputFolder. rewrite Hmk.
  cbn [cfg set_outputSn set_closed].
  rewrite (purge_ignores_state o x) by reflexivity.
  destruct (purgeRecentExpiredOutputFolders o x) as [errp ev4].
  unfold openOutputFile. cbn [outputSn outputFolderPath set_folder snd].
  change (0 >? outputSnBoundary) with false. cbn iota. rewrite Hcr.
  cbn [app]. reflexivity.
Qed.

(** X7.  Rotation by hour.  A file is open and the clock has moved to
    another hour bucket.  With the system calls succeeding, the call closes
    the file, appends its index record, writes the timestamp marker [_t] in
    the old folder, creates the folder of the new hour, runs the purge,
    creates the file of serial number 0 there and writes the batch to it;
    the exporter now names the new folder and its index, serial number 0,
    and the size of the batch. *)
Theorem rotation_by_hour {Msg : Type} (marshal : Msg -> option (list byte))
    (a : arch) (o : os_outcome) (x : FilesTraceExporter)
    (protoSpans : list Msg) (buf : list byte) (fp : string) :
  protoSpans <> [] ->
  marshalSpans marshal protoSpans = inr buf ->
  outputFp x = Some fp ->
  hourBucket (now_prepare o) <> outputHour x ->
  outputFolderPath x <> ""%string ->
  len buf < 2 ^ (intBits a - 1) ->
  close_ok o = true -> index_open_ok o = true -> index_write_ok o = true ->
  timestamp_ok o = true -> mkdir_ok o = true -> create_ok o = true ->
  let h := hourBucket (now_prepare o) in
  let p := makeOutputFolderPath (baseFolderPath (cfg x)) h in
  let fp' := pathJoin p "0000" in
  ExportSpans marshal a o x protoSpans
  = (writeError (write_short o),
     {| cfg := cfg x; outputFolderPath := p;
        indexFilePath := pathJoin p "_index"; outputHour := h;
        outputSn := 0; outputFileName := "0000";
        outputFp := Some fp'; outputStartAt := now_open o;
        outputLastWriteAt := now_write o; currentSize := len buf |},
     [EvClose fp true; EvOpenIndex (indexFilePath x) true;
      EvIndexWrite (indexFilePath x) (outputFileName x) (outputStartAt x)
        (outputLastWriteAt x) true;
      EvWriteFile (pathJoin (outputFolderPath x) "_t") (now_timestamp o) true;
      EvMkdirAll p true]
     ++ snd (purgeRecentExpiredOutputFolders o x)
     ++ [EvCreate fp' true; writeEvent fp' buf (write_short o)]).
Proof.
  intros Hne Hm Hfp Hh Hfolder Hbuf Hc Hio Hiw Hts Hmk Hcr. cbv zeta.
  assert (Hb : 0 <= len buf) by (unfold len; lia).
  rewrite (ExportSpans_after_prepare marshal a o x protoSpans buf _ _ _ Hne Hm
             (prepareOutputFp_rotate_hour a o x (len buf) fp Hfp Hh Hfolder
                Hc Hio Hiw Hts Hmk Hcr)
             eq_refl).
  cbn [set_opened set_folder set_outputSn set_closed set_written cfg
       outputFolderPath indexFilePath outputHour outputSn outputFileName
       outputFp outputStartAt outputLastWriteAt currentSize].
  rewrite (toInt_id a (0 + len buf))
    by (assert (0 < 2 ^ (intBits a - 1)) by (destruct a; simpl; lia); lia).
  change (makeOutputFileName 0) with "0000"%string.
  cbn [app]. rewrite <- ?app_assoc. reflexivity.
Qed.

Lemma rotation_by_hour_witness :
  let o := calm (sampleNow + 3600) in
  let x := sampleOpen 3 1020 in
  let buf := [Byte.x01; Byte.x00; Byte.x00; Byte.x00;
              Byte.x01; Byte.x00; Byte.x00; Byte.x00; Byte.x2a] in
  let h := hourBucket (now_prepare o) in
  let p := makeOutputFolderPath (baseFolderPath (cfg x)) h in
  let fp' := pathJoin p "0000" in
  ExportSpans Some Arch64 o x sampleSpans
  = (writeError (write_short o),
     {| cfg := cfg x; outputFolderPath := p;
        indexFilePath := pathJoin p "_index"; outputHour := h;
        outputSn := 0; outputFileName := "0000";
        outputFp := Some fp'; outputStartAt := now_open o;
        outputLastWriteAt := now_write o; currentSize := len buf |},
     [EvClose "spool/0ssgg/001g" true; EvOpenIndex (indexFilePath x) true;
      EvIndexWrite (indexFilePath x) (outputFileName x) (outputStartAt x)
        (outputLastWriteAt x) true;
      EvWriteFile (pathJoin (outputFolderPath x) "_t") (now_timestamp o) true;
      EvMkdirAll p true]
     ++ snd (purgeRecentExpiredOutputFolders o x)
     ++ [EvCreate fp' true; writeEvent fp' buf (write_short o)]).
Proof.
  apply (rotation_by_hour Some Arch64 (calm (sampleNow + 3600)) (sampleOpen 3 1020)
           sampleSpans
           [Byte.x01; Byte.x00; Byte.x00; Byte.x00;
            Byte.x01; Byte.x00; Byte.x00; Byte.x00; Byte.x2a]
           "spool/0ssgg/001g");
    try reflexivity; try discriminate.
Defined.

(** ** What one export writes *)

Lemma rotateOutput_no_io a o x recordSize :
  match rotateOutput a o x recordSize with
  | inl (_, _, ev) => filter isSegmentIO ev = []
  | inr (_, ev) => filter isSegmentIO ev = []
  end.
Proof.
  destruct (rotateOutput a o x recordSize) as [[[err x1] ev]|[x1 ev]] eqn:E;
    [|now apply rotateOutput_fall_through in E].
  revert E. unfold rotateOutput.
  destruct (closeOutputFile o x) as [[err0 x0] ev0] eqn:E0.
  apply closeOutputFile_post in E0 as (_ & _ & _ & _ & I0 & _).
  destruct (_ =? _).
  - destruct (_ && _); [intros [= <- <- <-]; reflexivity|].
    destruct err0; [intros [= <- <- <-]; exact I0|].
    destruct (_ =? _)%string; [|discriminate].
    destruct (prepareOutputFolder o x0 _) as [[err2 x2] ev2] eqn:E2.
    apply prepareOutputFolder_post in E2 as (_ & _ & _ & I2 & _).
    destruct err2; [|discriminate]. intros [= <- <- <-].
    now rewrite filter_app, I0, I2.
  - destruct (closeOutputFolder o x0) as [err1 ev1] eqn:E1.
    apply closeOutputFolder_post in E1 as (I1 & _).
    destruct (joinErrors _ _);
      [intros [= <- <- <-]; now rewrite filter_app, I0, I1|].
    destruct (prepareOutputFolder o x0 _) as [[err2 x2] ev2] eqn:E2.
    apply prepareOutputFolder_post in E2 as (_ & _ & _ & I2 & _).
    destruct err2.
    + intros [= <- <- <-]. now rewrite !filter_app, I0, I1, I2.
    + destruct (purgeRecentExpiredOutputFolders o x2); discriminate.
Qed.

Lemma no_io_no_write evs : filter isSegmentIO evs = [] -> filter isWrite evs = [].
Proof.
  induction evs as [|ev evs IH]; [reflexivity|].
  cbn [filter]. destruct ev; cbn [isSegmentIO isWrite]; try discriminate; exact IH.
Qed.

(** [prepareOutputFp] writes to no segment file, and when it fails no file
    is open. *)
Lemma prepareOutputFp_post a o x recordSize err x1 ev :
  prepareOutputFp a o x recordSize = (err, x1, ev) ->
  filter isWrite ev = [] /\ (err <> None -> outputFp x1 = None).
Proof.
  unfold prepareOutputFp.
  pose proof (rotateOutput_no_io a o x recordSize) as N.
  destruct (rotateOutput a o x recordSize) as [[[err' x'] ev']|[x' ev']] eqn:E.
  - intros [= <- <- <-]. split; [now apply no_io_no_write|].
    apply rotateOutput_return in E as [(-> & _)|(F & _)]; [congruence|trivial].
  - apply rotateOutput_fall_through in E as (F & _ & _).
    unfold openOutputFile.
    destruct (_ >? _); [intros [= <- <- <-]; rewrite app_nil_r;
                        split; [now apply no_io_no_write|trivial]|].
    destruct (create_ok o); intros [= <- <- <-];
      rewrite filter_app, (no_io_no_write _ N); cbn; split; congruence.
Qed.

(** X8.  In one call of [ExportSpans] the buffer is written at most once.
    When it is written, it goes (whole, or cut short when the write fails)
    to the file that is open after the call, and the error returned is that
    of the write.  When nothing is written, the exporter is unchanged or no
    file is open afterwards: a failure before the write never leaves a file
    open. *)
Theorem ExportSpans_writes_at_most_once {Msg : Type}
    (marshal : Msg -> option (list byte)) (a : arch) (o : os_outcome)
    (x : FilesTraceExporter) (protoSpans : list Msg) :
  let '(err, x', evs) := ExportSpans marshal a o x protoSpans in
  match filter isWrite evs with
  | [] => x' = x \/ outputFp x' = None
  | [w] =>
      exists fp buf,
        marshalSpans marshal protoSpans = inr buf
        /\ outputFp x' = Some fp
        /\ w = writeEvent fp buf (write_short o)
        /\ err = writeError (write_short o)
  | _ :: _ :: _ => False
  end.
Proof.
  unfold ExportSpans.
  destruct (len protoSpans =? 0); [now left|].
  destruct (marshalSpans marshal protoSpans) as [e|buf]; [now left|].
  destruct (prepareOutputFp a o x (len buf)) as [[err x1] ev1] eqn:Ep.
  apply prepareOutputFp_post in Ep as [W F].
  destruct err as [e|]; [rewrite W; right; apply F; discriminate|].
  destruct (outputFp x1) as [fp|] eqn:Efp; [|rewrite W; now right].
  destruct (write_short o) as [n|]; rewrite filter_app, W; cbn;
    exists fp, buf; repeat split; assumption.
Qed.

(** ** Shutdown and the first export *)





Lemma prepareOutputFp_first a o c recordSize :
  mkdir_ok o = true -> create_ok o = true ->
  let h := hourBucket (now_prepare o) in
  let p := makeOutputFolderPath (baseFolderPath c) h in
  prepareOutputFp a o (newExporter c) recordSize
  = (None,
     set_opened (set_folder (newExporter c) p (pathJoin p "_index") h 0)
       (makeOutputFileName 0) (pathJoin p (makeOutputFileName 0)) (now_open o),
     [EvMkdirAll p true]
     ++ (if h =? 0 then [] else snd (purgeRecentExpiredOutputFolders o (newExporter c)))
     ++ [EvCreate (pathJoin p (makeOutputFileName 0)) true]).
Proof.
  intros Hmk Hcr. cbv zeta.
  unfold prepareOutputFp, rotateOutput.
  cbn [newExporter outputHour currentSize closeOutputFile outputFp
       closeOutputFolder outputFolderPath].
  change ((""%string =? "")%string) with true. cbn iota.
  unfold prepareOutputFolder. rewrite Hmk.
  destruct (hourBucket (now_prepare o) =? 0).
  - cbn [Z.eqb negb andb app]. unfold openOutputFile.
    cbn [outputSn set_folder outputFolderPath].
    change (0 >? outputSnBoundary) with false. cbn iota. rewrite Hcr. reflexivity.
  - cbn [wrapErr errList app joinErrors len List.length Z.of_nat Z.gtb Z.compare].
    rewrite (purge_ignores_state o (newExporter c)) by reflexivity.
    destruct (purgeRecentExpiredOutputFolders o (newExporter c)) as [errp ev4].
    unfold openOutputFile. cbn [outputSn set_folder outputFolderPath snd].
    change (0 >? outputSnBoundary) with false. cbn iota. rewrite Hcr. reflexivity.
Qed.

(** X10.  The first export of a new exporter.  With the folder and the file
    created without error, the call creates the folder of the current hour
    bucket (no file is closed and no timestamp marker is written), runs the
    purge unless the hour bucket is 0, creates the segment file of serial
    number 0 and writes the batch to it. *)
Theorem first_export {Msg : Type} (marshal : Msg -> option (list byte))
    (a : arch) (o : os_outcome) (c : Config)
    (protoSpans : list Msg) (buf : list byte) :
  protoSpans <> [] ->
  marshalSpans marshal protoSpans = inr buf ->
  len buf < 2 ^ (intBits a - 1) ->
  mkdir_ok o = true -> create_ok o = true ->
  let h := hourBucket (now_prepare o) in
  let p := makeOutputFolderPath (baseFolderPath c) h in
  let fp' := pathJoin p "0000" in
  ExportSpans marshal a o (newExporter c) protoSpans
  = (writeError (write_short o),
     {| cfg := c; outputFolderPath := p;
        indexFilePath := pathJoin p "_index"; outputHour := h;
        outputSn := 0; outputFileName := "0000";
        outputFp := Some fp'; outputStartAt := now_open o;
        outputLastWriteAt := now_write o; currentSize := len buf |},
     [EvMkdirAll p true]
     ++ (if h =? 0 then [] else snd (purgeRecentExpiredOutputFolders o (newExporter c)))
     ++ [EvCreate fp' true; writeEvent fp' buf (write_short o)]).
Proof.
  intros Hne Hm Hbuf Hmk Hcr. cbv zeta.
  assert (Hb : 0 <= len buf) by (unfold len; lia).
  rewrite (ExportSpans_after_prepare marshal a o _ protoSpans buf _ _ _ Hne Hm
             (prepareOutputFp_first a o c (len buf) Hmk Hcr) eq_refl).
  cbn [set_opened set_folder set_written newExporter cfg
       outputFolderPath indexFilePath outputHour outputSn outputFileName
       outputFp outputStartAt outputLastWriteAt currentSize].
  rewrite (toInt_id a (0 + len buf))
    by (assert (0 < 2 ^ (intBits a - 1)) by (destruct a; simpl; lia); lia).
  change (makeOutputFileName 0) with "0000"%string.
  cbn [app]. rewrite <- ?app_assoc. reflexivity.
Qed.

Lemma first_export_witness :
  let o := calm sampleNow in
  let buf := [Byte.x01; Byte.x00; Byte.x00; Byte.x00;
              Byte.x01; Byte.x00; Byte.x00; Byte.x00; Byte.x2a] in
  let h := hourBucket (now_prepare o) in
  let p := makeOutputFolderPath (baseFolderPath sampleConfig) h in
  let fp' := pathJoin p "0000" in
  ExportSpans Some Arch64 o (newExporter sampleConfig) sampleSpans
  = (writeError (write_short o),
     {| cfg := sampleConfig; outputFolderPath := p;
        indexFilePath := pathJoin p "_index"; outputHour := h;
        outputSn := 0; outputFileName := "0000";
        outputFp := Some fp'; outputStartAt := now_open o;
        outputLastWriteAt := now_write o; currentSize := len buf |},
     [EvMkdirAll p true]
     ++ (if h =? 0 then []
         else snd (purgeRecentExpiredOutputFolders o (newExporter sampleConfig)))
     ++ [EvCreate fp' true; writeEvent fp' buf (write_short o)]).
Proof.
  apply (first_export Some Arch64 (calm sampleNow) sampleConfig sampleSpans
           [Byte.x01; Byte.x00; Byte.x00; Byte.x00;
            Byte.x01; Byte.x00; Byte.x00; Byte.x00; Byte.x2a]);
    try reflexivity; try discriminate.
Defined.

(** ** The exporter stays well formed *)

Lemma closeOutputFile_wf o x err x1 ev :
  wellFormed x -> closeOutputFile o x = (err, x1, ev) ->
  wellFormed x1 /\ outputFp x1 = None /\ cfg x1 = cfg x
  /\ outputHour x1 = outputHour x /\ outputFolderPath x1 = outputFolderPath x
  /\ outputSn x1 = match outputFp x with
                   | Some _ => outputSn x + 1
                   | None => outputSn x
                   end
  /\ created ev = [].
Proof.
  unfold wellFormed, closeOutputFile, appendIndexRecord, outputSnBoundary.
  intros (Hh & Hf & Hfp).
  destruct (outputFp x) as [fp|] eqn:Efp.
  - destruct Hfp as (Hne & Hsn & _).
    destruct (index_open_ok o); [destruct (index_write_ok o)|];
      intros [= <- <- <-];
      cbn [set_outputSn set_closed outputHour outputFolderPath indexFilePath
           cfg outputFp outputSn];
      rewrite (toInt32_id (outputSn x + 1)) by lia;
      (repeat split; try assumption; try lia; reflexivity).
  - intros [= <- <- <-]. rewrite Efp. repeat split; assumption || lia || reflexivity.
Qed.

Lemma closeOutputFolder_created o x err ev :
  closeOutputFolder o x = (err, ev) -> created ev = [].
Proof.
  unfold closeOutputFolder, writeTimestampFile.
  destruct (_ =? _)%string; [|destruct (timestamp_ok o)];
    now intros [= <- <-].
Qed.

Lemma pathJoin_nonempty dir name : pathJoin dir name <> ""%string.
Proof.
  unfold pathJoin. destruct dir; cbn; discriminate.
Qed.

Lemma prepareOutputFolder_wf o x h err x1 ev :
  wellFormed x -> outputFp x = None -> 0 <= h <= outputHourMask ->
  prepareOutputFolder o x h = (err, x1, ev) ->
  outputFp x1 = None /\ cfg x1 = cfg x /\ created ev = []
  /\ match err with
     | Some _ => x1 = x
     | None => wellFormed x1 /\ outputHour x1 = h /\ outputSn x1 = 0
               /\ outputFolderPath x1 <> ""%string
     end.
Proof.
  unfold wellFormed, prepareOutputFolder, outputSnBoundary.
  intros (Hh & Hf & Hfp) Efp Hr. rewrite Efp in Hfp.
  destruct (mkdir_ok o); intros [= <- <- <-];
    cbn [set_folder outputHour outputFolderPath indexFilePath cfg outputFp outputSn].
  - rewrite Efp. repeat split; try assumption; try lia; try reflexivity.
    + right. split; reflexivity.
    + apply pathJoin_nonempty.
  - repeat split; assumption.
Qed.

Lemma purge_created o x : created (snd (purgeRecentExpiredOutputFolders o x)) = [].
Proof.
  pose proof (purge_removals o x) as P. cbv zeta in P. rewrite P.
  repeat split_if; reflexivity.
Qed.

Lemma created_app ev1 ev2 : created (ev1 ++ ev2) = created ev1 ++ created ev2.
Proof. apply flat_map_app. Qed.

(** The opening of a file: nothing happens (serial number exhausted, or the
    creation fails), or the file of the serial number is created in the
    folder. *)
Lemma openOutputFile_wf o x err x1 ev :
  wellFormed x -> outputFp x = None -> outputFolderPath x <> ""%string ->
  openOutputFile o x = (err, x1, ev) ->
  wellFormed x1 /\ cfg x1 = cfg x /\ outputHour x1 = outputHour x
  /\ outputSn x1 = outputSn x /\ outputFolderPath x1 = outputFolderPath x
  /\ ((x1 = x /\ created ev = [])
      \/ (err = None
          /\ outputFp x1
             = Some (segmentPath (baseFolderPath (cfg x)) (outputHour x) (outputSn x))
          /\ created ev
             = [segmentPath (baseFolderPath (cfg x)) (outputHour x) (outputSn x)]
          /\ 0 <= outputSn x <= outputSnBoundary)).
Proof.
  unfold openOutputFile, segmentPath. intros W Efp Hne.
  pose proof W as (Hh & Hf & Hfp). rewrite Efp in Hfp.
  destruct Hf as [Hf|[Hf Hi]]; [contradiction|].
  destruct (Z.gtb_spec (outputSn x) outputSnBoundary).
  - intros [= <- <- <-]. split; [exact W|]. do 4 (split; [reflexivity|]).
    left. now split.
  - destruct (create_ok o); intros [= <- <- <-].
    + cbn [set_opened cfg outputHour outputSn outputFolderPath outputFp].
      split; [|do 4 (split; [reflexivity|])].
      * unfold wellFormed.
        cbn [set_opened cfg outputHour outputSn outputFolderPath outputFp
             indexFilePath outputFileName].
        repeat split; try assumption; try lia; try reflexivity. now right.
      * right. rewrite <- Hf. repeat split; try reflexivity; lia.
    + split; [exact W|]. do 4 (split; [reflexivity|]). left. now split.
Qed.

Ltac conjs :=
  repeat match goal with |- _ /\ _ => split end;
  try assumption; try reflexivity; try congruence.

Lemma rotateOutput_wf a o x recordSize :
  wellFormed x ->
  match rotateOutput a o x recordSize with
  | inl (_, x1, ev) => wellFormed x1 /\ cfg x1 = cfg x /\ created ev = []
  | inr (x1, ev) =>
      wellFormed x1 /\ cfg x1 = cfg x /\ created ev = []
      /\ outputFp x1 = None /\ outputFolderPath x1 <> ""%string
  end.
Proof.
  intros W. unfold rotateOutput.
  destruct (closeOutputFile o x) as [[err0 x0] ev0] eqn:E0.
  destruct (closeOutputFile_wf o x err0 x0 ev0 W E0)
    as (W0 & F0 & C0 & H0 & P0 & S0 & K0).
  pose proof (hourBucket_range (now_prepare o)) as Hr.
  destruct (_ =? _).
  - destruct (_ && _); [conjs|].
    destruct err0; [conjs|].
    destruct (String.eqb_spec (outputFolderPath x0) "") as [Ee|Ee];
      [|conjs].
    destruct (prepareOutputFolder o x0 _) as [[err2 x2] ev2] eqn:E2.
    destruct (prepareOutputFolder_wf o x0 _ err2 x2 ev2 W0 F0 Hr E2)
      as (F2 & C2 & K2 & M2).
    destruct err2.
    + subst x2. rewrite created_app, K0, K2. conjs.
    + destruct M2 as (W2 & _ & _ & N2).
      rewrite created_app, K0, K2. conjs.
  - destruct (closeOutputFolder o x0) as [err1 ev1] eqn:E1.
    pose proof (closeOutputFolder_created o x0 err1 ev1 E1) as K1.
    destruct (joinErrors _ _);
      [rewrite created_app, K0, K1; conjs|].
    destruct (prepareOutputFolder o x0 _) as [[err2 x2] ev2] eqn:E2.
    destruct (prepareOutputFolder_wf o x0 _ err2 x2 ev2 W0 F0 Hr E2)
      as (F2 & C2 & K2 & M2).
    destruct err2.
    + subst x2. rewrite !created_app, K0, K1, K2. conjs.
    + destruct M2 as (W2 & _ & _ & N2).
      pose proof (purge_created o x2) as K3.
      destruct (purgeRecentExpiredOutputFolders o x2) as [e3 ev3].
      cbn [snd] in K3.
      rewrite !created_app, K0, K1, K2, K3. conjs.
Qed.

Lemma set_written_wf x t size : wellFormed x -> wellFormed (set_written x t size).
Proof. unfold wellFormed. now cbn [set_written]. Qed.

Lemma prepareOutputFp_wf a o x recordSize err x1 ev :
  wellFormed x -> prepareOutputFp a o x recordSize = (err, x1, ev) ->
  wellFormed x1 /\ cfg x1 = cfg x.
Proof.
  intros W. unfold prepareOutputFp.
  pose proof (rotateOutput_wf a o x recordSize W) as R.
  destruct (rotateOutput a o x recordSize) as [[[err' x'] ev']|[x' ev']].
  - intros [= <- <- <-]. tauto.
  - destruct R as (W' & C' & _ & F' & N').
    destruct (openOutputFile o x') as [[err2 x2] ev2] eqn:E2.
    destruct (openOutputFile_wf o x' err2 x2 ev2 W' F' N' E2) as (W2 & C2 & _).
    intros [= <- <- <-]. split; [assumption|congruence].
Qed.

Lemma step_wf {Msg : Type} (marshal : Msg -> option (list byte)) a x c :
  wellFormed x ->
  wellFormed (snd (fst (step marshal a x c)))
  /\ cfg (snd (fst (step marshal a x c))) = cfg x.
Proof.
  intros W. destruct c as [o protoSpans|o]; cbn [step].
  - unfold ExportSpans.
    destruct (_ =? _); [now split|].
    destruct (marshalSpans marshal protoSpans) as [e|buf]; [now split|].
    destruct (prepareOutputFp a o x (len buf)) as [[err x1] ev1] eqn:Ep.
    destruct (prepareOutputFp_wf a o x (len buf) err x1 ev1 W Ep) as [W1 C1].
    destruct err; [now split|].
    destruct (outputFp x1); [|now split].
    destruct (write_short o); cbn [fst snd]; split;
      (apply set_written_wf, W1) || exact C1.
  - unfold Shutdown.
    destruct (closeOutputFile o x) as [[err0 x0] ev0] eqn:E0.
    destruct (closeOutputFile_wf o x err0 x0 ev0 W E0) as (W0 & _ & C0 & _).
    destruct (closeOutputFolder o x0). now split.
Qed.

Lemma newExporter_wf c : wellFormed (newExporter c).
Proof.
  unfold wellFormed, newExporter, outputHourMask, outputSnBoundary. cbn.
  repeat split; auto; lia.
Qed.

Lemma run_wf {Msg : Type} (marshal : Msg -> option (list byte)) a calls :
  forall x, wellFormed x ->
  wellFormed (fst (run marshal a x calls)) /\ cfg (fst (run marshal a x calls)) = cfg x.
Proof.
  induction calls as [|c rest IH]; intros x W; [now split|].
  cbn [run]. destruct (step_wf marshal a x c W) as [W1 C1].
  destruct (step marshal a x c) as [[err x1] ev1]. cbn [fst snd] in *.
  destruct (IH x1 W1) as [W2 C2].
  destruct (run marshal a x1 rest) as [x2 ev2]. cbn [fst] in *.
  split; [assumption|congruence].
Qed.

(** X11.  Whatever calls of [ExportSpans] and [Shutdown] are made on a new
    exporter, whatever the operating system answers and whatever the clock
    reads, the exporter stays well formed: its configuration is the one it
    was built with, the hour is within the 24-bit mask, the folder is the one
    of that hour with its index inside, an open file is the file of the
    current serial number in that folder, and the serial number stays within
    [0, 0x7FFFFFFE], so its int32 increment never overflows. *)
Theorem exporter_stays_well_formed {Msg : Type}
    (marshal : Msg -> option (list byte)) (a : arch) (c : Config)
    (calls : list (call Msg)) :
  let x := fst (run marshal a (newExporter c) calls) in
  wellFormed x /\ cfg x = c /\ 0 <= outputSn x <= 0x7FFFFFFE.
Proof.
  cbv zeta.
  destruct (run_wf marshal a calls (newExporter c) (newExporter_wf c)) as [W C].
  split; [exact W|]. split; [exact C|].
  destruct W as (_ & _ & Hfp). unfold outputSnBoundary in Hfp.
  destruct (outputFp _); [destruct Hfp as (_ & ? & _)|]; lia.
Qed.

(** ** No segment file is created twice *)

Lemma string_app_assoc (s1 s2 s3 : string) :
  ((s1 ++ s2) ++ s3 = s1 ++ (s2 ++ s3))%string.
Proof. induction s1 as [|c s1 IH]; cbn; [reflexivity|now rewrite IH]. Qed.

Lemma string_app_inj_length (a b c d : string) :
  String.length a = String.length b ->
  (a ++ c = b ++ d)%string -> a = b /\ c = d.
Proof.
  revert b. induction a as [|x a IH]; intros [|y b] L; try discriminate L; cbn.
  - auto.
  - intros [= -> H]. destruct (IH b) as [-> ->]; auto.
Qed.

Lemma fileName_length sn :
  0 <= sn <= outputSnBoundary ->
  String.length (makeOutputFileName sn) = (if sn <=? 0xFFFF then 4%nat else 7%nat).
Proof.
  unfold outputSnBoundary, makeOutputFileName. intros Hsn.
  destruct (Z.gtb_spec sn 0xFFFF), (Z.leb_spec sn 0xFFFF); try lia.
  - pose proof (b32EncodeToString_length (BigEndian.PutUint32 (toUint32 sn)) _ eq_refl) as L.
    unfold BigEndian.PutUint32 in *. rewrite length_rev, length_le_split in L. lia.
  - pose proof (b32EncodeToString_length (BigEndian.PutUint16 (toUint16 sn)) _ eq_refl) as L.
    unfold BigEndian.PutUint16 in *. rewrite length_rev, length_le_split in L. lia.
Qed.

Lemma fileName_inj sn1 sn2 :
  0 <= sn1 <= outputSnBoundary -> 0 <= sn2 <= outputSnBoundary ->
  makeOutputFileName sn1 = makeOutputFileName sn2 -> sn1 = sn2.
Proof.
  intros H1 H2 Heq.
  pose proof (fileName_length sn1 H1) as L1.
  pose proof (fileName_length sn2 H2) as L2.
  rewrite Heq in L1. rewrite L1 in L2. clear L1.
  unfold outputSnBoundary in *. revert Heq. unfold makeOutputFileName.
  destruct (Z.gtb_spec sn1 0xFFFF) as [G1|G1], (Z.gtb_spec sn2 0xFFFF) as [G2|G2];
    destruct (Z.leb_spec sn1 0xFFFF) as [G3|G3], (Z.leb_spec sn2 0xFFFF) as [G4|G4];
    try lia; try discriminate L2; intros Heq;
    (apply b32EncodeToString_inj in Heq;
     [|unfold BigEndian.PutUint32, BigEndian.PutUint16;
       now rewrite !length_rev, !length_le_split]);
    apply rev_inj, le_split_inj in Heq; unfold toUint32, toUint16 in *;
    rewrite ?Z.mod_small in * by lia; simpl; lia.
Qed.

Lemma segmentPath_inj base h1 sn1 h2 sn2 :
  0 <= h1 <= outputHourMask -> 0 <= h2 <= outputHourMask ->
  0 <= sn1 <= outputSnBoundary -> 0 <= sn2 <= outputSnBoundary ->
  segmentPath base h1 sn1 = segmentPath base h2 sn2 -> h1 = h2 /\ sn1 = sn2.
Proof.
  intros H1 H2 S1 S2. unfold segmentPath, makeOutputFolderPath, pathJoin.
  rewrite !string_app_assoc. intros E.
  apply append_inj_l in E. apply append_inj_l in E.
  apply string_app_inj_length in E; [|now rewrite !folderName_length].
  destruct E as [Ef En]. apply append_inj_l in En.
  split; [now apply folderName_inj | now apply fileName_inj].
Qed.

Lemma older_same x x' p :
  cfg x' = cfg x -> outputHour x' = outputHour x -> limitSn x' = limitSn x ->
  older x p -> older x' p.
Proof.
  intros C H L (h & sn & -> & Hh & Hs & D). exists h, sn.
  rewrite C, H, L. auto.
Qed.

Lemma tracks_same x x' paths :
  cfg x' = cfg x -> outputHour x' = outputHour x -> limitSn x' = limitSn x ->
  outputFolderPath x' = outputFolderPath x ->
  tracks x paths -> tracks x' paths.
Proof.
  intros C H L P (N & F & O). split; [assumption|]. split.
  - rewrite P. exact F.
  - eapply Forall_impl; [|exact O]. intros p. now apply older_same.
Qed.

Lemma closeOutputFile_tracks o x err x1 ev paths :
  wellFormed x -> tracks x paths -> closeOutputFile o x = (err, x1, ev) ->
  tracks x1 paths.
Proof.
  intros W T E.
  destruct (closeOutputFile_wf o x err x1 ev W E) as (_ & F & C & H & P & S & _).
  apply (tracks_same x); try assumption.
  unfold limitSn. rewrite F, S. now destruct (outputFp x).
Qed.

Lemma prepareOutputFolder_tracks o x h x1 ev paths :
  wellFormed x -> outputFp x = None -> 0 <= h <= outputHourMask ->
  tracks x paths -> paths = [] \/ outputHour x < h ->
  prepareOutputFolder o x h = (None, x1, ev) ->
  tracks x1 paths.
Proof.
  intros W F Hr (N & Fo & O) D E.
  destruct (prepareOutputFolder_wf o x h None x1 ev W F Hr E)
    as (F1 & C1 & _ & _ & H1 & S1 & P1).
  split; [assumption|]. split; [auto|].
  destruct D as [->|D]; [constructor|].
  eapply Forall_impl; [|exact O].
  intros p (h' & sn & -> & Hh & Hs & L). exists h', sn. rewrite C1, H1.
  repeat split; try assumption; lia.
Qed.

Lemma openOutputFile_tracks o x err x1 ev paths :
  wellFormed x -> outputFp x = None -> outputFolderPath x <> ""%string ->
  tracks x paths -> openOutputFile o x = (err, x1, ev) ->
  tracks x1 (paths ++ created ev).
Proof.
  intros W F P T E.
  destruct (openOutputFile_wf o x err x1 ev W F P E)
    as (W1 & C1 & H1 & S1 & P1 & [[-> K]|(_ & F1 & K & R)]); rewrite K.
  - now rewrite app_nil_r.
  - destruct T as (N & Fo & O). pose proof W as (Hh & _).
    assert (L : limitSn x = outputSn x) by (unfold limitSn; now rewrite F).
    assert (L1 : limitSn x1 = outputSn x + 1)
      by (unfold limitSn; rewrite F1; lia).
    split; [|split].
    + apply NoDup_app; [assumption|repeat constructor; intros []|].
      intros p Hin [<-|[]].
      rewrite Forall_forall in O. destruct (O _ Hin) as (h & sn & E' & Hh' & Hs' & D).
      apply segmentPath_inj in E' as [<- <-]; try assumption.
      destruct D as [D|[_ D]]; lia.
    + intros _. congruence.
    + apply Forall_app. split.
      * eapply Forall_impl; [|exact O].
        intros p (h & sn & -> & Hh' & Hs' & D). exists h, sn. rewrite C1, H1, L1.
        repeat split; try assumption; lia.
      * constructor; [|constructor].
        exists (outputHour x), (outputSn x). rewrite C1, H1, L1.
        repeat split; try assumption; lia.
Qed.

Lemma rotateOutput_tracks a o x recordSize paths :
  wellFormed x -> tracks x paths ->
  outputHour x <= hourBucket (now_prepare o) ->
  match rotateOutput a o x recordSize with
  | inl (_, x1, _) => tracks x1 paths /\ outputHour x1 <= hourBucket (now_prepare o)
  | inr (x1, _) => tracks x1 paths /\ outputHour x1 <= hourBucket (now_prepare o)
  end.
Proof.
  intros W T Hm. unfold rotateOutput.
  destruct (closeOutputFile o x) as [[err0 x0] ev0] eqn:E0.
  pose proof (closeOutputFile_tracks o x err0 x0 ev0 paths W T E0) as T0.
  destruct (closeOutputFile_wf o x err0 x0 ev0 W E0)
    as (W0 & F0 & C0 & H0 & P0 & S0 & K0).
  pose proof (hourBucket_range (now_prepare o)) as Hr.
  destruct (Z.eqb_spec (hourBucket (now_prepare o)) (outputHour x)) as [Eh|Eh].
  - destruct (_ && _); [now split|].
    destruct err0; [split; [assumption|lia]|].
    destruct (String.eqb_spec (outputFolderPath x0) "") as [Ee|Ee];
      [|split; [assumption|lia]].
    destruct (prepareOutputFolder o x0 _) as [[err2 x2] ev2] eqn:E2.
    destruct (prepareOutputFolder_wf o x0 _ err2 x2 ev2 W0 F0 Hr E2)
      as (F2 & C2 & K2 & M2).
    destruct err2.
    + subst x2. split; [assumption|lia].
    + destruct M2 as (_ & H2 & _). split; [|lia].
      apply (prepareOutputFolder_tracks o x0 _ x2 ev2 paths W0 F0 Hr T0); [|exact E2].
      left. destruct paths as [|p paths]; [reflexivity|].
      destruct T0 as (_ & Fo & _). exfalso. apply Fo; [discriminate|exact Ee].
  - destruct (closeOutputFolder o x0) as [err1 ev1] eqn:E1.
    destruct (joinErrors _ _); [split; [assumption|lia]|].
    destruct (prepareOutputFolder o x0 _) as [[err2 x2] ev2] eqn:E2.
    destruct (prepareOutputFolder_wf o x0 _ err2 x2 ev2 W0 F0 Hr E2)
      as (F2 & C2 & K2 & M2).
    destruct err2.
    + subst x2. split; [assumption|lia].
    + destruct M2 as (_ & H2 & _).
      destruct (purgeRecentExpiredOutputFolders o x2) as [e3 ev3].
      split; [|lia].
      apply (prepareOutputFolder_tracks o x0 _ x2 ev2 paths W0 F0 Hr T0); [|exact E2].
      right. lia.
Qed.

Lemma prepareOutputFp_tracks a o x recordSize paths err x1 ev :
  wellFormed x -> tracks x paths ->
  outputHour x <= hourBucket (now_prepare o) ->
  prepareOutputFp a o x recordSize = (err, x1, ev) ->
  tracks x1 (paths ++ created ev)
  /\ outputHour x1 <= hourBucket (now_prepare o).
Proof.
  intros W T Hm. unfold prepareOutputFp.
  pose proof (rotateOutput_tracks a o x recordSize paths W T Hm) as R.
  pose proof (rotateOutput_wf a o x recordSize W) as Rw.
  destruct (rotateOutput a o x recordSize) as [[[err' x'] ev']|[x' ev']].
  - intros [= <- <- <-]. destruct Rw as (_ & _ & ->). now rewrite app_nil_r.
  - destruct R as [T' H']. destruct Rw as (W' & C' & K' & F' & N').
    destruct (openOutputFile o x') as [[err2 x2] ev2] eqn:E2.
    pose proof (openOutputFile_tracks o x' err2 x2 ev2 paths W' F' N' T' E2) as T2.
    destruct (openOutputFile_wf o x' err2 x2 ev2 W' F' N' E2) as (_ & _ & H2 & _).
    intros [= <- <- <-]. rewrite created_app, K'. cbn [app].
    split; [assumption|lia].
Qed.

Lemma step_tracks {Msg : Type} (marshal : Msg -> option (list byte)) a x c
    paths lo :
  wellFormed x -> tracks x paths -> outputHour x <= lo ->
  clockMonotone lo [c] ->
  let '(_, x1, ev) := step marshal a x c in
  tracks x1 (paths ++ created ev)
  /\ outputHour x1 <= match c with
                      | CallExport o _ => hourBucket (now_prepare o)
                      | CallShutdown _ => lo
                      end.
Proof.
  intros W T Hlo Hc. destruct c as [o protoSpans|o]; cbn [step].
  - destruct Hc as [Hc _]. unfold ExportSpans.
    destruct (_ =? _); [rewrite app_nil_r; split; [assumption|lia]|].
    destruct (marshalSpans marshal protoSpans) as [e|buf];
      [rewrite app_nil_r; split; [assumption|lia]|].
    destruct (prepareOutputFp a o x (len buf)) as [[err x1] ev1] eqn:Ep.
    destruct (prepareOutputFp_tracks a o x (len buf) paths err x1 ev1 W T
                ltac:(lia) Ep) as [T1 H1].
    destruct err; [now split|].
    destruct (outputFp x1) as [fp|] eqn:Efp; [|now split].
    destruct (write_short o); cbn [fst snd]; split; try assumption;
      rewrite created_app; cbn [created flat_map app]; rewrite app_nil_r;
      (apply (tracks_same x1); [reflexivity|reflexivity| |reflexivity|assumption]);
      unfold limitSn; reflexivity.
  - unfold Shutdown.
    destruct (closeOutputFile o x) as [[err0 x0] ev0] eqn:E0.
    pose proof (closeOutputFile_tracks o x err0 x0 ev0 paths W T E0) as T0.
    destruct (closeOutputFile_wf o x err0 x0 ev0 W E0) as (_ & _ & _ & H0 & _ & _ & K0).
    destruct (closeOutputFolder o x0) as [err1 ev1] eqn:E1.
    rewrite created_app, K0, (closeOutputFolder_created o x0 err1 ev1 E1), app_nil_r.
    split; [assumption|lia].
Qed.

Lemma run_tracks {Msg : Type} (marshal : Msg -> option (list byte)) a calls :
  forall x paths lo,
    wellFormed x -> tracks x paths -> outputHour x <= lo ->
    clockMonotone lo calls ->
    tracks (fst (run marshal a x calls))
      (paths ++ created (snd (run marshal a x calls))).
Proof.
  induction calls as [|c rest IH]; intros x paths lo W T Hlo Hc.
  - cbn. now rewrite app_nil_r.
  - cbn [run].
    assert (Hc1 : clockMonotone lo [c])
      by (destruct c; cbn in *; tauto).
    pose proof (step_tracks marshal a x c paths lo W T Hlo Hc1) as S.
    destruct (step_wf marshal a x c W) as [W1 _].
    destruct (step marshal a x c) as [[err x1] ev1]. cbn [fst snd] in *.
    destruct S as [T1 H1].
    assert (R : exists lo', outputHour x1 <= lo' /\ clockMonotone lo' rest).
    { destruct c; cbn in Hc; eexists; split; try exact H1; tauto. }
    destruct R as (lo' & Hlo' & Hc').
    specialize (IH x1 (paths ++ created ev1) lo' W1 T1 Hlo' Hc').
    destruct (run marshal a x1 rest) as [x2 ev2]. cbn [fst snd] in *.
    now rewrite created_app, app_assoc.
Qed.

(** X12.  In a run of calls on a new exporter during which the hour bucket
    read by the clock never goes back, no segment file is created twice,
    whatever fails in between: every creation (which truncates the file) is
    of a path that no earlier call has created, so a file, once closed, is
    never overwritten. *)
Theorem no_segment_file_created_twice {Msg : Type}
    (marshal : Msg -> option (list byte)) (a : arch) (c : Config)
    (calls : list (call Msg)) :
  clockMonotone 0 calls ->
  NoDup (created (snd (run marshal a (newExporter c) calls))).
Proof.
  intros Hc.
  assert (T0 : tracks (newExporter c) []).
  { split; [constructor|]. split; [congruence|constructor]. }
  destruct (run_tracks marshal a calls (newExporter c) [] 0
              (newExporter_wf c) T0 ltac:(cbn; lia) Hc) as (N & _).
  exact N.
Qed.

Lemma no_segment_file_created_twice_witness :
  NoDup (created (snd (run Some Arch64 (newExporter sampleConfig) sampleCalls))).
Proof.
  apply (no_segment_file_created_twice Some Arch64 sampleConfig sampleCalls).
  vm_compute. repeat split; discriminate.
Defined.

Example clock_going_back_overwrites :
  created (snd (run Some Arch64 (newExporter sampleConfig)
                  [CallExport (calm (sampleNow + 3600)) sampleSpans;
                   CallExport (calm sampleNow) sampleSpans;
                   CallExport (calm (sampleNow + 3600)) sampleSpans]))
  = ["spool/0ssgi/0000"; "spool/0ssgg/0000"; "spool/0ssgi/0000"]%string.
Proof. vm_compute. reflexivity. Qed.

(** ** Replay of what a run has written *)

Lemma completeBatches_app {Msg : Type} a (unmarshal : list byte -> option Msg)
    fp1 ups1 fp2 ups2 :
  completeBatches a unmarshal fp1 ups1 -> completeBatches a unmarshal fp2 ups2 ->
  completeBatches a unmarshal (fp1 ++ fp2) (ups1 ++ ups2).
Proof.
  intros B1 B2. induction B1 as [|n body recs fp uploads Hn Hb _ IH];
    [exact B2|].
  pose proof (batches_cons a unmarshal n body recs _ _ Hn Hb IH) as B.
  rewrite <- !app_assoc. destruct recs; exact B.
Qed.

Lemma marshalSpans_body {Msg : Type} a (marshal : Msg -> option (list byte))
    (unmarshal : list byte -> option Msg) protoSpans :
  protoSpans <> [] -> len protoSpans < countLimit a ->
  (forall m, In m protoSpans ->
     exists payload, framable a marshal unmarshal m payload) ->
  exists body,
    marshalSpans marshal protoSpans
      = inr (LittleEndian.PutUint32 (len protoSpans) ++ body)
    /\ completeRecords a unmarshal (len protoSpans) body protoSpans.
Proof.
  intros Hne Hlen Hall. pose proof (frameLimit_le a).
  pose proof (countLimit_le a).
  assert (0 < len protoSpans)
    by (destruct protoSpans; [congruence | unfold len; simpl List.length; lia]).
  destruct (marshalLoop_frames a marshal unmarshal protoSpans 0
              (LittleEndian.PutUint32 (toUint32 (len protoSpans))) Hall)
    as (payloads & F & E & C).
  eexists. split; [|exact C].
  unfold marshalSpans. destruct (Z.eqb_spec (len protoSpans) 0); [lia|].
  rewrite E. unfold toUint32. now rewrite Z.mod_small by lia.
Qed.

Lemma marshalSpans_batch {Msg : Type} a (marshal : Msg -> option (list byte))
    (unmarshal : list byte -> option Msg) protoSpans :
  protoSpans <> [] -> len protoSpans < countLimit a ->
  (forall m, In m protoSpans ->
     exists payload, framable a marshal unmarshal m payload) ->
  exists buf, marshalSpans marshal protoSpans = inr buf
              /\ completeBatches a unmarshal buf [protoSpans].
Proof.
  intros Hne Hlen Hall.
  destruct (marshalSpans_body a marshal unmarshal protoSpans Hne Hlen Hall)
    as (body & E & C).
  eexists. split; [exact E|].
  assert (0 <= len protoSpans) by (unfold len; lia).
  pose proof (batches_cons a unmarshal (len protoSpans) _ protoSpans [] []
                ltac:(lia) C (batches_none a unmarshal)) as B.
  rewrite app_nil_r in B. destruct protoSpans; [congruence | exact B].
Qed.

Lemma written_app p ev1 ev2 : written p (ev1 ++ ev2) = written p ev1 ++ written p ev2.
Proof. unfold written. now rewrite flat_map_app. Qed.

Lemma written_no_write p evs : filter isWrite evs = [] -> written p evs = [].
Proof.
  induction evs as [|ev evs IH]; [reflexivity|].
  cbn [filter]. destruct ev; cbn [isWrite]; try discriminate; exact IH.
Qed.

Lemma exportedTo_app {Msg : Type} p (l1 l2 : list (string * list Msg)) :
  exportedTo p (l1 ++ l2) = exportedTo p l1 ++ exportedTo p l2.
Proof. unfold exportedTo. now rewrite filter_app, map_app. Qed.

Lemma Shutdown_no_write o x : filter isWrite (snd (Shutdown o x)) = [].
Proof.
  unfold Shutdown.
  destruct (closeOutputFile o x) as [[err0 x0] ev0] eqn:E0.
  apply closeOutputFile_post in E0 as (_ & _ & _ & _ & I0 & _).
  destruct (closeOutputFolder o x0) as [err1 ev1] eqn:E1.
  apply closeOutputFolder_post in E1 as (I1 & _).
  cbn [snd]. apply no_io_no_write. now rewrite filter_app, I0, I1.
Qed.

Lemma step_written {Msg : Type} a (marshal : Msg -> option (list byte))
    (unmarshal : list byte -> option Msg) p x c err x1 ev :
  wholeCall a marshal unmarshal c ->
  step marshal a x c = (err, x1, ev) ->
  completeBatches a unmarshal (written p ev)
    (exportedTo p
       match c, filter isWrite ev with
       | CallExport _ protoSpans, EvWrite fp _ _ :: _ => [(fp, protoSpans)]
       | _, _ => []
       end).
Proof.
  destruct c as [o protoSpans|o]; cbn [step wholeCall].
  - intros (Hw & Hlen & Hall). unfold ExportSpans.
    destruct (Z.eqb_spec (len protoSpans) 0) as [E0|E0];
      [intros [= <- <- <-]; constructor|].
    assert (Hne : protoSpans <> []) by (intros ->; now apply E0).
    destruct (marshalSpans_batch a marshal unmarshal protoSpans Hne Hlen Hall)
      as (buf & -> & B).
    destruct (prepareOutputFp a o x (len buf)) as [[err' x'] ev1] eqn:Ep.
    apply prepareOutputFp_post in Ep as [W _].
    destruct err';
      [intros [= <- <- <-]; rewrite W, written_no_write by exact W; constructor|].
    destruct (outputFp x') as [fp|];
      [|intros [= <- <- <-]; rewrite W, written_no_write by exact W; constructor].
    rewrite Hw. intros [= <- <- <-].
    rewrite filter_app, W, written_app, written_no_write by exact W.
    unfold exportedTo, written.
    cbn [filter isWrite app flat_map fst].
    destruct (fp =? p)%string; cbn [map snd]; rewrite ?app_nil_r;
      [exact B|constructor].
  - intros _ E. pose proof (Shutdown_no_write o x) as N. rewrite E in N.
    cbn [snd] in N. rewrite written_no_write by exact N. constructor.
Qed.

Lemma run_written {Msg : Type} a (marshal : Msg -> option (list byte))
    (unmarshal : list byte -> option Msg) p calls :
  Forall (wholeCall a marshal unmarshal) calls ->
  forall x,
    completeBatches a unmarshal (written p (snd (run marshal a x calls)))
      (exportedTo p (exports marshal a x calls)).
Proof.
  induction 1 as [|c rest Hc _ IH]; intros x; [constructor|].
  cbn [run exports].
  destruct (step marshal a x c) as [[err x1] ev1] eqn:E.
  pose proof (step_written a marshal unmarshal p x c err x1 ev1 Hc E) as S.
  specialize (IH x1). destruct (run marshal a x1 rest) as [x2 ev2].
  cbn [snd] in *. rewrite written_app, exportedTo_app.
  now apply completeBatches_app.
Qed.

Lemma run_replay {Msg : Type} a (marshal : Msg -> option (list byte))
    (unmarshal : list byte -> option Msg) (UploadTraces : list Msg -> bool)
    fs x calls p uploaded :
  Forall (wholeCall a marshal unmarshal) calls ->
  fs p = Some (written p (snd (run marshal a x calls))) ->
  ImportTraceFile a unmarshal UploadTraces fs p uploaded
  = (Done tt, uploaded ++ exportedTo p (exports marshal a x calls)).
Proof.
  intros H E. unfold ImportTraceFile. rewrite E.
  pose proof (run_written a marshal unmarshal p calls H x) as B.
  pose proof (importBatches_complete a unmarshal UploadTraces _ _ B
                (S (List.length (written p (snd (run marshal a x calls)))))
                1%nat [] uploaded) as I.
  rewrite app_nil_r in I. rewrite I by (simpl; lia). reflexivity.
Qed.

(** X13.  Export and replay compose over the file system.  In a run of
    calls, from any exporter, in which no write is cut short and every span
    can be marshalled into a payload that is not empty and unmarshals back,
    replaying what the run has written to a file [p] ends without error and
    uploads exactly the batches the run has handed to [Write] for [p], in
    the order of the calls, whatever else fails in the run. *)
Theorem exported_files_replay {Msg : Type} (a : arch)
    (marshal : Msg -> option (list byte)) (unmarshal : list byte -> option Msg)
    (UploadTraces : list Msg -> bool) (x : FilesTraceExporter)
    (calls : list (call Msg)) (p : string) (uploaded : list (list Msg)) :
  Forall (wholeCall a marshal unmarshal) calls ->
  ImportTraceFile a unmarshal UploadTraces
    (fun q => Some (written q (snd (run marshal a x calls)))) p uploaded
  = (Done tt, uploaded ++ exportedTo p (exports marshal a x calls)).
Proof.
  intros H. now apply run_replay.
Qed.

Lemma sampleCalls_whole : Forall (wholeCall Arch64 Some Some) sampleCalls.
Proof.
  assert (W : forall t, wholeCall Arch64 Some Some (CallExport (calm t) sampleSpans)).
  { intros t. split; [reflexivity|]. split; [reflexivity|].
    intros m [<-|[]]. exists [Byte.x2a]. repeat split; reflexivity. }
  constructor; [apply W|]. constructor; [exact I|].
  constructor; [apply W|]. constructor; [apply W|constructor].
Defined.

Lemma exported_files_replay_witness :
  ImportTraceFile Arch64 Some (fun _ => false)
    (fun q => Some (written q (snd (run Some Arch64 (newExporter sampleConfig)
                                      sampleCalls))))
    "spool/0ssgg/000g" []
  = (Done tt,
     [] ++ exportedTo "spool/0ssgg/000g"
             (exports Some Arch64 (newExporter sampleConfig) sampleCalls)).
Proof.
  apply (exported_files_replay Arch64 Some Some (fun _ => false)
           (newExporter sampleConfig) sampleCalls).
  exact sampleCalls_whole.
Defined.

Example sampleCalls_exports :
  exports Some Arch64 (newExporter sampleConfig) sampleCalls
  = [("spool/0ssgg/0000", sampleSpans); ("spool/0ssgg/000g", sampleSpans);
     ("spool/0ssgi/0000", sampleSpans)]%string.
Proof. vm_compute. reflexivity. Qed.

(** ** Nothing written is truncated away *)

Lemma fileContent_orderly p evs : forall seen content,
  orderly seen evs -> (~ In p seen -> content = []) ->
  fileContent p evs content = content ++ written p evs.
Proof.
  induction evs as [|ev evs IH]; intros seen content O H;
    [cbn; now rewrite app_nil_r|].
  destruct ev as [| | | | | |p' ok|p' w ok];
    try (exact (IH seen content O H)).
  - destruct ok; [|exact (IH seen content O H)].
    destruct O as [N O]. cbn [fileContent].
    change (written p (EvCreate p' true :: evs)) with (written p evs).
    destruct (String.eqb_spec p' p) as [->|Hp].
    + rewrite (H N). apply (IH (p :: seen)); [exact O|].
      intros C. exfalso. apply C. now left.
    + apply (IH (p' :: seen)); [exact O|].
      intros C. apply H. intros I. apply C. now right.
  - destruct O as [I O]. cbn [fileContent].
    change (written p (EvWrite p' w ok :: evs))
      with ((if (p' =? p)%string then w else []) ++ written p evs).
    destruct (String.eqb_spec p' p) as [->|Hp].
    + rewrite app_assoc. apply (IH seen); [exact O|]. intros C. contradiction.
    + apply (IH seen); assumption.
Qed.

Lemma orderly_ext evs : forall seen seen',
  (forall p, In p seen <-> In p seen') -> orderly seen evs -> orderly seen' evs.
Proof.
  induction evs as [|ev evs IH]; intros seen seen' H O; [exact I|].
  destruct ev as [| | | | | |p' ok|p' w ok];
    try (exact (IH seen seen' H O)).
  - destruct ok; [|exact (IH seen seen' H O)].
    destruct O as [N O]. split; [now rewrite <- H|].
    apply (IH (p' :: seen)); [|exact O].
    intros p. cbn [In]. now rewrite H.
  - destruct O as [I O]. split; [now apply H|]. now apply (IH seen).
Qed.

Lemma orderly_app ev1 : forall seen ev2,
  orderly seen ev1 -> orderly (seen ++ created ev1) ev2 ->
  orderly seen (ev1 ++ ev2).
Proof.
  induction ev1 as [|ev ev1 IH]; intros seen ev2 O1 O2;
    [cbn in O2; now rewrite app_nil_r in O2|].
  destruct ev as [| | | | | |p' ok|p' w ok];
    try (exact (IH seen ev2 O1 O2)).
  - destruct ok; [|exact (IH seen ev2 O1 O2)].
    destruct O1 as [N O1]. split; [exact N|].
    apply IH; [exact O1|].
    apply (orderly_ext ev2 (seen ++ created (EvCreate p' true :: ev1)));
      [|exact O2].
    intros p. cbn [created flat_map app]. rewrite !in_app_iff. cbn [In].
    rewrite in_app_iff. tauto.
  - destruct O1 as [I O1]. split; [exact I|]. now apply IH.
Qed.

Lemma orderly_no_write evs : forall seen,
  filter isWrite evs = [] -> NoDup (seen ++ created evs) -> orderly seen evs.
Proof.
  induction evs as [|ev evs IH]; intros seen W N; [exact I|].
  destruct ev as [| | | | | |p' ok|p' w ok];
    try (exact (IH seen W N)); [|discriminate].
  destruct ok; [|exact (IH seen W N)].
  change (created (EvCreate p' true :: evs)) with (p' :: created evs) in N.
  apply NoDup_remove in N as [N1 N2]. split.
  - intros C. apply N2. apply in_app_iff. now left.
  - apply IH; [exact W|]. cbn [app]. now constructor.
Qed.

(** The file that is open after [prepareOutputFp] was open before or has
    just been created. *)
Lemma prepareOutputFp_open a o x recordSize err x1 ev fp :
  prepareOutputFp a o x recordSize = (err, x1, ev) ->
  outputFp x1 = Some fp ->
  outputFp x = Some fp \/ In fp (created ev).
Proof.
  unfold prepareOutputFp.
  destruct (rotateOutput a o x recordSize) as [[[err' x'] ev']|[x' ev']] eqn:E.
  - intros [= <- <- <-] Efp.
    apply rotateOutput_return in E as [(_ & -> & _)|(F & _)];
      [now left|congruence].
  - apply rotateOutput_fall_through in E as (F & _ & _).
    unfold openOutputFile.
    destruct (_ >? _); [intros [= <- <- <-]; congruence|].
    destruct (create_ok o); intros [= <- <- <-]; [|congruence].
    cbn [set_opened outputFp]. intros [= <-]. right.
    rewrite created_app. apply in_app_iff. right. now left.
Qed.

Lemma step_orderly {Msg : Type} (marshal : Msg -> option (list byte)) a x c
    paths lo :
  wellFormed x -> tracks x paths -> outputHour x <= lo ->
  clockMonotone lo [c] ->
  (forall fp, outputFp x = Some fp -> In fp paths) ->
  let '(_, x1, ev) := step marshal a x c in
  orderly paths ev
  /\ (forall fp, outputFp x1 = Some fp -> In fp (paths ++ created ev)).
Proof.
  intros W T Hlo Hc Hfp.
  pose proof (step_tracks marshal a x c paths lo W T Hlo Hc) as S.
  destruct c as [o protoSpans|o]; cbn [step] in *.
  - destruct Hc as [Hc _]. revert S. unfold ExportSpans.
    destruct (_ =? _);
      [intros _; split; [exact I|now rewrite app_nil_r]|].
    destruct (marshalSpans marshal protoSpans) as [e|buf];
      [intros _; split; [exact I|now rewrite app_nil_r]|].
    destruct (prepareOutputFp a o x (len buf)) as [[err x1] ev1] eqn:Ep.
    destruct (prepareOutputFp_tracks a o x (len buf) paths err x1 ev1 W T
                ltac:(lia) Ep) as [(N1 & _) _].
    pose proof (prepareOutputFp_post a o x (len buf) err x1 ev1 Ep) as [W1 _].
    pose proof (orderly_no_write ev1 paths W1 N1) as O1.
    assert (B1 : forall fp, outputFp x1 = Some fp -> In fp (paths ++ created ev1)).
    { intros fp Efp. apply in_app_iff.
      destruct (prepareOutputFp_open a o x (len buf) err x1 ev1 fp Ep Efp);
        [left; now apply Hfp|now right]. }
    destruct err; [intros _; now split|].
    destruct (outputFp x1) as [fp|] eqn:Efp; [|intros _; split; [exact O1|congruence]].
    assert (K : forall w ok, created (ev1 ++ [EvWrite fp w ok]) = created ev1)
      by (intros w ok; rewrite created_app; cbn; now rewrite app_nil_r).
    destruct (write_short o); intros _; cbn [set_written outputFp]; rewrite K;
      (split; [|intros fp' E'; apply B1; congruence]);
      (apply orderly_app; [exact O1|]); (split; [now apply B1|exact I]).
  - revert S. unfold Shutdown.
    destruct (closeOutputFile o x) as [[err0 x0] ev0] eqn:E0.
    destruct (closeOutputFile_wf o x err0 x0 ev0 W E0) as (_ & _ & _ & _ & _ & _ & K0).
    pose proof (closeOutputFile_post o x err0 x0 ev0 E0) as (F0 & _ & _ & _ & I0 & _).
    destruct (closeOutputFolder o x0) as [err1 ev1] eqn:E1.
    pose proof (closeOutputFolder_post o x0 err1 ev1 E1) as (I1 & _).
    intros [(N & _) _]. split; [|congruence].
    apply orderly_no_write; [|exact N].
    apply no_io_no_write. now rewrite filter_app, I0, I1.
Qed.

Lemma run_orderly {Msg : Type} (marshal : Msg -> option (list byte)) a calls :
  forall x paths lo,
    wellFormed x -> tracks x paths -> outputHour x <= lo ->
    clockMonotone lo calls ->
    (forall fp, outputFp x = Some fp -> In fp paths) ->
    orderly paths (snd (run marshal a x calls)).
Proof.
  induction calls as [|c rest IH]; intros x paths lo W T Hlo Hc Hfp; [exact I|].
  cbn [run].
  assert (Hc1 : clockMonotone lo [c])
    by (destruct c; cbn in *; tauto).
  pose proof (step_tracks marshal a x c paths lo W T Hlo Hc1) as S.
  pose proof (step_orderly marshal a x c paths lo W T Hlo Hc1 Hfp) as O.
  destruct (step_wf marshal a x c W) as [W1 _].
  destruct (step marshal a x c) as [[err x1] ev1]. cbn [fst snd] in *.
  destruct S as [T1 H1]. destruct O as [O1 B1].
  assert (R : exists lo', outputHour x1 <= lo' /\ clockMonotone lo' rest).
  { destruct c; cbn in Hc; eexists; split; try exact H1; tauto. }
  destruct R as (lo' & Hlo' & Hc').
  specialize (IH x1 (paths ++ created ev1) lo' W1 T1 Hlo' Hc' B1).
  destruct (run marshal a x1 rest) as [x2 ev2]. cbn [fst snd] in *.
  now apply orderly_app.
Qed.

(** X14.  In a run of calls on a new exporter during which the hour bucket
    read by the clock never goes back, every write goes to a file that the
    run has created before, and no creation truncates a file that holds
    bytes: the content of every segment file (as long as its folder is not
    removed) is all that the run has written to it, in order, whatever
    fails in between. *)
Theorem nothing_written_is_truncated {Msg : Type}
    (marshal : Msg -> option (list byte)) (a : arch) (c : Config)
    (calls : list (call Msg)) (p : string) :
  clockMonotone 0 calls ->
  let evs := snd (run marshal a (newExporter c) calls) in
  orderly [] evs /\ fileContent p evs [] = written p evs.
Proof.
  intros Hc evs.
  assert (T0 : tracks (newExporter c) []).
  { split; [constructor|]. split; [congruence|constructor]. }
  assert (O : orderly [] evs).
  { apply (run_orderly marshal a calls (newExporter c) [] 0
             (newExporter_wf c) T0 ltac:(cbn; lia) Hc).
    cbn. discriminate. }
  split; [exact O|].
  now apply (fileContent_orderly p evs [] []).
Qed.

Lemma nothing_written_is_truncated_witness :
  orderly [] (snd (run Some Arch64 (newExporter sampleConfig) sampleCalls))
  /\ fileContent "spool/0ssgg/000g"
       (snd (run Some Arch64 (newExporter sampleConfig) sampleCalls)) []
     = written "spool/0ssgg/000g"
         (snd (run Some Arch64 (newExporter sampleConfig) sampleCalls)).
Proof.
  apply (nothing_written_is_truncated Some Arch64 sampleConfig sampleCalls).
  vm_compute. repeat split; discriminate.
Defined.

Example clock_going_back_truncates :
  let evs := snd (run Some Arch64 (newExporter sampleConfig)
                    [CallExport (calm (sampleNow + 3600)) sampleSpans;
                     CallExport (calm sampleNow) sampleSpans;
                     CallExport (calm (sampleNow + 3600)) sampleSpans]) in
  written "spool/0ssgi/0000" evs = [Byte.x01; Byte.x00; Byte.x00; Byte.x00; Byte.x01; Byte.x00; Byte.x00; Byte.x00; Byte.x2a] ++ [Byte.x01; Byte.x00; Byte.x00; Byte.x00; Byte.x01; Byte.x00; Byte.x00; Byte.x00; Byte.x2a]
  /\ fileContent "spool/0ssgi/0000" evs [] = [Byte.x01; Byte.x00; Byte.x00; Byte.x00; Byte.x01; Byte.x00; Byte.x00; Byte.x00; Byte.x2a].
Proof. vm_compute. split; reflexivity. Qed.

(** ** The replay and its uploads *)

Lemma importBatches_grows {Msg : Type} a (unmarshal : list byte -> option Msg)
    (UploadTraces : list Msg -> bool) f : forall fp uploaded,
  exists new,
    snd (importBatches a unmarshal UploadTraces f fp uploaded) = uploaded ++ new
    /\ Forall (fun batch => batch <> []) new.
Proof.
  assert (Z : forall uploaded : list (list Msg),
            exists new, uploaded = uploaded ++ new
                        /\ Forall (fun batch : list Msg => batch <> []) new)
    by (intros uploaded; exists []; now rewrite app_nil_r).
  induction f as [|f IH]; intros fp uploaded; [apply Z|].
  cbn [importBatches].
  destruct (ReadFull 4 fp) as [e|[i32buf fp1]]; [destruct e; apply Z|].
  destruct (makeslicePanics _ _ _); [apply Z|].
  destruct (readSpans _ _ _ _ _ _) as [[recs fp2]|e|]; try apply Z.
  destruct (Z.gtb_spec (len recs) 0) as [Hl|Hl]; [|apply IH].
  destruct (IH fp2 (uploaded ++ [recs])) as (new & -> & F).
  exists (recs :: new). rewrite <- app_assoc. split; [reflexivity|].
  constructor; [|exact F]. intros ->. now apply Z.lt_irrefl in Hl.
Qed.

Lemma importEntries_grows {Msg : Type} a (unmarshal : list byte -> option Msg)
    (UploadTraces : list Msg -> bool) fs folderPath entries : forall uploaded,
  fst (importEntries a unmarshal UploadTraces fs folderPath entries uploaded)
    <> Stuck
  /\ exists new,
       snd (importEntries a unmarshal UploadTraces fs folderPath entries uploaded)
         = uploaded ++ new
       /\ Forall (fun batch => batch <> []) new.
Proof.
  induction entries as [|entry rest IH]; intros uploaded.
  - split; [discriminate|]. exists []. now rewrite app_nil_r.
  - cbn [importEntries].
    destruct (IsDir entry); [apply IH|].
    destruct (hiddenName (Name entry)); [apply IH|].
    pose proof (ImportTraceFile_returns a unmarshal UploadTraces fs
                  (pathJoin folderPath (Name entry)) uploaded) as R.
    assert (G : exists new,
               snd (ImportTraceFile a unmarshal UploadTraces fs
                      (pathJoin folderPath (Name entry)) uploaded)
               = uploaded ++ new
               /\ Forall (fun batch => batch <> []) new).
    { unfold ImportTraceFile. destruct (fs _) as [fp|];
        [apply importBatches_grows|].
      exists []. now rewrite app_nil_r. }
    destruct (ImportTraceFile _ _ _ _ _ _) as [[[]|e|] uploaded'];
      cbn [fst snd] in *; [|split; [discriminate|exact G]|contradiction].
    destruct G as (new1 & -> & F1).
    destruct (IH (uploaded ++ new1)) as (S & new2 & E & F2).
    split; [exact S|]. exists (new1 ++ new2).
    rewrite E, <- app_assoc. split; [reflexivity|].
    apply Forall_app. now split.
Qed.

(** X16.  The replay of a folder comes to an end on every input: the loops
    of [ImportTraceFile] stop on every file, each round of them reading at
    least one field.  What was handed to [UploadTraces] before an error
    stays handed over, and no batch handed over is empty. *)
Theorem replay_ends_and_keeps_uploads {Msg : Type} (a : arch)
    (unmarshal : list byte -> option Msg) (UploadTraces : list Msg -> bool)
    (fs : string -> option (list byte))
    (readDir : string -> option (list DirEntry)) (folderPath : string)
    (uploaded : list (list Msg)) :
  fst (ImportTraceFolder a unmarshal UploadTraces fs readDir folderPath uploaded)
    <> Stuck
  /\ exists new,
       snd (ImportTraceFolder a unmarshal UploadTraces fs readDir folderPath
              uploaded)
         = uploaded ++ new
       /\ Forall (fun batch => batch <> []) new.
Proof.
  unfold ImportTraceFolder. destruct (readDir folderPath) as [entries|].
  - apply importEntries_grows.
  - split; [discriminate|]. exists []. now rewrite app_nil_r.
Qed.





(** ** A write cut short *)

Lemma firstn_truncatedRecords {Msg : Type} a (unmarshal : list byte -> option Msg)
    n body recs :
  completeRecords a unmarshal n body recs ->
  forall k, (k < List.length body)%nat ->
    truncatedRecords a unmarshal n (firstn k body).
Proof.
  induction 1 as [|n fp recs Hn _ IH|n payload m fp recs Hn Hp Hm _ IH];
    intros k Hk.
  - cbn in Hk. lia.
  - rewrite length_app, length_PutUint32 in Hk.
    destruct (Nat.lt_ge_cases k 4) as [H4|H4].
    + apply truncated_length; [exact Hn|]. rewrite length_firstn.
      rewrite length_app, length_PutUint32. lia.
    + rewrite firstn_app, length_PutUint32,
        (firstn_all2 (LittleEndian.PutUint32 0))
        by (rewrite length_PutUint32; lia).
      apply truncated_after_padding; [exact Hn|]. apply IH. lia.
  - unfold frame in *. rewrite <- app_assoc in *.
    rewrite !length_app, length_PutUint32 in Hk.
    destruct (Nat.lt_ge_cases k 4) as [H4|H4].
    + apply truncated_length; [exact Hn|]. rewrite length_firstn.
      rewrite !length_app, length_PutUint32. lia.
    + rewrite firstn_app, length_PutUint32,
        (firstn_all2 (LittleEndian.PutUint32 _))
        by (rewrite length_PutUint32; lia).
      destruct (Nat.lt_ge_cases (k - 4) (List.length payload)) as [Hl|Hl].
      * rewrite firstn_app.
        replace (k - 4 - List.length payload)%nat with 0%nat by lia.
        cbn [firstn]. rewrite app_nil_r.
        pose proof (frameLimit_le a).
        unfold toUint32. rewrite Z.mod_small by lia.
        apply truncated_payload; [exact Hn|exact Hp|].
        unfold len. rewrite length_firstn. lia.
      * rewrite firstn_app, (firstn_all2 payload) by lia.
        pose proof (truncated_after_record a unmarshal n payload m
                      (firstn (k - 4 - List.length payload) fp) Hn Hp Hm) as T.
        unfold frame in T. rewrite <- app_assoc in T. apply T.
        apply IH. lia.
Qed.

Lemma firstn_truncatedBatch {Msg : Type} a (unmarshal : list byte -> option Msg)
    n body recs k :
  0 <= n < countLimit a ->
  completeRecords a unmarshal n body recs ->
  (0 < k < List.length (LittleEndian.PutUint32 n ++ body))%nat ->
  truncatedBatch a unmarshal (firstn k (LittleEndian.PutUint32 n ++ body)).
Proof.
  intros Hn C Hk. rewrite length_app, length_PutUint32 in Hk.
  destruct (Nat.lt_ge_cases k 4) as [H4|H4].
  - apply truncated_count. rewrite length_firstn, length_app, length_PutUint32.
    lia.
  - rewrite firstn_app, length_PutUint32,
      (firstn_all2 (LittleEndian.PutUint32 n))
      by (rewrite length_PutUint32; lia).
    apply truncated_body; [exact Hn|].
    apply (firstn_truncatedRecords a unmarshal n body recs C). lia.
Qed.

Lemma fileContent_app p ev1 : forall ev2 content,
  fileContent p (ev1 ++ ev2) content
  = fileContent p ev2 (fileContent p ev1 content).
Proof.
  induction ev1 as [|ev ev1 IH]; intros ev2 content; [reflexivity|].
  destruct ev as [| | | | | |p' ok|p' w ok]; try apply IH.
  destruct ok; apply IH.
Qed.

Lemma fileContent_no_write p evs : forall content,
  filter isWrite evs = [] ->
  fileContent p evs content
  = if existsb (String.eqb p) (created evs) then [] else content.
Proof.
  induction evs as [|ev evs IH]; intros content W; [reflexivity|].
  destruct ev as [| | | | | |p' ok|p' w ok];
    try (exact (IH content W)); [|discriminate].
  destruct ok; [|exact (IH content W)].
  cbn [fileContent]. rewrite (IH _ W).
  change (created (EvCreate p' true :: evs)) with (p' :: created evs).
  cbn [existsb]. rewrite (String.eqb_sym p p').
  destruct (p' =? p)%string; cbn [orb]; [|reflexivity].
  now destruct (existsb _ _).
Qed.

(** X18.  A write that is cut short inside the buffer leaves a file that
    the replay cannot read to its end.  When [ExportSpans] leaves a file
    open and the write has stopped after [k] bytes, with [k] above zero and
    below the length of the buffer, the call returns the write error, and
    the file holds the whole batches it held before (none, when the call
    has just created it) followed by the first [k] bytes of the buffer; its
    replay hands over those whole batches and then fails with a truncation
    error. *)
Theorem short_write_replays_as_truncation {Msg : Type} (a : arch)
    (marshal : Msg -> option (list byte)) (unmarshal : list byte -> option Msg)
    (UploadTraces : list Msg -> bool) (o : os_outcome) (x : FilesTraceExporter)
    (protoSpans : list Msg) (buf : list byte) (k : nat)
    (content : list byte) (uploads uploaded : list (list Msg))
    (path : string) :
  completeBatches a unmarshal content uploads ->
  len protoSpans < countLimit a ->
  (forall m, In m protoSpans ->
     exists payload, framable a marshal unmarshal m payload) ->
  marshalSpans marshal protoSpans = inr buf ->
  write_short o = Some k ->
  (0 < k < List.length buf)%nat ->
  forall fp,
    outputFp (snd (fst (ExportSpans marshal a o x protoSpans))) = Some fp ->
    let err := fst (fst (ExportSpans marshal a o x protoSpans)) in
    let evs := snd (ExportSpans marshal a o x protoSpans) in
    let fresh := existsb (String.eqb fp) (created evs) in
    err = Some (Wrap "cannot write spans to output file" (Os ErrWriteFp))
    /\ fileContent fp evs content
       = (if fresh then [] else content) ++ firstn k buf
    /\ exists e,
         ImportTraceFile a unmarshal UploadTraces
           (fun _ => Some (fileContent fp evs content)) path uploaded
         = (Failed e, uploaded ++ (if fresh then [] else uploads))
         /\ isTruncation e.
Proof.
  intros B Hlen Hall Hm Hw Hk fp.
  assert (Hne : protoSpans <> []).
  { intros ->. cbn in Hm. injection Hm as <-. cbn in Hk. lia. }
  destruct (marshalSpans_body a marshal unmarshal protoSpans Hne Hlen Hall)
    as (body & E & C).
  assert (Eb : buf = LittleEndian.PutUint32 (len protoSpans) ++ body)
    by congruence.
  clear E. subst buf.
  assert (Hn : 0 <= len protoSpans < countLimit a) by (unfold len in *; lia).
  pose proof (firstn_truncatedBatch a unmarshal _ _ _ k Hn C Hk) as T.
  unfold ExportSpans.
  destruct (Z.eqb_spec (len protoSpans) 0) as [E0|_];
    [destruct protoSpans; [congruence|discriminate]|].
  rewrite Hm.
  destruct (prepareOutputFp a o x _) as [[err x1] ev1] eqn:Ep.
  apply prepareOutputFp_post in Ep as [W F].
  destruct err as [e|]; [cbn [fst snd]; rewrite F by discriminate; discriminate|].
  destruct (outputFp x1) as [fp1|] eqn:Efp;
    [|cbn [fst snd]; rewrite Efp; discriminate].
  rewrite Hw. cbn [fst snd set_written outputFp]. rewrite Efp.
  intros [= <-]. cbv zeta.
  rewrite created_app. cbn [created flat_map]. rewrite app_nil_r.
  rewrite fileContent_app, (fileContent_no_write _ _ _ W).
  cbn [fileContent]. rewrite String.eqb_refl.
  split; [reflexivity|]. split; [reflexivity|].
  set (kept := if existsb _ _ then [] else content).
  set (ups := if existsb _ _ then [] else uploads).
  assert (B' : completeBatches a unmarshal kept ups)
    by (subst kept ups; destruct (existsb _ _); [constructor|exact B]).
  unfold ImportTraceFile.
  set (tail := firstn k (LittleEndian.PutUint32 (len protoSpans) ++ body)) in *.
  rewrite (importBatches_complete a unmarshal UploadTraces _ _ B'
             (S (List.length (kept ++ tail))) (S (List.length tail)))
    by lia.
  apply importBatches_truncated; [exact T|lia].
Qed.

Lemma short_write_replays_as_truncation_witness :
  fst (fst (ExportSpans Some Arch64 (with_write_short (calm sampleNow) (Some 6%nat))
              (sampleOpen 0 9) sampleSpans))
  = Some (Wrap "cannot write spans to output file" (Os ErrWriteFp))
  /\ fileContent "spool/0ssgg/0000"
       (snd (ExportSpans Some Arch64
               (with_write_short (calm sampleNow) (Some 6%nat))
               (sampleOpen 0 9) sampleSpans))
       [Byte.x01; Byte.x00; Byte.x00; Byte.x00;
        Byte.x01; Byte.x00; Byte.x00; Byte.x00; Byte.x2a]
     = [Byte.x01; Byte.x00; Byte.x00; Byte.x00;
        Byte.x01; Byte.x00; Byte.x00; Byte.x00; Byte.x2a]
       ++ [Byte.x01; Byte.x00; Byte.x00; Byte.x00; Byte.x01; Byte.x00]
  /\ exists e,
       ImportTraceFile Arch64 Some (fun _ => true)
         (fun _ => Some (fileContent "spool/0ssgg/0000"
                           (snd (ExportSpans Some Arch64
                                   (with_write_short (calm sampleNow) (Some 6%nat))
                                   (sampleOpen 0 9) sampleSpans))
                           [Byte.x01; Byte.x00; Byte.x00; Byte.x00;
                            Byte.x01; Byte.x00; Byte.x00; Byte.x00; Byte.x2a]))
         "spool/0ssgg/0000" []
       = (Failed e, [] ++ [sampleSpans])
       /\ isTruncation e.
Proof.
  apply (short_write_replays_as_truncation Arch64 Some Some (fun _ => true)
           (with_write_short (calm sampleNow) (Some 6%nat)) (sampleOpen 0 9)
           sampleSpans
           [Byte.x01; Byte.x00; Byte.x00; Byte.x00;
            Byte.x01; Byte.x00; Byte.x00; Byte.x00; Byte.x2a]
           6%nat
           [Byte.x01; Byte.x00; Byte.x00; Byte.x00;
            Byte.x01; Byte.x00; Byte.x00; Byte.x00; Byte.x2a]
           [sampleSpans] [] "spool/0ssgg/0000" ).
  - destruct (marshalSpans_batch Arch64 Some Some sampleSpans) as (buf & E & B).
    + discriminate.
    + reflexivity.
    + intros m [<-|[]]. exists [Byte.x2a]. repeat split; reflexivity.
    + vm_compute in E. injection E as <-. exact B.
  - reflexivity.
  - intros m [<-|[]]. exists [Byte.x2a]. repeat split; reflexivity.
  - vm_compute. reflexivity.
  - reflexivity.
  - cbn. lia.
  - vm_compute. reflexivity.
Defined.

(** ** Replay of a folder that a run has written *)

Lemma importEntries_replay {Msg : Type} a (marshal : Msg -> option (list byte))
    (unmarshal : list byte -> option Msg) (UploadTraces : list Msg -> bool)
    fs x calls folderPath entries :
  Forall (wholeCall a marshal unmarshal) calls ->
  (forall e, In e entries -> replayedEntry e = true ->
     fs (pathJoin folderPath (Name e))
     = Some (written (pathJoin folderPath (Name e))
               (snd (run marshal a x calls)))) ->
  forall uploaded,
    importEntries a unmarshal UploadTraces fs folderPath entries uploaded
    = (Done tt,
       uploaded
       ++ List.concat
            (map (fun e => exportedTo (pathJoin folderPath (Name e))
                             (exports marshal a x calls))
               (filter replayedEntry entries))).
Proof.
  intros H. induction entries as [|entry rest IH]; intros Hfs uploaded.
  - cbn. now rewrite app_nil_r.
  - assert (Hrest : forall e, In e rest -> replayedEntry e = true ->
              fs (pathJoin folderPath (Name e))
              = Some (written (pathJoin folderPath (Name e))
                        (snd (run marshal a x calls))))
      by (intros e I; apply Hfs; now right).
    specialize (Hfs entry (or_introl eq_refl)).
    cbn [importEntries filter]. unfold replayedEntry at 1 in Hfs.
    unfold replayedEntry at 1.
    destruct (IsDir entry); cbn [negb andb] in *; [now apply IH|].
    destruct (hiddenName (Name entry)); cbn [negb] in *; [now apply IH|].
    rewrite (run_replay a marshal unmarshal UploadTraces fs x calls _ uploaded H
               (Hfs eq_refl)).
    rewrite (IH Hrest). cbn [map List.concat]. now rewrite app_assoc.
Qed.

(** X19.  Replay of a folder that a run has written.  In a run of calls in
    which no write is cut short and every span can be framed and read
    back, replaying a folder whose replayed entries (not a directory, not a
    skipped name) hold what the run has written to them ends without error
    and uploads, entry by entry in the order of the listing, the batches
    the run has handed to [Write] for that entry.  The index and the
    timestamp file of the folder, whose names start with an underscore,
    are not read. *)
Theorem exported_folder_replays {Msg : Type} (a : arch)
    (marshal : Msg -> option (list byte)) (unmarshal : list byte -> option Msg)
    (UploadTraces : list Msg -> bool) (fs : string -> option (list byte))
    (x : FilesTraceExporter) (calls : list (call Msg)) (folderPath : string)
    (entries : list DirEntry) (uploaded : list (list Msg)) :
  Forall (wholeCall a marshal unmarshal) calls ->
  (forall e, In e entries -> replayedEntry e = true ->
     fs (pathJoin folderPath (Name e))
     = Some (written (pathJoin folderPath (Name e))
               (snd (run marshal a x calls)))) ->
  ImportTraceFolder a unmarshal UploadTraces fs (fun _ => Some entries)
    folderPath uploaded
  = (Done tt,
     uploaded
     ++ List.concat
          (map (fun e => exportedTo (pathJoin folderPath (Name e))
                           (exports marshal a x calls))
             (filter replayedEntry entries))).
Proof.
  intros H Hfs. unfold ImportTraceFolder. now apply importEntries_replay.
Qed.

Lemma exported_folder_replays_witness :
  ImportTraceFolder Arch64 Some (fun _ => true)
    (fun q => Some (written q (snd (run Some Arch64 (newExporter sampleConfig)
                                      sampleCalls))))
    (fun _ => Some [{| Name := "0000"; IsDir := false |};
                    {| Name := "_index"; IsDir := false |};
                    {| Name := "000g"; IsDir := false |};
                    {| Name := "_t"; IsDir := false |}])
    "spool/0ssgg" []
  = (Done tt,
     [] ++ List.concat
             (map (fun e => exportedTo (pathJoin "spool/0ssgg" (Name e))
                              (exports Some Arch64 (newExporter sampleConfig)
                                 sampleCalls))
                (filter replayedEntry
                   [{| Name := "0000"; IsDir := false |};
                    {| Name := "_index"; IsDir := false |};
                    {| Name := "000g"; IsDir := false |};
                    {| Name := "_t"; IsDir := false |}]))).
Proof.
  apply (exported_folder_replays Arch64 Some Some (fun _ => true)).
  - exact sampleCalls_whole.
  - intros e [<-|[<-|[<-|[<-|[]]]]]; intros R; try discriminate R; reflexivity.
Defined.

Example exported_folder_replays_sample :
  ImportTraceFolder Arch64 Some (fun _ => true)
    (fun q => Some (written q (snd (run Some Arch64 (newExporter sampleConfig)
                                      sampleCalls))))
    (fun _ => Some [{| Name := "0000"; IsDir := false |};
                    {| Name := "_index"; IsDir := false |};
                    {| Name := "000g"; IsDir := false |};
                    {| Name := "_t"; IsDir := false |}])
    "spool/0ssgg" []
  = (Done tt, [sampleSpans; sampleSpans]).
Proof. vm_compute. reflexivity. Qed.

(** ** The index names the files that were created *)

Lemma indexed_ext evs : forall seen seen',
  (forall p, In p seen -> In p seen') -> indexed seen evs -> indexed seen' evs.
Proof.
  induction evs as [|ev evs IH]; intros seen seen' H O; [exact I|].
  destruct ev as [| |idx name t0 t1 ok| | | |p' ok|];
    try (exact (IH seen seen' H O)).
  - destruct O as [(folder & E & M) O]. split; [|now apply (IH seen)].
    exists folder. split; [exact E|now apply H].
  - destruct ok; [|exact (IH seen seen' H O)].
    apply (IH (p' :: seen)); [|exact O].
    intros p [->|M]; [now left|right; now apply H].
Qed.

Lemma indexed_app ev1 : forall seen ev2,
  indexed seen ev1 -> indexed (seen ++ created ev1) ev2 ->
  indexed seen (ev1 ++ ev2).
Proof.
  induction ev1 as [|ev ev1 IH]; intros seen ev2 O1 O2;
    [cbn in O2; now rewrite app_nil_r in O2|].
  destruct ev as [| |idx name t0 t1 ok| | | |p' ok|];
    try (exact (IH seen ev2 O1 O2)).
  - destruct O1 as [M O1]. split; [exact M|]. now apply IH.
  - destruct ok; [|exact (IH seen ev2 O1 O2)].
    apply IH; [exact O1|].
    apply (indexed_ext ev2 (seen ++ created (EvCreate p' true :: ev1)));
      [|exact O2].
    intros p. cbn [created flat_map app]. rewrite !in_app_iff. cbn [In].
    rewrite in_app_iff. tauto.
Qed.

Lemma indexed_no_index evs : forall seen,
  filter isIndexWrite evs = [] -> indexed seen evs.
Proof.
  induction evs as [|ev evs IH]; intros seen W; [exact I|].
  destruct ev as [| |idx name t0 t1 ok| | | |p' ok|];
    try (exact (IH seen W)); [discriminate|].
  destruct ok; apply IH; exact W.
Qed.

Lemma closeOutputFile_indexed o x seen :
  wellFormed x -> (forall fp, outputFp x = Some fp -> In fp seen) ->
  indexed seen (snd (closeOutputFile o x)).
Proof.
  intros (_ & Hf & Hfp) B. unfold closeOutputFile, appendIndexRecord.
  destruct (outputFp x) as [fp|]; [|exact I].
  destruct Hfp as (Hne & _ & _ & Efp).
  destruct Hf as [Hf|[_ Hi]]; [contradiction|].
  cbn [set_closed indexFilePath outputFileName].
  destruct (index_open_ok o); [destruct (index_write_ok o)|]; cbn;
    try exact I; (split; [|exact I]);
    exists (outputFolderPath x); (split; [exact Hi|]);
    rewrite <- Efp; now apply B.
Qed.

Lemma closeOutputFolder_no_index o x :
  filter isIndexWrite (snd (closeOutputFolder o x)) = [].
Proof.
  unfold closeOutputFolder, writeTimestampFile.
  destruct (_ =? _)%string; [|destruct (timestamp_ok o)]; reflexivity.
Qed.

Lemma prepareOutputFolder_no_index o x h :
  filter isIndexWrite (snd (prepareOutputFolder o x h)) = [].
Proof.
  unfold prepareOutputFolder. destruct (mkdir_ok o); reflexivity.
Qed.

Lemma purgeLoop_no_index o base eb offsets :
  filter isIndexWrite (snd (purgeLoop o base eb offsets)) = [].
Proof.
  induction offsets as [|off rest IH]; [reflexivity|].
  cbn [purgeLoop]. destruct (_ <? 0); [reflexivity|].
  destruct (purgeLoop o base eb rest) as [errS evs]. exact IH.
Qed.

Lemma purge_no_index o x :
  filter isIndexWrite (snd (purgeRecentExpiredOutputFolders o x)) = [].
Proof.
  unfold purgeRecentExpiredOutputFolders.
  destruct (_ <? 1); [reflexivity|].
  pose proof (purgeLoop_no_index o (baseFolderPath (cfg x))
                (expiredHourBaseOf (now_purge o) (retainHours (cfg x)))
                (map Z.of_nat (seq 0 (Z.to_nat purgeRangeCount)))) as P.
  destruct (purgeLoop _ _ _ _) as [errS evs]. exact P.
Qed.

Lemma rotateOutput_indexed a o x recordSize seen :
  wellFormed x -> (forall fp, outputFp x = Some fp -> In fp seen) ->
  match rotateOutput a o x recordSize with
  | inl (_, _, ev) => indexed seen ev
  | inr (_, ev) => indexed seen ev
  end.
Proof.
  intros W B. pose proof (closeOutputFile_indexed o x seen W B) as I0.
  unfold rotateOutput.
  destruct (closeOutputFile o x) as [[err0 x0] ev0]. cbn [snd] in I0.
  destruct (_ =? _).
  - destruct (_ && _); [exact I|].
    destruct err0; [exact I0|].
    destruct (_ =? _)%string; [|exact I0].
    pose proof (prepareOutputFolder_no_index o x0 (hourBucket (now_prepare o)))
      as N2.
    destruct (prepareOutputFolder o x0 _) as [[err2 x2] ev2]. cbn [snd] in N2.
    destruct err2; (apply indexed_app; [exact I0|now apply indexed_no_index]).
  - pose proof (closeOutputFolder_no_index o x0) as N1.
    destruct (closeOutputFolder o x0) as [err1 ev1]. cbn [snd] in N1.
    destruct (joinErrors _ _);
      [apply indexed_app; [exact I0|now apply indexed_no_index]|].
    pose proof (prepareOutputFolder_no_index o x0 (hourBucket (now_prepare o)))
      as N2.
    destruct (prepareOutputFolder o x0 _) as [[err2 x2] ev2]. cbn [snd] in N2.
    destruct err2.
    + apply indexed_app; [exact I0|]. apply indexed_no_index.
      now rewrite filter_app, N1, N2.
    + pose proof (purge_no_index o x2) as N3.
      destruct (purgeRecentExpiredOutputFolders o x2) as [e3 ev3].
      cbn [snd] in N3.
      apply indexed_app; [exact I0|]. apply indexed_no_index.
      now rewrite !filter_app, N1, N2, N3.
Qed.

Lemma prepareOutputFp_indexed a o x recordSize seen :
  wellFormed x -> (forall fp, outputFp x = Some fp -> In fp seen) ->
  indexed seen (snd (prepareOutputFp a o x recordSize)).
Proof.
  intros W B. pose proof (rotateOutput_indexed a o x recordSize seen W B) as R.
  unfold prepareOutputFp.
  destruct (rotateOutput a o x recordSize) as [[[err' x'] ev']|[x' ev']];
    [exact R|].
  assert (N : filter isIndexWrite (snd (openOutputFile o x')) = []).
  { unfold openOutputFile. destruct (_ >? _); [reflexivity|].
    destruct (create_ok o); reflexivity. }
  destruct (openOutputFile o x') as [[err2 x2] ev2]. cbn [snd] in *.
  apply indexed_app; [exact R|now apply indexed_no_index].
Qed.

Lemma step_indexed {Msg : Type} (marshal : Msg -> option (list byte)) a x c seen :
  wellFormed x -> (forall fp, outputFp x = Some fp -> In fp seen) ->
  indexed seen (snd (step marshal a x c))
  /\ (forall fp, outputFp (snd (fst (step marshal a x c))) = Some fp ->
        In fp (seen ++ created (snd (step marshal a x c)))).
Proof.
  intros W B. destruct c as [o protoSpans|o]; cbn [step].
  - unfold ExportSpans.
    destruct (_ =? _);
      [split; [exact I|cbn; now rewrite app_nil_r]|].
    destruct (marshalSpans marshal protoSpans) as [e|buf];
      [split; [exact I|cbn; now rewrite app_nil_r]|].
    pose proof (prepareOutputFp_indexed a o x (len buf) seen W B) as I1.
    destruct (prepareOutputFp a o x (len buf)) as [[err x1] ev1] eqn:Ep.
    cbn [snd] in I1.
    assert (B1 : forall fp, outputFp x1 = Some fp -> In fp (seen ++ created ev1)).
    { intros fp Efp. apply in_app_iff.
      destruct (prepareOutputFp_open a o x (len buf) err x1 ev1 fp Ep Efp);
        [left; now apply B|now right]. }
    destruct err; [now split|].
    destruct (outputFp x1) as [fp|] eqn:Efp;
      [|split; [exact I1|cbn [fst snd]; intros fp'; congruence]].
    assert (K : forall w ok, created (ev1 ++ [EvWrite fp w ok]) = created ev1)
      by (intros w ok; rewrite created_app; cbn; now rewrite app_nil_r).
    destruct (write_short o); cbn [fst snd set_written outputFp]; rewrite K;
      (split; [|intros fp' E'; apply B1; congruence]);
      (apply indexed_app; [exact I1|exact I]).
  - unfold Shutdown.
    pose proof (closeOutputFile_indexed o x seen W B) as I0.
    destruct (closeOutputFile o x) as [[err0 x0] ev0] eqn:E0. cbn [snd] in I0.
    pose proof (closeOutputFile_post o x err0 x0 ev0 E0) as (F0 & _).
    pose proof (closeOutputFolder_no_index o x0) as N1.
    destruct (closeOutputFolder o x0) as [err1 ev1]. cbn [fst snd] in *.
    split; [|congruence].
    apply indexed_app; [exact I0|now apply indexed_no_index].
Qed.

Lemma run_indexed {Msg : Type} (marshal : Msg -> option (list byte)) a calls :
  forall x seen,
    wellFormed x -> (forall fp, outputFp x = Some fp -> In fp seen) ->
    indexed seen (snd (run marshal a x calls)).
Proof.
  induction calls as [|c rest IH]; intros x seen W B; [exact I|].
  cbn [run].
  destruct (step_indexed marshal a x c seen W B) as [I1 B1].
  destruct (step_wf marshal a x c W) as [W1 _].
  destruct (step marshal a x c) as [[err x1] ev1]. cbn [fst snd] in *.
  specialize (IH x1 (seen ++ created ev1) W1 B1).
  destruct (run marshal a x1 rest) as [x2 ev2]. cbn [snd] in *.
  now apply indexed_app.
Qed.

(** X20.  Whatever calls of [ExportSpans] and [Shutdown] are made on a new
    exporter, whatever fails and whatever the clock reads, every record
    that is appended to an index file names a segment file that the run has
    created before, and the index written to is the file [_index] of the
    folder of that segment file. *)
Theorem index_records_name_created_files {Msg : Type}
    (marshal : Msg -> option (list byte)) (a : arch) (c : Config)
    (calls : list (call Msg)) :
  indexed [] (snd (run marshal a (newExporter c) calls)).
Proof.
  apply run_indexed; [apply newExporter_wf|]. cbn. discriminate.
Qed.

Example sampleCalls_index :
  filter isIndexWrite (snd (run Some Arch64 (newExporter sampleConfig) sampleCalls))
  = [EvIndexWrite "spool/0ssgg/_index" "0000" sampleNow sampleNow true;
     EvIndexWrite "spool/0ssgg/_index" "000g" (sampleNow + 5) (sampleNow + 5) true].
Proof. vm_compute. reflexivity. Qed.
